(** * smart-meter-receiver: a shallow embedding of the ECHONET Lite codec,
    the property-map parser, the Wi-SUN line parser and the client's
    request/response loop, with the properties of its specification. *)

From Stdlib Require Import ZArith List Lia.
From Stdlib Require Import Ascii.
From Stdlib Require QArith.
From stdpp Require Import base gmap list strings.

Local Open Scope Z_scope.

(** A Rust [Result<T, E>]; [?] is the bind of this monad. *)
Inductive result (E A : Type) : Type :=
| Ok : A -> result E A
| Err : E -> result E A.
Arguments Ok {E A} _.
Arguments Err {E A} _.

#[global] Instance result_ret E : MRet (result E) := fun A x => Ok x.
#[global] Instance result_bind E : MBind (result E) :=
  fun A B f m => match m with Ok x => f x | Err e => Err e end.

(** ** src/echonet *)
Module Echonet.

(** src/echonet/errors.rs *)
Inductive Error : Type :=
| ParseError : string -> Error
| InvalidValueError : string -> Error
| InvalidEchonetObjectIdError : list Z -> Error  (* the [{:?}] of the bytes *)
| InvalidEchonetServiceError : Z -> Error
| InvalidEchonetProperty : Z -> Error.

Abbreviation Result A := (result Error A).

(** src/echonet/enums.rs *)
Inductive EchonetObject := SmartMeter | HemsController.

Definition EchonetObject_as_u64 (o : EchonetObject) : Z :=
  match o with SmartMeter => 0x028801 | HemsController => 0x05FF01 end.

(** [impl Into<[u8; 3]> for EchonetObject]: [as u8] keeps the low byte. *)
Definition EchonetObject_into (o : EchonetObject) : list Z :=
  let u := EchonetObject_as_u64 o in
  [Z.land (Z.shiftr u 16) 255; Z.land (Z.shiftr u 8) 255; Z.land u 255].

(** [impl TryFrom<[u8; 3]> for EchonetObject] *)
Definition EchonetObject_try_from (v0 v1 v2 : Z) : Result EchonetObject :=
  let num := Z.shiftl v0 16 + Z.shiftl v1 8 + v2 in
  if num =? 0x028801 then Ok SmartMeter
  else if num =? 0x05FF01 then Ok HemsController
  else Err (InvalidEchonetObjectIdError [v0; v1; v2]).

Inductive EchonetService :=
| ReadPropertyFailResponse
| ReadPropertyRequest
| ReadPropertyResponse
| PropertyNotification
| PropertyNotificationResponseRequired
| PropertyNotificationResponse.

Definition EchonetService_as_u8 (s : EchonetService) : Z :=
  match s with
  | ReadPropertyFailResponse => 0x52
  | ReadPropertyRequest => 0x62
  | ReadPropertyResponse => 0x72
  | PropertyNotification => 0x73
  | PropertyNotificationResponseRequired => 0x74
  | PropertyNotificationResponse => 0x7A
  end.

Definition EchonetService_try_from (b : Z) : Result EchonetService :=
  if b =? 0x52 then Ok ReadPropertyFailResponse
  else if b =? 0x62 then Ok ReadPropertyRequest
  else if b =? 0x72 then Ok ReadPropertyResponse
  else if b =? 0x73 then Ok PropertyNotification
  else if b =? 0x74 then Ok PropertyNotificationResponseRequired
  else if b =? 0x7A then Ok PropertyNotificationResponse
  else Err (InvalidEchonetServiceError b).

(** The trait [EchonetProperty]: a [#[repr(u8)]] enum deriving
    [TryFromPrimitive] and [IntoPrimitive]; what the derives guarantee is
    recorded as the two laws. *)
Class EchonetProperty (P : Type) := {
  prop_into : P -> Z;
  prop_try_from_primitive : Z -> option P;
  prop_into_range : forall p, 0 <= prop_into p < 256;
  prop_try_from_into : forall p, prop_try_from_primitive (prop_into p) = Some p
}.

Inductive EchonetSmartMeterProperty :=
| Coefficient
| NumberOfEffectiveDigitsCumulativeElectricEnergy
| NormalDirectionCumulativeElectricEnergy
| UnitForCumulativeElectricEnergy
| NormalDirectionCumulativeElectricEnergyLog1
| InstantaneousElectricPower
| InstantaneousCurrent.

Definition smart_meter_into (p : EchonetSmartMeterProperty) : Z :=
  match p with
  | Coefficient => 0xD3
  | NumberOfEffectiveDigitsCumulativeElectricEnergy => 0xD7
  | NormalDirectionCumulativeElectricEnergy => 0xE0
  | UnitForCumulativeElectricEnergy => 0xE1
  | NormalDirectionCumulativeElectricEnergyLog1 => 0xE2
  | InstantaneousElectricPower => 0xE7
  | InstantaneousCurrent => 0xE8
  end.

Definition smart_meter_try_from (b : Z) : option EchonetSmartMeterProperty :=
  if b =? 0xD3 then Some Coefficient
  else if b =? 0xD7 then Some NumberOfEffectiveDigitsCumulativeElectricEnergy
  else if b =? 0xE0 then Some NormalDirectionCumulativeElectricEnergy
  else if b =? 0xE1 then Some UnitForCumulativeElectricEnergy
  else if b =? 0xE2 then Some NormalDirectionCumulativeElectricEnergyLog1
  else if b =? 0xE7 then Some InstantaneousElectricPower
  else if b =? 0xE8 then Some InstantaneousCurrent
  else None.

#[global, refine] Instance SmartMeterProperty_EchonetProperty :
  EchonetProperty EchonetSmartMeterProperty := {
  prop_into := smart_meter_into;
  prop_try_from_primitive := smart_meter_try_from
}.
Proof.
  - intros []; simpl; lia.
  - intros []; reflexivity.
Defined.

Inductive EchonetSuperClassProperty := GetPropertyMap.

#[global, refine] Instance SuperClassProperty_EchonetProperty :
  EchonetProperty EchonetSuperClassProperty := {
  prop_into := fun _ => 0x9F;
  prop_try_from_primitive := fun b => if b =? 0x9F then Some GetPropertyMap else None
}.
Proof.
  - intros []; lia.
  - intros []; reflexivity.
Defined.

(** src/echonet/packet.rs *)
Definition ECHONET_LITE_EHD1 : Z := 0x10.
Definition ECHONET_FORMAT_1 : Z := 0x81.

Section Packet.
Context {P : Type} `{EchonetProperty P}.

Record Property := mkProperty { epc : P; pdata : list Z }.

Record Edata := mkEdata {
  source_object : EchonetObject;
  destination_object : EchonetObject;
  echonet_service : EchonetService;
  properties : list Property
}.

Record EchonetPacket := mkEchonetPacket {
  ehd1 : Z;
  ehd2 : Z;
  transaction_id : Z;
  data : Edata
}.

Definition EchonetPacket_new (tid : Z) (d : Edata) : EchonetPacket :=
  mkEchonetPacket ECHONET_LITE_EHD1 ECHONET_FORMAT_1 tid d.

(** [Property::parse]: [(consumed, property)]. *)
Definition Property_parse (bin : list Z) : Result (nat * Property) :=
  match bin with
  | b :: pdc :: rest =>
      match prop_try_from_primitive b with
      | None => Err (InvalidEchonetProperty b)
      | Some e =>
          if (length bin <? 2 + Z.to_nat pdc)%nat
          then Err (ParseError "less data length")
          else Ok (2 + Z.to_nat pdc, mkProperty e (firstn (Z.to_nat pdc) rest))%nat
      end
  | _ => Err (ParseError "empty data")
  end.

(** [Property::dump]: [self.data.len() as u8] keeps the length mod 256. *)
Definition Property_dump (p : Property) : list Z :=
  prop_into (epc p) :: (Z.of_nat (length (pdata p)) mod 256) :: pdata p.

(** The [for _ in 0..header.opc] loop of [Edata::parse], from offset [pos]. *)
Fixpoint Edata_parse_properties (n : nat) (bin : list Z) (pos : nat)
  : Result (list Property) :=
  match n with
  | O => Ok []
  | S n' =>
      if (length bin <=? pos)%nat then Err (ParseError "data length too short")
      else
        '(num, prop) ← Property_parse (drop pos bin);
        rest ← Edata_parse_properties n' bin (pos + num);
        Ok (prop :: rest)
  end.

Definition Edata_parse (bin : list Z) : Result Edata :=
  match bin with
  | s0 :: s1 :: s2 :: d0 :: d1 :: d2 :: esv :: opc :: _ =>
      so ← EchonetObject_try_from s0 s1 s2;
      dob ← EchonetObject_try_from d0 d1 d2;
      sv ← EchonetService_try_from esv;
      props ← Edata_parse_properties (Z.to_nat opc) bin 8;
      Ok (mkEdata so dob sv props)
  | _ => Err (ParseError "data length too short")
  end.

(** [Edata::dump]: [self.properties.len() as u8]. *)
Definition Edata_dump (d : Edata) : list Z :=
  EchonetObject_into (source_object d) ++ EchonetObject_into (destination_object d)
  ++ [EchonetService_as_u8 (echonet_service d);
      Z.of_nat (length (properties d)) mod 256]
  ++ concat (map Property_dump (properties d)).

End Packet.
Arguments Property P : clear implicits.
Arguments Edata P : clear implicits.
Arguments EchonetPacket P : clear implicits.

(** The packed header is turned into bytes and back with [mem::transmute],
    so the two bytes of [tid: u16] are laid out in the host's byte order. *)
Inductive Endian := BigEndian | LittleEndian.

Definition u16_to_ne_bytes (host : Endian) (v : Z) : list Z :=
  let hi := Z.land (Z.shiftr v 8) 255 in
  let lo := Z.land v 255 in
  match host with BigEndian => [hi; lo] | LittleEndian => [lo; hi] end.

Definition u16_from_ne_bytes (host : Endian) (b0 b1 : Z) : Z :=
  match host with
  | BigEndian => Z.shiftl b0 8 + b1
  | LittleEndian => Z.shiftl b1 8 + b0
  end.

Section PacketIO.
Context {P : Type} `{EchonetProperty P}.

Definition EchonetPacket_parse (host : Endian) (bin : list Z)
  : Result (EchonetPacket P) :=
  match bin with
  | e1 :: e2 :: t0 :: t1 :: rest =>
      if negb (e1 =? ECHONET_LITE_EHD1) then Err (InvalidValueError "EHD1 MUST BE 0x10")
      else if negb (e2 =? ECHONET_FORMAT_1) then Err (InvalidValueError "EHD2 MUST BE 0x10")
      else
        edata ← Edata_parse rest;
        Ok (mkEchonetPacket e1 e2 (u16_from_ne_bytes host t0 t1) edata)
  | _ => Err (ParseError "data length too short")
  end.

Definition EchonetPacket_dump (host : Endian) (p : EchonetPacket P) : list Z :=
  [ehd1 p; ehd2 p] ++ u16_to_ne_bytes host (transaction_id p) ++ Edata_dump (data p).

End PacketIO.

(** src/echonet/property_map.rs: [HashSet<u8>] as a [gset Z]. *)
Record PropertyMap := mkPropertyMap { pm_properties : gset Z }.

(** The [for j in 0..8] loop over the bitmap byte [b = map[i]]; [0x01u8 << j]
    and [(8 + j) << 4] are [u8] shifts, so they keep their low 8 bits. *)
Definition PropertyMap_decode_byte (i b : Z) (props : gset Z) : gset Z :=
  fold_left
    (fun acc j =>
       if Z.land b (Z.land (Z.shiftl 1 j) 255) =? 0 then acc
       else {[ i + Z.land (Z.shiftl (8 + j) 4) 255 ]} ∪ acc)
    (seqZ 0 8) props.

(** The [for i in 0..16] loop over [map = &bin[1..]]. *)
Definition PropertyMap_decode (map : list Z) : gset Z :=
  fold_left
    (fun acc i =>
       let b := nth (Z.to_nat i) map 0 in
       if b =? 0 then acc else PropertyMap_decode_byte i b acc)
    (seqZ 0 16) ∅.

Definition PropertyMap_parse (bin : list Z) : Result PropertyMap :=
  match bin with
  | [] => Err (ParseError "empty data")
  | n :: rest =>
      if n <? 16 then Ok (mkPropertyMap (list_to_set rest))
      else if negb (length bin =? 17)%nat
      then Err (ParseError "data length MUST be equal to 17")
      else
        let props := PropertyMap_decode rest in
        if negb (size props =? Z.to_nat n)%nat
        then Err (ParseError "property count is wrong")
        else Ok (mkPropertyMap props)
  end.

Definition PropertyMap_has_property {P} `{EchonetProperty P} (m : PropertyMap) (p : P) : bool :=
  bool_decide (prop_into p ∈ pm_properties m).

End Echonet.

(** ** Text helpers: a Rust [&str] as a [string] of ASCII characters. *)
Module Str.

(** [char::is_whitespace] on ASCII: [\t \n \x0B \x0C \r] and space. *)
Definition is_whitespace (c : Ascii.ascii) : bool :=
  let n := Ascii.nat_of_ascii c in ((9 <=? n) && (n <=? 13) || (n =? 32))%nat.

Fixpoint trim_start (s : string) : string :=
  match s with
  | String c s' => if is_whitespace c then trim_start s' else s
  | EmptyString => EmptyString
  end.

Fixpoint rev_str (s acc : string) : string :=
  match s with
  | String c s' => rev_str s' (String c acc)
  | EmptyString => acc
  end.

Definition trim_end (s : string) : string := rev_str (trim_start (rev_str s EmptyString)) EmptyString.

(** [str::trim] *)
Definition trim (s : string) : string := trim_end (trim_start s).

(** [str::split] on a character predicate; the pieces keep empty ones,
    so [split] always yields at least one piece. *)
Fixpoint split_go (sep : Ascii.ascii -> bool) (s cur : string) : list string :=
  match s with
  | EmptyString => [rev_str cur EmptyString]
  | String c s' =>
      if sep c then rev_str cur EmptyString :: split_go sep s' EmptyString
      else split_go sep s' (String c cur)
  end.

Definition split (sep : Ascii.ascii -> bool) (s : string) : list string :=
  split_go sep s EmptyString.

Definition is_char (c : Ascii.ascii) : Ascii.ascii -> bool := Ascii.eqb c.

(** [str::strip_prefix] *)
Fixpoint strip_prefix (pre s : string) : option string :=
  match pre, s with
  | EmptyString, _ => Some s
  | String c pre', String d s' => if Ascii.eqb c d then strip_prefix pre' s' else None
  | String _ _, EmptyString => None
  end.

Definition hex_digit (c : Ascii.ascii) : option Z :=
  let n := Z.of_nat (Ascii.nat_of_ascii c) in
  if (48 <=? n) && (n <=? 57) then Some (n - 48)
  else if (65 <=? n) && (n <=? 70) then Some (n - 55)
  else if (97 <=? n) && (n <=? 102) then Some (n - 87)
  else None.

Fixpoint hex_value_go (s : string) (acc : Z) : option Z :=
  match s with
  | EmptyString => Some acc
  | String c s' => d ← hex_digit c; hex_value_go s' (acc * 16 + d)
  end.

(** [uN::from_str_radix(s, 16)] for an unsigned type of [bits] bits: an
    optional [+], then at least one hex digit, and no overflow. *)
Definition from_str_radix_16 (bits : Z) (s : string) : option Z :=
  let digits := match s with String "+"%char s' => s' | _ => s end in
  match digits with
  | EmptyString => None
  | _ => v ← hex_value_go digits 0; if v <? 2 ^ bits then Some v else None
  end.

(** [hex::decode]: an even number of hex digits, two per byte. *)
Fixpoint hex_decode (s : string) : option (list Z) :=
  match s with
  | EmptyString => Some []
  | String hi (String lo s') =>
      h ← hex_digit hi; l ← hex_digit lo; rest ← hex_decode s';
      Some ((h * 16 + l) :: rest)
  | String _ EmptyString => None
  end.

End Str.

(** [std::net::Ipv6Addr] as its eight 16-bit segments. *)
Definition Ipv6Addr := list Z.

(** [<Ipv6Addr as FromStr>::from_str] for the textual forms the module
    uses: eight groups of one to four hex digits, or fewer groups around a
    single [::]. (The embedded IPv4 suffix form is not modelled.) *)
Definition ipv6_groups (s : string) : option (list Z) :=
  match s with
  | EmptyString => Some []
  | _ =>
      mapM (fun g => if (1 <=? String.length g)%nat && (String.length g <=? 4)%nat
                     then Str.hex_value_go g 0 else None)
           (Str.split (Str.is_char ":") s)
  end.

Fixpoint find_double_colon (s : string) (before : string) : option (string * string) :=
  match s with
  | String ":" (String ":" rest) => Some (Str.rev_str before EmptyString, rest)
  | String c rest => find_double_colon rest (String c before)
  | EmptyString => None
  end.

Definition Ipv6Addr_from_str (s : string) : option Ipv6Addr :=
  match find_double_colon s EmptyString with
  | None =>
      gs ← (match s with EmptyString => None | _ => ipv6_groups s end);
      if (length gs =? 8)%nat then Some gs else None
  | Some (l, r) =>
      lg ← ipv6_groups l; rg ← ipv6_groups r;
      if (length lg + length rg <=? 7)%nat
      then Some (lg ++ repeat 0 (8 - length lg - length rg) ++ rg) else None
  end.

(** ** src/parser *)
Module Parser.

(** A Rust panic (an out-of-bounds [parts[i]]) is [None]. *)
Abbreviation Panicking A := (option A).

(** [v[i]] on a [Vec]: panics out of range. *)
Definition index {A} (v : list A) (i : nat) : Panicking A := v !! i.

(** src/parser/messages.rs *)
Inductive ParseResult (T : Type) : Type :=
| POk : T -> ParseResult T
| PErr : string -> ParseResult T
| PEmpty : ParseResult T
| PMore : ParseResult T.
Arguments POk {T} _.
Arguments PErr {T} _.
Arguments PEmpty {T}.
Arguments PMore {T}.

(** src/parser/event.rs *)
Inductive EventKind :=
| FinishedUdpSend
| FinishedActiveScan
| ErrorOnPanaConnection
| EstablishedPanaConnection.

Definition EventKind_try_from (n : Z) : option EventKind :=
  if n =? 0x21 then Some FinishedUdpSend
  else if n =? 0x22 then Some FinishedActiveScan
  else if n =? 0x24 then Some ErrorOnPanaConnection
  else if n =? 0x25 then Some EstablishedPanaConnection
  else None.

Record UdpPacket := mkUdpPacket {
  sender : Ipv6Addr;
  dest : Ipv6Addr;
  source_port : Z;
  dest_port : Z;
  udp_data : list Z
}.

Record EventBody := mkEventBody { kind : EventKind; ev_sender : Ipv6Addr }.

Record PanDescBody := mkPanDescBody { channel : Z; pan_id : Z; addr : list Z }.

Inductive WiSunEvent :=
| PanDesc : PanDescBody -> WiSunEvent
| RxUdp : UdpPacket -> WiSunEvent
| Event : EventBody -> WiSunEvent
| Version : string -> WiSunEvent.

Definition parse_event (data : string) (parts : list string)
  : Panicking (ParseResult WiSunEvent) :=
  p1 ← index parts 1;
  match Str.from_str_radix_16 8 p1 with
  | None => Some (PErr (String.append "Malformed event number. Line: " data))
  | Some event_num =>
      let k := EventKind_try_from event_num in
      p2 ← index parts 2;
      match k, Ipv6Addr_from_str p2 with
      | Some k, Some ip => Some (POk (Event (mkEventBody k ip)))
      | _, _ => Some (PErr data)
      end
  end.

Definition parse_rx_udp (data : string) (parts : list string)
  : Panicking (ParseResult WiSunEvent) :=
  match parts with
  | [_; p1; p2; p3; p4; _; _; p7; p8] =>
      Some (match Ipv6Addr_from_str p1, Ipv6Addr_from_str p2 with
       | Some s, Some d =>
           match Str.from_str_radix_16 16 p3, Str.from_str_radix_16 16 p4 with
           | Some sp, Some dp =>
               match Str.from_str_radix_16 16 p7 with
               | None => PErr data
               | Some data_len =>
                   if negb (Z.to_nat data_len * 2 =? String.length p8)%nat then PErr data
                   else match Str.hex_decode p8 with
                        | None => PErr data
                        | Some body => POk (RxUdp (mkUdpPacket s d sp dp body))
                        end
               end
           | _, _ => PErr data
           end
       | _, _ => PErr data
       end)
  | _ => Some (PErr data)
  end.

(** The [for l in &lines[1..]] loop of [parse_pan_desc], filling the
    [HashMap<&str, &str>] (a later key overwrites an earlier one). *)
Fixpoint pan_desc_fields (ls : list string) (m : gmap string string)
  : result string (gmap string string) :=
  match ls with
  | [] => Ok m
  | l :: ls' =>
      match map Str.trim (Str.split (Str.is_char ":") l) with
      | [k; v] => pan_desc_fields ls' (<[k := v]> m)
      | _ => Err (String.append "Malformed line in EPANDESC: " l)
      end
  end.

Definition parse_pan_desc (data : string) : ParseResult WiSunEvent :=
  match Str.split (Str.is_char "010"%char) data with
  | [_; l1; l2; l3; l4; l5; l6] =>
      match pan_desc_fields [l1; l2; l3; l4; l5; l6] ∅ with
      | Err e => PErr e
      | Ok pan_data =>
          match pan_data !! "Channel" with
          | None => PErr "failed to get channel id."
          | Some c =>
          match Str.from_str_radix_16 8 c with
          | None => PErr "failed to parse channel"
          | Some ch =>
          match pan_data !! "Pan ID" with
          | None => PErr "failed to get pan id."
          | Some pi =>
          match Str.from_str_radix_16 16 pi with
          | None => PErr "failed to parse pan id"
          | Some pid =>
          match pan_data !! "Addr" with
          | None => PErr "failed to get addr."
          | Some a =>
          match Str.hex_decode a with
          | None => PErr "failed to parse addr"
          | Some bytes =>
              if (length bytes =? 8)%nat then POk (PanDesc (mkPanDescBody ch pid bytes))
              else PErr (String.append "malformed addr: " a)
          end end end end end end
      end
  | _ => PMore
  end.

(** Modelled from the spec: the [EVER] arm of [WiSunEvent::parse] and the
    [Version] variant, which src/src/parser/event.rs lacks although
    [WiSunClient::get_version] and its tests use them ("Starts with
    [EVER ] -> Ok(Event(Version(suffix)))"). *)
Definition parse_version (data : string) : option (ParseResult WiSunEvent) :=
  match Str.strip_prefix "EVER " data with
  | Some v => Some (POk (Version v))
  | None => None
  end.

Definition is_space_or_lf (c : Ascii.ascii) : bool :=
  Ascii.eqb c " " || Ascii.eqb c "010".

Definition WiSunEvent_parse (data : string) : Panicking (ParseResult WiSunEvent) :=
  if (String.length data =? 0)%nat then Some PEmpty
  else match parse_version data with
  | Some r => Some r
  | None =>
      let parts := map Str.trim (Str.split is_space_or_lf (Str.trim data)) in
      match parts with
      | [] => Some (PErr (String.append "Malformed event line: " data))
      | p0 :: _ =>
          if String.eqb p0 "EVENT" then parse_event data parts
          else if String.eqb p0 "ERXUDP" then parse_rx_udp data parts
          else if String.eqb p0 "EPANDESC" then Some (parse_pan_desc data)
          else Some (PErr (String.append "Unknown event name. line: " data))
      end
  end.

(** src/parser/messages.rs *)
Inductive SerialMessage :=
| SOk
| SFail : string -> SerialMessage
| SEvent : WiSunEvent -> SerialMessage.

Definition SerialMessage_parse (data : string) : Panicking (ParseResult SerialMessage) :=
  if String.eqb data "OK" then Some (POk SOk)
  else match Str.strip_prefix "FAIL " data with
  | Some f => Some (POk (SFail (Str.trim f)))
  | None =>
      r ← WiSunEvent_parse data;
      Some (match r with
            | POk ev => POk (SEvent ev)
            | PErr _ => PErr data
            | PMore => PMore
            | PEmpty => PEmpty
            end)
  end.

(** src/parser/parser.rs *)
Record WiSunModuleParser := mkParser { pending_message : option string }.

Definition WiSunModuleParser_new : WiSunModuleParser := mkParser None.

Definition add_line (self : WiSunModuleParser) (line : string)
  : Panicking (ParseResult SerialMessage * WiSunModuleParser) :=
  if negb (bool_decide (is_Some (pending_message self))) && (String.length line =? 0)%nat
  then Some (PEmpty, self)
  else
    let all_line := match pending_message self with
                    | Some l => String.append l (String "010"%char line)
                    | None => line
                    end in
    r ← SerialMessage_parse all_line;
    Some (match r with
          | PMore => (PMore, mkParser (Some all_line))
          | r => (r, mkParser None)
          end).

End Parser.

(** ** src/serial and src/wisun_module *)
Module Client.
Import Echonet Parser.

(** [std::io::ErrorKind], the kinds that matter here. *)
Inductive IoErrorKind := TimedOut | BrokenPipe | NotConnected | Interrupted | OtherKind.

Definition IoErrorKind_eqb (a b : IoErrorKind) : bool :=
  match a, b with
  | TimedOut, TimedOut | BrokenPipe, BrokenPipe | NotConnected, NotConnected
  | Interrupted, Interrupted | OtherKind, OtherKind => true
  | _, _ => false
  end.

(** src/serial/errors.rs *)
Inductive SerialError :=
| NoDevice : string -> SerialError
| InvalidInput : string -> SerialError
| IoError : IoErrorKind -> SerialError
| Utf8Error : SerialError
| UnknownError : string -> SerialError.

(** src/wisun_module/errors.rs *)
Inductive Error :=
| ESerialError : SerialError -> Error
| CommandError : string -> Error
| ScanError : string -> Error
| PacketParseError : Echonet.Error -> Error
| TimeoutError : Error.

(** What the client wrote to the serial port: [write_line] or [write_byte]. *)
Inductive Written := WLine : string -> Written | WBytes : list Z -> Written.

(** The client together with its environment: the lines [read_line] will
    return (or the error it fails with), in order; what was written; and
    the successive readings of [SystemTime::now()] and of [rand::random()]. *)
Record Client := mkClient {
  serial_input : list (result SerialError string);
  serial_output : list Written;
  clock : list Z;
  random : list Z;
  serial_parser : WiSunModuleParser;
  message_buffer : list SerialMessage;
  address : option Ipv6Addr;
  property_map : option PropertyMap
}.

(** How a call ends: it returns, returns an [Err] (through [?]), panics, or
    blocks forever in [read_line] once the input is exhausted. *)
Inductive Outcome (A : Type) :=
| Ret : A -> Outcome A
| Throw : Error -> Outcome A
| Panicked : Outcome A
| Blocked : Outcome A.
Arguments Ret {A} _.
Arguments Throw {A} _.
Arguments Panicked {A}.
Arguments Blocked {A}.

Definition M (A : Type) : Type := Client -> Outcome A * Client.

Definition retM {A} (a : A) : M A := fun st => (Ret a, st).

(** Sequencing with [?]: an [Err], a panic or a block ends the call. *)
Definition bindM {A B} (m : M A) (k : A -> M B) : M B := fun st =>
  match m st with
  | (Ret a, st') => k a st'
  | (Throw e, st') => (Throw e, st')
  | (Panicked, st') => (Panicked, st')
  | (Blocked, st') => (Blocked, st')
  end.

Notation "x ⟵ m ; k" := (bindM m (fun x : _ => k))
  (at level 20, m at level 100, k at level 200).

Definition throw {A} (e : Error) : M A := fun st => (Throw e, st).

Definition set_buffer (b : list SerialMessage) (st : Client) : Client :=
  mkClient (serial_input st) (serial_output st) (clock st) (random st)
    (serial_parser st) b (address st) (property_map st).

Definition write (w : Written) : M unit := fun st =>
  (Ret tt, mkClient (serial_input st) (serial_output st ++ [w]) (clock st) (random st)
             (serial_parser st) (message_buffer st) (address st) (property_map st)).

(** [SystemTime::now()] *)
Definition now : M Z := fun st =>
  match clock st with
  | t :: ts => (Ret t, mkClient (serial_input st) (serial_output st) ts (random st)
                        (serial_parser st) (message_buffer st) (address st) (property_map st))
  | [] => (Ret 0, st)
  end.

(** [rand::random::<u16>()] *)
Definition random_u16 : M Z := fun st =>
  match random st with
  | r :: rs => (Ret (r mod 65536),
                mkClient (serial_input st) (serial_output st) (clock st) rs
                  (serial_parser st) (message_buffer st) (address st) (property_map st))
  | [] => (Ret 0, st)
  end.

(** [WiSunClient::get_message]: the [loop] over [read_line] and
    [add_line], by recursion on the remaining input. *)
Fixpoint get_message_go (inp : list (result SerialError string))
    (p : WiSunModuleParser) (buf : list SerialMessage)
  : Outcome bool * (list (result SerialError string) * WiSunModuleParser * list SerialMessage) :=
  match inp with
  | [] => (Blocked, ([], p, buf))
  | Ok line :: inp' =>
      match add_line p line with
      | None => (Panicked, (inp', p, buf))
      | Some (POk m, p') => (Ret true, (inp', p', buf ++ [m]))
      | Some (PEmpty, p') => (Ret false, (inp', p', buf))
      | Some (PMore, p') => get_message_go inp' p' buf
      | Some (PErr _, p') => get_message_go inp' p' buf
      end
  | Err (IoError k) :: inp' => (Throw (ESerialError (IoError k)), (inp', p, buf))
  | Err e :: inp' => (Throw (ESerialError e), (inp', p, buf))
  end.

Definition get_message : M bool := fun st =>
  let '(o, (inp, p, buf)) := get_message_go (serial_input st) (serial_parser st) (message_buffer st) in
  (o, mkClient inp (serial_output st) (clock st) (random st) p buf (address st) (property_map st)).

Definition flush_messages : M unit := fun st => (Ret tt, set_buffer [] st).

(** [WiSunClient::search_on_buffer]: the first index whose message
    satisfies [pred], removed with [Vec::remove]. *)
Definition search_on_buffer (pred : SerialMessage -> bool) : M (option SerialMessage) :=
  fun st =>
    match list_find (fun m => pred m = true) (message_buffer st) with
    | Some (i, m) => (Ret (Some m), set_buffer (delete i (message_buffer st)) st)
    | None => (Ret None, st)
    end.

(** One iteration of the [loop] of [wait_fn], after the timeout check:
    [continue] stands for the next iteration ([sleep] has no observable
    effect). *)
Definition wait_fn_body (pred : SerialMessage -> bool)
    (err_if : SerialMessage -> option string) (continue : M SerialMessage)
  : M SerialMessage := fun st =>
  match get_message st with
  | (Ret true, st') =>
      match last (message_buffer st') with
      | Some m =>
          if pred m then
            (Ret m, set_buffer (delete (length (message_buffer st') - 1)%nat
                                  (message_buffer st')) st')
          else match err_if m with
               | Some e => (Throw (CommandError e), st')
               | None => continue st'
               end
      | None => continue st'
      end
  | (Throw (ESerialError (IoError k)), st') =>
      if IoErrorKind_eqb k TimedOut then continue st' else continue st'
  | (Panicked, st') => (Panicked, st')
  | (Blocked, st') => (Blocked, st')
  | (_, st') => continue st'
  end.

(** The [loop] of [wait_fn] after the buffer search, [fuel] bounding its
    iterations. *)
Fixpoint wait_fn_loop (fuel : nat) (pred : SerialMessage -> bool)
    (err_if : SerialMessage -> option string) (timeout : option Z) (start : Z)
  : M SerialMessage :=
  match fuel with
  | O => fun st => (Blocked, st)
  | S fuel' =>
      let continue := wait_fn_loop fuel' pred err_if timeout start in
      match timeout with
      | Some t => n ⟵ now; if start + t <? n then throw TimeoutError
                                               else wait_fn_body pred err_if continue
      | None => wait_fn_body pred err_if continue
      end
  end.

(** [WiSunClient::wait_fn]; every iteration of its loop reads at least one
    line, so [S (length input)] iterations cover all of the input. *)
Definition wait_fn (pred : SerialMessage -> bool) (err_if : SerialMessage -> option string)
    (timeout : option Z) : M SerialMessage :=
  found ⟵ search_on_buffer pred;
  match found with
  | Some m => retM m
  | None =>
      start ⟵ now;
      fun st => wait_fn_loop (S (length (serial_input st))) pred err_if timeout start st
  end.

Definition err_when_fail (m : SerialMessage) : option string :=
  match m with SFail s => Some s | _ => None end.

Definition is_ok_message (m : SerialMessage) : bool :=
  match m with SOk => true | _ => false end.

Definition wait_ok : M unit :=
  _ ⟵ wait_fn is_ok_message err_when_fail None; retM tt.

Definition write_line (line : string) : M unit := write (WLine line).

(** [format!("{}", n)] and [format!("{:0wX}", n)] *)
Fixpoint fmt_radix_go (fuel : nat) (radix : Z) (n : Z) (acc : string) : string :=
  match fuel with
  | O => acc
  | S fuel' =>
      let d := n mod radix in
      let c := Ascii.ascii_of_nat (Z.to_nat (if d <? 10 then 48 + d else 55 + d)) in
      if n <? radix then String c acc else fmt_radix_go fuel' radix (n / radix) (String c acc)
  end.

Fixpoint pad_zeros (k : nat) (s : string) : string :=
  match k with O => s | S k' => String "0" (pad_zeros k' s) end.

Definition fmt_decimal (n : Z) : string := fmt_radix_go 64 10 n EmptyString.

Definition fmt_hex_upper (width : nat) (n : Z) : string :=
  let s := fmt_radix_go 64 16 n EmptyString in pad_zeros (width - String.length s) s.

Definition as_bytes (s : string) : list Z :=
  map (fun c => Z.of_nat (Ascii.nat_of_ascii c)) (String.list_ascii_of_string s).

Fixpoint join_colon (l : list string) : string :=
  match l with
  | [] => EmptyString
  | [x] => x
  | x :: l' => String.append x (String ":" (join_colon l'))
  end.

Definition ipv6_addr_full_string (ip : Ipv6Addr) : string :=
  join_colon (map (fmt_hex_upper 4) ip).

Definition ECHONET_PORT : Z := 3610.

Definition create_send_udp_base (a : Ipv6Addr) (security_bit : Z) (data_length : nat) : string :=
  String.append "SKSENDTO 1 "
  (String.append (ipv6_addr_full_string a)
  (String.append " "
  (String.append (fmt_hex_upper 4 ECHONET_PORT)
  (String.append " "
  (String.append (fmt_decimal security_bit)
  (String.append " "
  (String.append (fmt_hex_upper 4 (Z.of_nat data_length)) " "))))))).

Definition is_finished_active_scan (m : SerialMessage) : bool :=
  match m with
  | SEvent (Event e) => match kind e with FinishedActiveScan => true | _ => false end
  | _ => false
  end.

Definition is_pan_desc (m : SerialMessage) : bool :=
  match m with SEvent (PanDesc _) => true | _ => false end.

(** One pass of the [for i in 4..10] loop of [WiSunClient::scan]:
    [Some body] returns from [scan]. *)
Definition scan_step (i : Z) : M (option PanDescBody) :=
  _ ⟵ flush_messages;
  _ ⟵ write_line (String.append "SKSCAN 2 FFFFFFFF " (fmt_decimal i));
  _ ⟵ wait_ok;
  _ ⟵ wait_fn is_finished_active_scan err_when_fail None;
  desc ⟵ search_on_buffer is_pan_desc;
  match desc with
  | Some (SEvent (PanDesc body)) => retM (Some body)
  | _ => retM None
  end.

Fixpoint scan_durations (ds : list Z) : M PanDescBody :=
  match ds with
  | [] => throw (ScanError "pan not found")
  | i :: ds' =>
      r ⟵ scan_step i;
      match r with
      | Some body => retM body
      | None => scan_durations ds'
      end
  end.

Definition scan : M PanDescBody := scan_durations (seqZ 4 6).

Definition get_version : M string :=
  _ ⟵ flush_messages;
  _ ⟵ write_line "SKVER";
  _ ⟵ wait_ok;
  msg ⟵ wait_fn (fun m => match m with SEvent (Version _) => true | _ => false end)
           err_when_fail None;
  match msg with
  | SEvent (Version ver) => retM ver
  | _ => throw (CommandError "Unexpected msg")
  end.

Section Properties.
Context {P : Type} `{EchonetProperty P}.
Variable host : Endian.

Definition GetPropertyMap_u8 : Z := prop_into GetPropertyMap.

(** [WiSunClient::check_property_exists]; [props[0]] is only read when
    [props.len() == 1] ([&&] short-circuits). *)
Definition check_property_exists (props : list P) : M unit := fun st =>
  if (length props =? 1)%nat
     && match head props with Some p0 => prop_into p0 =? GetPropertyMap_u8 | None => false end
  then (Ret tt, st)
  else match property_map st with
       | None => (Throw (CommandError "property map is not initialized."), st)
       | Some map =>
           if forallb (PropertyMap_has_property map) props then (Ret tt, st)
           else (Throw (CommandError "Property is not implemented."), st)
       end.

Definition send_udp (d : list Z) : M unit := fun st =>
  match address st with
  | None => (Throw (CommandError "address is not set"), st)
  | Some a =>
      (_ ⟵ flush_messages;
       let data_base := create_send_udp_base a 1 (length d) in
       _ ⟵ write (WBytes (as_bytes data_base ++ d ++ as_bytes (String "013" (String "010" EmptyString))));
       wait_ok) st
  end.

Definition wait_echonet_packet (pred : EchonetPacket P -> bool) (timeout : Z)
  : M (EchonetPacket P) :=
  msg ⟵ wait_fn (fun m => match m with
                          | SEvent (RxUdp p) =>
                              match EchonetPacket_parse host (udp_data p) with
                              | Ok e => pred e
                              | Err _ => false
                              end
                          | _ => false
                          end) err_when_fail (Some timeout);
  match msg with
  | SEvent (RxUdp p) =>
      match EchonetPacket_parse host (udp_data p) with
      | Ok e => retM e
      | Err e => throw (PacketParseError e)
      end
  | _ => throw (CommandError "Unknown error")
  end.

Definition EchonetObject_eqb (a b : EchonetObject) : bool :=
  match a, b with
  | SmartMeter, SmartMeter | HemsController, HemsController => true
  | _, _ => false
  end.

(** [WiSunClient::get_properties]; the timeout is 20 s (in the unit of
    [clock]: milliseconds). *)
Definition get_properties (props : list P) : M (EchonetPacket P) :=
  _ ⟵ check_property_exists props;
  tid ⟵ random_u16;
  let packet := EchonetPacket_new tid
                  (mkEdata HemsController SmartMeter ReadPropertyRequest
                     (map (fun p => mkProperty p []) props)) in
  _ ⟵ send_udp (EchonetPacket_dump host packet);
  wait_echonet_packet
    (fun p => (transaction_id p =? tid)
              && EchonetObject_eqb (destination_object (data p)) HemsController
              && EchonetObject_eqb (source_object (data p)) SmartMeter)
    20000.

(** [EchonetPacket::get_property]: the first property with that EPC. *)
Definition get_property (packet : EchonetPacket P) (prop : P) : option (Property P) :=
  find (fun ep => prop_into (epc ep) =? prop_into prop) (properties (data packet)).

End Properties.

(** [Property::get_i32] and [Property::get_u32]: exactly four bytes,
    big-endian. *)
Definition get_u32 {P} (pr : Property P) : option Z :=
  match pdata pr with
  | [b0; b1; b2; b3] => Some (Z.shiftl b0 24 + Z.shiftl b1 16 + Z.shiftl b2 8 + b3)
  | _ => None
  end.

Definition get_i32 {P} (pr : Property P) : option Z :=
  u ← get_u32 pr; Some (if u <? 2 ^ 31 then u else u - 2 ^ 32).

Section Readings.
Variable host : Endian.

Definition get_power_consumption : M Z :=
  packet ⟵ get_properties host [InstantaneousElectricPower];
  match get_property packet InstantaneousElectricPower with
  | Some pr => match get_i32 pr with
               | Some v => retM v
               | None => throw (CommandError "malformed property")
               end
  | None => throw (CommandError "unknown error")
  end.

(** The unit table of [get_cumulative_electric_energy]. *)
Definition unit_factor (b : Z) : option QArith_base.Q :=
  if b =? 0x00 then Some (QArith_base.Qmake 1 1)
  else if b =? 0x01 then Some (QArith_base.Qmake 1 10)
  else if b =? 0x02 then Some (QArith_base.Qmake 1 100)
  else if b =? 0x03 then Some (QArith_base.Qmake 1 1000)
  else if b =? 0x04 then Some (QArith_base.Qmake 1 10000)
  else if b =? 0x0A then Some (QArith_base.Qmake 10 1)
  else if b =? 0x0B then Some (QArith_base.Qmake 100 1)
  else if b =? 0x0C then Some (QArith_base.Qmake 1000 1)
  else if b =? 0x0D then Some (QArith_base.Qmake 10000 1)
  else None.

(** [WiSunClient::get_cumulative_electric_energy]; the [f64] product is
    computed exactly, in [Q]. *)
Definition get_cumulative_electric_energy : M QArith_base.Q :=
  props ⟵ get_properties host
            [NormalDirectionCumulativeElectricEnergy; UnitForCumulativeElectricEnergy;
             Coefficient];
  match option_map get_u32 (get_property props NormalDirectionCumulativeElectricEnergy) with
  | None => throw (CommandError "unknown error")
  | Some None => throw (CommandError "malformed property")
  | Some (Some base) =>
      fun st =>
      match get_property props UnitForCumulativeElectricEnergy with
      | None => (Throw (CommandError "unknown error"), st)
      | Some pu =>
          match index (pdata pu) 0 with
          | None => (Panicked, st)
          | Some b =>
              match unit_factor b with
              | None => (Throw (CommandError "unexpected unit"), st)
              | Some u =>
                  (match option_map get_u32 (get_property props Coefficient) with
                   | None => throw (CommandError "unknown error")
                   | Some None => throw (CommandError "malformed property")
                   | Some (Some coefficient) =>
                       retM (QArith_base.Qmult (QArith_base.Qmult (QArith_base.inject_Z base) u)
                               (QArith_base.inject_Z coefficient))
                   end) st
              end
          end
      end
  end.

Definition set_property_map (m : PropertyMap) : M unit := fun st =>
  (Ret tt, mkClient (serial_input st) (serial_output st) (clock st) (random st)
             (serial_parser st) (message_buffer st) (address st) (Some m)).

Definition get_property_map : M unit :=
  packet ⟵ get_properties host [GetPropertyMap];
  match get_property packet GetPropertyMap with
  | Some p => match PropertyMap_parse (pdata p) with
              | Ok m => set_property_map m
              | Err e => throw (PacketParseError e)
              end
  | None => throw (CommandError "property not found")
  end.

End Readings.

(** [Ipv6Addr::from([u8; 16])]: each segment is two bytes, big-endian. *)
Fixpoint ipv6_of_octets (o : list Z) : Ipv6Addr :=
  match o with
  | b0 :: b1 :: o' => (Z.shiftl b0 8 + b1) :: ipv6_of_octets o'
  | _ => []
  end.

(** [WiSunClient::get_ip]; [addr] is a [[u8; 8]], so [addr[i]] is in range
    for [i < 8]. *)
Definition get_ip (a : list Z) : Ipv6Addr :=
  let ip := [0xFE; 0x80; 0; 0; 0; 0; 0; 0; 0; 0; 0; 0; 0; 0; 0; 0] in
  let ip := fold_left (fun ip i => <[(8 + i)%nat := nth i a 0]> ip) (seq 0 8) ip in
  let ip := <[8%nat := Z.lxor (nth 8 ip 0) 2]> ip in
  ipv6_of_octets ip.

(** [format!("{:X}", n)] *)
Definition fmt_hex (n : Z) : string := fmt_hex_upper 0 n.

Definition ensure_echoback_off : M unit :=
  _ ⟵ flush_messages;
  _ ⟵ write_line "SKSREG SFE 0";
  wait_ok.

(** [password.len()] counts bytes: one per character of an ASCII string. *)
Definition set_password (password : string) : M unit :=
  _ ⟵ flush_messages;
  _ ⟵ write_line (String.append "SKSETPWD "
                    (String.append (fmt_hex (Z.of_nat (String.length password)))
                       (String.append " " password)));
  wait_ok.

Definition set_bid (bid : string) : M unit :=
  _ ⟵ flush_messages;
  _ ⟵ write_line (String.append "SKSETRBID " bid);
  wait_ok.

Definition set_register (reg value : string) : M unit :=
  _ ⟵ flush_messages;
  _ ⟵ write_line (String.append "SKSREG " (String.append reg (String.append " " value)));
  wait_ok.

Definition is_established_pana (m : SerialMessage) : bool :=
  match m with
  | SEvent (Event e) => match kind e with EstablishedPanaConnection => true | _ => false end
  | _ => false
  end.

Definition join_err_if (m : SerialMessage) : option string :=
  match m with
  | SFail s => Some s
  | SEvent (Event e) =>
      match kind e with
      | ErrorOnPanaConnection => Some "failed to connect to pana"
      | _ => None
      end
  | _ => None
  end.

Definition join (a : Ipv6Addr) : M unit :=
  _ ⟵ write_line (String.append "SKJOIN " (ipv6_addr_full_string a));
  _ ⟵ wait_ok;
  _ ⟵ wait_fn is_established_pana join_err_if None;
  retM tt.

(** [self.address = Some(ip)] *)
Definition set_address (a : Ipv6Addr) : M unit := fun st =>
  (Ret tt, mkClient (serial_input st) (serial_output st) (clock st) (random st)
             (serial_parser st) (message_buffer st) (Some a) (property_map st)).

Definition connect (host : Endian) (bid password : string) : M unit :=
  _ ⟵ set_password password;
  _ ⟵ set_bid bid;
  pan ⟵ scan;
  _ ⟵ set_register "S2" (fmt_hex (channel pan));
  _ ⟵ set_register "S3" (fmt_hex (pan_id pan));
  let ip := get_ip (addr pan) in
  _ ⟵ join ip;
  _ ⟵ set_address ip;
  _ ⟵ get_property_map host;
  retM tt.

End Client.

(** ** src/serial: the line reader *)
Module Serial.
Import Parser Client.

(** src/serial/buffer.rs *)
Inductive BufError := BIoError : IoErrorKind -> BufError | DataLeftError.

(** [impl From<BufError> for SerialError] *)
Definition from_buf_error (e : BufError) : SerialError :=
  match e with
  | BIoError k => IoError k
  | DataLeftError => UnknownError "this buffer has data left"
  end.

(** [Buffer]; its [end] field is [end_]. *)
Record Buffer := mkBuffer { data : list Z; pointer : nat; end_ : nat }.

Definition Buffer_new (buf_size : nat) : Buffer := mkBuffer (repeat 0 buf_size) 0 0.

Definition has_left (b : Buffer) : bool := (pointer b <? end_ b)%nat.

(** What the reader answers to successive [read] calls, as the test mock
    [MockReadWrite] does: the bytes it copies into the front of the
    buffer, or an I/O error.  Once the answers are used up it returns
    [Ok(0)]. *)
Abbreviation Reader := (list (result IoErrorKind (list Z))).

(** [Buffer::fill_buf]; the mock's copy [buf[i] = data[i]] panics when the
    answer is longer than the buffer. *)
Definition fill_buf (b : Buffer) (r : Reader)
  : Panicking (result BufError nat * Buffer * Reader) :=
  if has_left b then Some (Err DataLeftError, b, r)
  else match r with
       | [] => Some (Ok 0%nat, mkBuffer (data b) 0 0, [])
       | Err k :: r' => Some (Err (BIoError k), b, r')
       | Ok chunk :: r' =>
           if (length chunk <=? length (data b))%nat
           then Some (Ok (length chunk),
                      mkBuffer (chunk ++ drop (length chunk) (data b)) 0 (length chunk), r')
           else None
       end.

(** The [for i in self.pointer..self.end] search of [read_to_lf]:
    [data[i]] panics out of range. *)
Fixpoint find_lf (d : list Z) (i : nat) (count : nat) : Panicking (option nat) :=
  match count with
  | O => Some None
  | S count' =>
      x ← d !! i;
      if x =? 10 then Some (Some i) else find_lf d (S i) count'
  end.

(** [data[a..b]] *)
Definition slice (d : list Z) (a b : nat) : Panicking (list Z) :=
  if (a <=? b)%nat && (b <=? length d)%nat then Some (take (b - a) (drop a d)) else None.

(** [Buffer::read_to_lf] *)
Definition read_to_lf (b : Buffer) : Panicking (option (list Z) * Buffer) :=
  if negb (has_left b) then Some (None, b)
  else
    found ← find_lf (data b) (pointer b) (end_ b - pointer b);
    match found with
    | Some i =>
        s ← slice (data b) (pointer b) (S i);
        Some (Some s, mkBuffer (data b) (S i) (end_ b))
    | None => Some (None, b)
    end.

(** [Buffer::get_remain] *)
Definition get_remain (b : Buffer) : Panicking (option (list Z) * Buffer) :=
  if negb (has_left b) then Some (None, b)
  else
    s ← slice (data b) (pointer b) (end_ b);
    Some (Some s, mkBuffer (data b) (end_ b) (end_ b)).

(** src/serial/port.rs, [trim_line_end]: the [for i in (0..len).rev()]
    loop finds [end], one past the last byte that is neither [\r] nor
    [\n] (0 if there is none). *)
Fixpoint last_end (t : list Z) (i : nat) : nat :=
  match i with
  | O => O
  | S i' => match t !! i' with
            | Some x => if (x =? 13) || (x =? 10) then last_end t i' else S i'
            | None => last_end t i'
            end
  end.

Definition trim_line_end (t : list Z) : list Z := take (last_end t (length t)) t.

(** [String::from_utf8] succeeds exactly on well-formed UTF-8 (the byte
    sequences of Table 3-7 of the Unicode standard). *)
Definition in_range (lo hi x : Z) : bool := (lo <=? x) && (x <=? hi).

Fixpoint utf8_valid (t : list Z) : bool :=
  match t with
  | [] => true
  | b0 :: t1 =>
      if in_range 0x00 0x7F b0 then utf8_valid t1
      else match t1 with
      | b1 :: t2 =>
          if in_range 0xC2 0xDF b0 then in_range 0x80 0xBF b1 && utf8_valid t2
          else match t2 with
          | b2 :: t3 =>
              let tail3 := in_range 0x80 0xBF b2 in
              if b0 =? 0xE0 then in_range 0xA0 0xBF b1 && tail3 && utf8_valid t3
              else if in_range 0xE1 0xEC b0 || in_range 0xEE 0xEF b0
              then in_range 0x80 0xBF b1 && tail3 && utf8_valid t3
              else if b0 =? 0xED then in_range 0x80 0x9F b1 && tail3 && utf8_valid t3
              else match t3 with
              | b3 :: t4 =>
                  let tail4 := tail3 && in_range 0x80 0xBF b3 in
                  if b0 =? 0xF0 then in_range 0x90 0xBF b1 && tail4 && utf8_valid t4
                  else if in_range 0xF1 0xF3 b0 then in_range 0x80 0xBF b1 && tail4 && utf8_valid t4
                  else if b0 =? 0xF4 then in_range 0x80 0x8F b1 && tail4 && utf8_valid t4
                  else false
              | [] => false
              end
          | [] => false
          end
      | [] => false
      end
  end.

(** [ConnectionImpl]: the reader and the read buffer. *)
Record Connection := mkConnection { connection : Reader; read_buffer : Buffer }.

(** How the [loop] of [read_line] ends: it returns, panics, or is still
    looping when the fuel runs out (with the mock, for ever once its
    answers are used up). *)
Inductive Step (A : Type) := Returned : A -> Step A | Panics : Step A | Loops : Step A.
Arguments Returned {A} _.
Arguments Panics {A}.
Arguments Loops {A}.

(** The line [read_line] returns for the bytes [txt] it collected: the
    string is given by its UTF-8 bytes. *)
Definition line_result (txt : list Z) : result SerialError (list Z) :=
  if utf8_valid (trim_line_end txt) then Ok (trim_line_end txt) else Err Utf8Error.

(** The [loop] of [ConnectionImpl::read_line] ([fuel] bounds its
    iterations). *)
Fixpoint read_line_loop (fuel : nat) (c : Connection) (txt : list Z)
  : Step (result SerialError (list Z)) * Connection :=
  match fuel with
  | O => (Loops, c)
  | S fuel' =>
      let body (c : Connection) : Step (result SerialError (list Z)) * Connection :=
        match read_to_lf (read_buffer c) with
        | None => (Panics, c)
        | Some (Some bin, b) =>
            (Returned (line_result (txt ++ bin)), mkConnection (connection c) b)
        | Some (None, b) =>
            match get_remain b with
            | None => (Panics, c)
            | Some (Some rest, b') =>
                read_line_loop fuel' (mkConnection (connection c) b') (txt ++ rest)
            | Some (None, b') => read_line_loop fuel' (mkConnection (connection c) b') txt
            end
        end in
      if negb (has_left (read_buffer c)) then
        match fill_buf (read_buffer c) (connection c) with
        | None => (Panics, c)
        | Some (Err e, b, r) => (Returned (Err (from_buf_error e)), mkConnection r b)
        | Some (Ok O, b, r) => read_line_loop fuel' (mkConnection r b) txt
        | Some (Ok _, b, r) => body (mkConnection r b)
        end
      else body c
  end.

(** [ConnectionImpl::read_line]: every two iterations of the loop read at
    least one answer of the reader, so this fuel covers all of them. *)
Definition read_line (c : Connection) : Step (result SerialError (list Z)) * Connection :=
  read_line_loop (2 * length (connection c) + 2) c [].

(** Notions for stating what the buffer and the loop keep. *)
Definition Buffer_ok (b : Buffer) : bool :=
  (pointer b <=? end_ b)%nat && (end_ b <=? length (data b))%nat.

(** The unread bytes [data[pointer..end]]. *)
Definition left_bytes (b : Buffer) : list Z := take (end_ b - pointer b) (drop (pointer b) (data b)).

Definition has_lf (t : list Z) : bool := existsb (Z.eqb 10) t.

Definition chunks_fit (size : nat) (cs : list (list Z)) : bool :=
  forallb (fun ch => length ch <=? size)%nat cs.

End Serial.

(** * Properties *)

Module EchonetFacts.
Import Echonet.

Definition hems_to_meter_edata : Edata EchonetSmartMeterProperty :=
  mkEdata SmartMeter HemsController ReadPropertyResponse
    [mkProperty InstantaneousElectricPower [0x00; 0x00; 0x02; 0x0E];
     mkProperty InstantaneousElectricPower [0x00; 0x00; 0x02; 0x0F]].

Definition scenario2_bytes : list Z :=
  [0x10; 0x81; 0x00; 0x01; 0x02; 0x88; 0x01; 0x05; 0xFF; 0x01; 0x72; 0x02;
   0xE7; 0x04; 0x00; 0x00; 0x02; 0x0E; 0xE7; 0x04; 0x00; 0x00; 0x02; 0x0F].

Example scenario2_parse_big :
  EchonetPacket_parse BigEndian scenario2_bytes
  = Ok (EchonetPacket_new 1 hems_to_meter_edata).
Proof. reflexivity. Qed.

Example scenario2_dump_big :
  EchonetPacket_dump BigEndian (EchonetPacket_new 1 hems_to_meter_edata)
  = scenario2_bytes.
Proof. reflexivity. Qed.


Section RoundTrip.
Context {P : Type} `{EchonetProperty P}.

Definition property_fits (pr : Property P) : Prop := (length (pdata pr) < 256)%nat.

Lemma u16_ne_bytes_roundtrip host v :
  0 <= v < 65536 ->
  match u16_to_ne_bytes host v with
  | [b0; b1] => u16_from_ne_bytes host b0 b1 = v
  | _ => False
  end.
Proof.
  intros Hv. unfold u16_to_ne_bytes, u16_from_ne_bytes.
  assert (Hhi : Z.land (Z.shiftr v 8) 255 = v / 256).
  { change 255 with (Z.ones 8). rewrite Z.land_ones by lia.
    rewrite Z.shiftr_div_pow2 by lia. apply Z.mod_small.
    change (2 ^ 8) with 256. split; [apply Z.div_pos | apply Z.div_lt_upper_bound]; lia. }
  assert (Hlo : Z.land v 255 = v mod 256).
  { change 255 with (Z.ones 8). rewrite Z.land_ones by lia. reflexivity. }
  destruct host; cbv zeta; rewrite Hhi, Hlo, Z.shiftl_mul_pow2 by lia;
    change (2 ^ 8) with 256; pose proof (Z.div_mod v 256); lia.
Qed.

Lemma Property_parse_dump (pr : Property P) rest :
  property_fits pr ->
  Property_parse (Property_dump pr ++ rest)
  = Ok (2 + length (pdata pr), pr)%nat.
Proof.
  unfold property_fits, Property_dump. destruct pr as [e d]; simpl. intros Hd.
  rewrite prop_try_from_into.
  rewrite Z.mod_small by lia. rewrite Nat2Z.id.
  destruct (Nat.ltb_spec (S (S (length (d ++ rest)))) (S (S (length d)))) as [Hl|Hl].
  - rewrite length_app in Hl. lia.
  - rewrite firstn_app, firstn_all, Nat.sub_diag. simpl. rewrite app_nil_r. reflexivity.
Qed.

Lemma Edata_parse_properties_dump (ps : list (Property P)) (pre : list Z) :
  Forall property_fits ps ->
  Edata_parse_properties (length ps) (pre ++ concat (map Property_dump ps)) (length pre)
  = Ok ps.
Proof.
  revert pre. induction ps as [|pr ps IH]; intros pre Hps; [reflexivity|].
  inversion Hps as [|? ? Hpr Hrest]; subst.
  change (concat (map Property_dump (pr :: ps)))
    with (Property_dump pr ++ concat (map Property_dump ps)).
  change (length (pr :: ps)) with (S (length ps)).
  cbn [Edata_parse_properties].
  assert (Hlt : (length pre < length (pre ++ Property_dump pr ++ concat (map Property_dump ps)))%nat)
    by (rewrite length_app; unfold Property_dump; simpl; lia).
  rewrite (proj2 (Nat.leb_gt _ _) Hlt).
  rewrite drop_app_length, (Property_parse_dump pr _ Hpr).
  cbn [mbind result_bind].
  specialize (IH (pre ++ Property_dump pr) Hrest).
  rewrite <- app_assoc in IH.
  replace (length (pre ++ Property_dump pr))
    with (length pre + (2 + length (pdata pr)))%nat in IH
    by (rewrite length_app; unfold Property_dump; simpl; lia).
  rewrite IH. reflexivity.
Qed.

Lemma EchonetObject_try_from_into o :
  match EchonetObject_into o with
  | [v0; v1; v2] => EchonetObject_try_from v0 v1 v2 = Ok o
  | _ => False
  end.
Proof. destruct o; reflexivity. Qed.

Lemma EchonetService_try_from_as_u8 s :
  EchonetService_try_from (EchonetService_as_u8 s) = Ok s.
Proof. destruct s; reflexivity. Qed.

Lemma Edata_parse_dump (d : Edata P) :
  (length (properties d) < 256)%nat ->
  Forall property_fits (properties d) ->
  Edata_parse (Edata_dump d) = Ok d.
Proof.
  intros Hlen Hps. destruct d as [so dob sv ps]; simpl in *.
  assert (Hop : Z.to_nat (Z.of_nat (length ps) mod 256) = length ps)
    by (rewrite Z.mod_small by lia; apply Nat2Z.id).
  pose proof (EchonetService_try_from_as_u8 sv) as Hsv.
  pose proof (Edata_parse_properties_dump ps
                (EchonetObject_into so ++ EchonetObject_into dob
                 ++ [EchonetService_as_u8 sv; Z.of_nat (length ps) mod 256]) Hps) as Hp.
  unfold Edata_parse, Edata_dump; cbn [source_object destination_object echonet_service properties].
  rewrite <- Hop in Hp at 1.
  destruct so, dob; simpl in Hp |- *; rewrite Hsv; simpl; rewrite Hp; reflexivity.
Qed.

End RoundTrip.


(** C1 (as stated): a property whose data has 256 bytes is dumped with
    [pdc = 256 as u8 = 0], so parsing the dump yields an empty property. *)
Definition long_property_packet : EchonetPacket EchonetSmartMeterProperty :=
  EchonetPacket_new 1
    (mkEdata SmartMeter HemsController ReadPropertyResponse
       [mkProperty InstantaneousElectricPower (repeat 0 256)]).

(** Claim C1, counterexample: [parse(dump(p)) == Ok(p)] fails for the
    packet above; parsing its dump gives the same packet with an empty
    property data. *)
Lemma C1_parse_dump_counterexample :
  EchonetPacket_parse BigEndian (EchonetPacket_dump BigEndian long_property_packet)
  = Ok (EchonetPacket_new 1
          (mkEdata SmartMeter HemsController ReadPropertyResponse
             [mkProperty InstantaneousElectricPower []]))
  /\ EchonetPacket_parse BigEndian (EchonetPacket_dump BigEndian long_property_packet)
     <> Ok long_property_packet.
Proof.
  split; [vm_compute; reflexivity|].
  vm_compute. intros Heq. inversion Heq.
Qed.

(** Claim C1 (amended): for every packet with the header bytes [0x10 0x81]
    (as built by [EchonetPacket::new] and [parse]), a 16-bit transaction id,
    at most 255 properties and at most 255 data bytes per property,
    [parse(dump(p)) == Ok(p)] on any host. *)
Theorem EchonetPacket_parse_dump {P} `{EchonetProperty P} (host : Endian)
    (p : EchonetPacket P) :
  ehd1 p = ECHONET_LITE_EHD1 ->
  ehd2 p = ECHONET_FORMAT_1 ->
  0 <= transaction_id p < 65536 ->
  (length (properties (data p)) < 256)%nat ->
  Forall property_fits (properties (data p)) ->
  EchonetPacket_parse host (EchonetPacket_dump host p) = Ok p.
Proof.
  destruct p as [e1 e2 tid d]; cbn [ehd1 ehd2 transaction_id data].
  intros -> -> Htid Hlen Hps.
  pose proof (u16_ne_bytes_roundtrip host tid Htid) as Ht.
  unfold EchonetPacket_dump, EchonetPacket_parse; cbn [ehd1 ehd2 transaction_id data].
  destruct (u16_to_ne_bytes host tid) as [|t0 [|t1 [|]]]; try contradiction.
  cbn [app]. rewrite (Edata_parse_dump d Hlen Hps). cbn. rewrite Ht. reflexivity.
Qed.

Lemma EchonetPacket_parse_dump_witness :
  ehd1 (EchonetPacket_new 1 hems_to_meter_edata) = ECHONET_LITE_EHD1 /\
  EchonetPacket_parse LittleEndian
    (EchonetPacket_dump LittleEndian (EchonetPacket_new 1 hems_to_meter_edata))
  = Ok (EchonetPacket_new 1 hems_to_meter_edata).
Proof.
  split; [reflexivity|].
  apply EchonetPacket_parse_dump; cbn; [reflexivity | reflexivity | lia | lia |].
  repeat constructor; unfold property_fits; cbn; lia.
Defined.

(** Claim C2, counterexample: on a little-endian host the TID 1 is dumped
    as bytes [01 00] (byte 2 is the low byte), and the wire bytes [00 01]
    parse back as TID [0x0100]. *)
Lemma C2_tid_big_endian_counterexample :
  ~ (EchonetPacket_dump LittleEndian (EchonetPacket_new 1 hems_to_meter_edata) !! 2%nat
       = Some (Z.shiftr 1 8)
     /\ EchonetPacket_dump LittleEndian (EchonetPacket_new 1 hems_to_meter_edata) !! 3%nat
       = Some (Z.land 1 255))
  /\ EchonetPacket_parse LittleEndian scenario2_bytes
     = Ok (EchonetPacket_new 0x0100 hems_to_meter_edata).
Proof.
  split; [vm_compute; intros [H _]; discriminate | reflexivity].
Qed.

(** Claim C2 (amended): [dump] writes the 16-bit TID in the host's byte
    order (high byte first on a big-endian host, low byte first on a
    little-endian one) and [parse] reads bytes 2 and 3 back in that same
    host order; the TID is big-endian on the wire only on a big-endian
    host. *)
Theorem EchonetPacket_tid_host_order {P} `{EchonetProperty P} (host : Endian)
    (p : EchonetPacket P) :
  0 <= transaction_id p < 65536 ->
  EchonetPacket_dump host p !! 2%nat
    = Some (match host with
            | BigEndian => transaction_id p / 256
            | LittleEndian => transaction_id p mod 256 end) /\
  EchonetPacket_dump host p !! 3%nat
    = Some (match host with
            | BigEndian => transaction_id p mod 256
            | LittleEndian => transaction_id p / 256 end) /\
  (forall (bin : list Z) (q : EchonetPacket P),
      EchonetPacket_parse host bin = Ok q ->
      exists e1 e2 b0 b1 rest,
        bin = e1 :: e2 :: b0 :: b1 :: rest /\
        transaction_id q = match host with
                           | BigEndian => 256 * b0 + b1
                           | LittleEndian => 256 * b1 + b0 end).
Proof.
  intros Ht.
  assert (Hhi : Z.land (Z.shiftr (transaction_id p) 8) 255 = transaction_id p / 256).
  { change 255 with (Z.ones 8). rewrite Z.land_ones, Z.shiftr_div_pow2 by lia.
    apply Z.mod_small. change (2 ^ 8) with 256.
    split; [apply Z.div_pos | apply Z.div_lt_upper_bound]; lia. }
  assert (Hlo : Z.land (transaction_id p) 255 = transaction_id p mod 256).
  { change 255 with (Z.ones 8). rewrite Z.land_ones by lia. reflexivity. }
  split; [|split].
  - unfold EchonetPacket_dump, u16_to_ne_bytes. destruct host; cbn; congruence.
  - unfold EchonetPacket_dump, u16_to_ne_bytes. destruct host; cbn; congruence.
  - intros bin q Hq.
    destruct bin as [|e1 [|e2 [|b0 [|b1 rest]]]]; try discriminate.
    exists e1, e2, b0, b1, rest. split; [reflexivity|].
    unfold EchonetPacket_parse in Hq.
    destruct (negb (e1 =? ECHONET_LITE_EHD1)); [discriminate|].
    destruct (negb (e2 =? ECHONET_FORMAT_1)); [discriminate|].
    destruct (Edata_parse rest); cbn in Hq; [|discriminate].
    injection Hq as <-. cbn. unfold u16_from_ne_bytes.
    destruct host; rewrite Z.shiftl_mul_pow2 by lia; change (2 ^ 8) with 256; lia.
Qed.

Lemma EchonetPacket_tid_host_order_witness :
  0 <= transaction_id (EchonetPacket_new 1 hems_to_meter_edata) < 65536 /\
  EchonetPacket_dump LittleEndian (EchonetPacket_new 1 hems_to_meter_edata) !! 2%nat
    = Some 1.
Proof.
  split; [cbn; lia|].
  destruct (EchonetPacket_tid_host_order LittleEndian
              (EchonetPacket_new 1 hems_to_meter_edata)) as [H2 _]; [cbn; lia|].
  exact H2.
Defined.

End EchonetFacts.

Module PropertyMapFacts.
Import Echonet.

(** Membership in a set built by a left fold whose step only adds. *)
Lemma elem_of_fold_left_adding {A : Type} (g : gset Z -> A -> gset Z)
    (Q : A -> Z -> Prop) (l : list A) (s : gset Z) (x : Z) :
  (forall acc a, a ∈ l -> x ∈ g acc a <-> x ∈ acc \/ Q a x) ->
  x ∈ fold_left g l s <-> x ∈ s \/ exists a, a ∈ l /\ Q a x.
Proof.
  revert s. induction l as [|a l IH]; intros s Hg; simpl.
  - split; [tauto|]. intros [?|(a & Ha & _)]; [done|]. set_solver.
  - rewrite IH by (intros acc b Hb; apply Hg; set_solver).
    rewrite Hg by set_solver. split.
    + intros [[?|?]|(b & ? & ?)]; [tauto| right; exists a; set_solver | right; exists b; set_solver].
    + intros [?|(b & Hb & ?)]; [tauto|].
      apply elem_of_cons in Hb as [->|Hb]; [tauto|]. right. exists b. done.
Qed.

Lemma land_pow2_zero (b j : Z) :
  0 <= j -> Z.land b (2 ^ j) = 0 <-> Z.testbit b j = false.
Proof.
  intros Hj. split.
  - intros H0. pose proof (f_equal (fun z => Z.testbit z j) H0) as Hb. simpl in Hb.
    rewrite Z.land_spec, Z.pow2_bits_true, andb_true_r, Z.testbit_0_l in Hb by lia. exact Hb.
  - intros Hb. apply Z.bits_inj_0. intros k.
    rewrite Z.land_spec. destruct (Z.eq_dec k j) as [->|Hk]; [rewrite Hb; done|].
    destruct (Z.neg_nonneg_cases k) as [Hneg|Hnn];
      [rewrite (Z.testbit_neg_r (2 ^ j)) by lia; apply andb_false_r|].
    rewrite Z.pow2_bits_false by lia. apply andb_false_r.
Qed.

Lemma bitmap_masks : Forall (fun j => Z.land (Z.shiftl 1 j) 255 = 2 ^ j) (seqZ 0 8).
Proof. vm_compute. repeat constructor. Qed.

Lemma bitmap_epcs :
  Forall (fun i => Forall (fun j => i + Z.land (Z.shiftl (8 + j) 4) 255
                                   = Z.lor (Z.shiftl (8 + j) 4) i) (seqZ 0 8)) (seqZ 0 16).
Proof. vm_compute. repeat constructor. Qed.

Lemma elem_of_seqZ_range (a k x : Z) : x ∈ seqZ a k <-> a <= x < a + k.
Proof. rewrite elem_of_seqZ. lia. Qed.

(** What the two loops compute: bit [j] of bitmap byte [i] stands for the
    EPC [((8 + j) << 4) | i]. *)
Lemma elem_of_PropertyMap_decode (map : list Z) (e : Z) :
  e ∈ PropertyMap_decode map <->
  exists i j, 0 <= i < 16 /\ 0 <= j < 8 /\
    Z.testbit (nth (Z.to_nat i) map 0) j = true /\ e = Z.lor (Z.shiftl (8 + j) 4) i.
Proof.
  unfold PropertyMap_decode.
  rewrite (elem_of_fold_left_adding _
             (fun i e => exists j, 0 <= j < 8 /\
                Z.testbit (nth (Z.to_nat i) map 0) j = true /\
                e = Z.lor (Z.shiftl (8 + j) 4) i)).
  - split.
    + intros [Hin|(i & Hi & j & Hj & Hb & ->)]; [set_solver|].
      apply elem_of_seqZ_range in Hi. exists i, j. repeat split; lia || done.
    + intros (i & j & Hi & Hj & Hb & ->). right. exists i.
      split; [apply elem_of_seqZ_range; lia|]. exists j. done.
  - intros acc i Hi. cbv zeta.
    destruct (Z.eqb_spec (nth (Z.to_nat i) map 0) 0) as [H0|H0].
    + rewrite H0. split; [tauto|]. intros [?|(j & Hj & Hb & _)]; [done|].
      rewrite Z.testbit_0_l in Hb. discriminate.
    + unfold PropertyMap_decode_byte.
      rewrite (elem_of_fold_left_adding _
                 (fun j e => 0 <= j < 8 /\ Z.testbit (nth (Z.to_nat i) map 0) j = true /\
                    e = Z.lor (Z.shiftl (8 + j) 4) i)).
      * split; intros [?|(j & ? & ?)]; try tauto; right; exists j; try done.
        split; [apply elem_of_seqZ_range; lia | done].
      * intros acc' j Hj.
        pose proof (proj1 (Forall_forall _ _) bitmap_masks j Hj) as Hmask.
        pose proof (proj1 (Forall_forall _ _)
                      (proj1 (Forall_forall _ _) bitmap_epcs i Hi) j Hj) as Hepc.
        cbv beta in Hmask, Hepc.
        apply elem_of_seqZ_range in Hj.
        rewrite Hmask, Hepc.
        destruct (Z.eqb_spec (Z.land (nth (Z.to_nat i) map 0) (2 ^ j)) 0) as [Hz|Hz].
        -- apply land_pow2_zero in Hz; [|lia]. split; [tauto|].
           intros [?|(_ & Hb & _)]; [done|]. congruence.
        -- assert (Hb : Z.testbit (nth (Z.to_nat i) map 0) j = true).
           { destruct (Z.testbit (nth (Z.to_nat i) map 0) j) eqn:E; [done|].
             apply land_pow2_zero in E; [|lia]. congruence. }
           rewrite elem_of_union, elem_of_singleton. split.
           ++ intros [->|?]; [right; repeat split; lia || done | tauto].
           ++ intros [?|(_ & _ & ->)]; [tauto | left; done].
Qed.

Definition property_map_long_example : list Z :=
  [0x16; 0x0B; 0x01; 0x01; 0x09; 0x00; 0x00; 0x00; 0x01; 0x01; 0x01;
   0x03; 0x03; 0x03; 0x03; 0x03; 0x03].

Definition property_map_long_example_epcs : list Z :=
  [0x80; 0x81; 0x82; 0x83; 0x87; 0x88; 0x89; 0x8A; 0x8B; 0x8C; 0x8D;
   0x8E; 0x8F; 0x90; 0x9A; 0x9B; 0x9C; 0x9D; 0x9E; 0x9F; 0xB0; 0xB3].

(** Claim C5: for a long-form descriptor (first byte [n >= 16]), with [S]
    the set of EPCs [((8 + j) << 4) | i] for the set bits [j] of bitmap
    bytes [i], [PropertyMap::parse] succeeds exactly when the input has 17
    bytes and [|S| = n], and then yields [S]; otherwise it fails. The
    17-byte example of the specification decodes to its 22 EPCs. *)
Theorem PropertyMap_parse_long_form (n : Z) (rest : list Z) :
  16 <= n ->
  (exists S : gset Z,
     (forall e, e ∈ S <-> exists i j, 0 <= i < 16 /\ 0 <= j < 8 /\
        Z.testbit (nth (Z.to_nat i) rest 0) j = true /\
        e = Z.lor (Z.shiftl (8 + j) 4) i) /\
     (forall m, PropertyMap_parse (n :: rest) = Ok m <->
        length (n :: rest) = 17%nat /\ size S = Z.to_nat n /\ pm_properties m = S) /\
     ((exists err, PropertyMap_parse (n :: rest) = Err err) <->
        length (n :: rest) <> 17%nat \/ size S <> Z.to_nat n)) /\
  PropertyMap_parse property_map_long_example
    = Ok (mkPropertyMap (list_to_set property_map_long_example_epcs)) /\
  size (list_to_set property_map_long_example_epcs : gset Z) = 22%nat.
Proof.
  intros Hn. split; [|split; vm_compute; reflexivity].
  exists (PropertyMap_decode rest). split; [apply elem_of_PropertyMap_decode|].
  unfold PropertyMap_parse.
  destruct (Z.ltb_spec n 16) as [Hlt|_]; [lia|].
  destruct (Nat.eqb_spec (length (n :: rest)) 17) as [Hl|Hl]; cbn [negb].
  - destruct (Nat.eqb_spec (size (PropertyMap_decode rest)) (Z.to_nat n)) as [Hs|Hs];
      cbn [negb]; split.
    + intros m. split; [intros Hm; injection Hm as <-; done|].
      intros (_ & _ & Hm). destruct m; cbn in Hm; subst; reflexivity.
    + split; [intros [err Herr]; discriminate | intros [?|?]; contradiction].
    + intros m. split; [discriminate | intros (_ & ? & _); contradiction].
    + split; [intros _; right; exact Hs | intros _; eexists; reflexivity].
  - split.
    + intros m. split; [discriminate | intros (? & _); contradiction].
    + split; [intros _; left; exact Hl | intros _; eexists; reflexivity].
Qed.

Lemma PropertyMap_parse_long_form_witness :
  16 <= 0x16 /\ size (list_to_set property_map_long_example_epcs : gset Z) = 22%nat.
Proof.
  split; [lia|].
  destruct (PropertyMap_parse_long_form 0x16 (tail property_map_long_example))
    as [_ [_ H]]; [lia|]. exact H.
Defined.

(** Claim C4 (code bug): the short form ([n < 16]) never compares [n] with
    the number of bytes that follow: a count of 2 followed by one EPC, and a
    count of 1 followed by three, are both accepted. *)
Theorem PropertyMap_parse_short_form_unchecked :
  PropertyMap_parse [0x02; 0x80] = Ok (mkPropertyMap {[0x80]}) /\
  PropertyMap_parse [0x01; 0x80; 0x81; 0x82]
    = Ok (mkPropertyMap (list_to_set [0x80; 0x81; 0x82])).
Proof. split; vm_compute; reflexivity. Qed.

End PropertyMapFacts.

Module ParserFacts.
Import Parser.

Definition ip_cdef : Ipv6Addr := [0xFE80; 0; 0; 0; 0x1234; 0x5678; 0x90AB; 0xCDEF].

Example parse_udp_sent :
  WiSunEvent_parse "EVENT 21 FE80:0000:0000:0000:1234:5678:90AB:CDEF 02"
  = Some (POk (Event (mkEventBody FinishedUdpSend ip_cdef))).
Proof. reflexivity. Qed.

Example parse_rx_udp_scenario :
  WiSunEvent_parse "ERXUDP FE80:0000:0000:0000:1234:5678:1234:5678 FE80:0000:0000:0000:1234:5678:90AB:CDEF 0E1A 0E1A C0F9450040213077 1 0012 108100000EF0010EF0017301D50401028801"
  = Some (POk (RxUdp (mkUdpPacket [0xFE80; 0; 0; 0; 0x1234; 0x5678; 0x1234; 0x5678] ip_cdef
                        0x0E1A 0x0E1A
                        [0x10; 0x81; 0x00; 0x00; 0x0E; 0xF0; 0x01; 0x0E; 0xF0; 0x01; 0x73;
                         0x01; 0xD5; 0x04; 0x01; 0x02; 0x88; 0x01]))).
Proof. vm_compute. reflexivity. Qed.

Example add_line_pan_desc :
  (p1 ← add_line WiSunModuleParser_new "EPANDESC";
   p2 ← add_line (p1.2) "  Channel:20";
   p3 ← add_line (p2.2) "  Channel Page:09";
   p4 ← add_line (p3.2) "  Pan ID:3077";
   p5 ← add_line (p4.2) "  Addr:1234567890ABCDEF";
   p6 ← add_line (p5.2) "  LQI:73";
   p7 ← add_line (p6.2) "  PairID:01234567";
   Some [p1.1; p2.1; p3.1; p4.1; p5.1; p6.1; p7.1])
  = Some [PMore; PMore; PMore; PMore; PMore; PMore;
          POk (SEvent (PanDesc (mkPanDescBody 0x20 0x3077
                 [0x12; 0x34; 0x56; 0x78; 0x90; 0xAB; 0xCD; 0xEF])))].
Proof. vm_compute. reflexivity. Qed.

Example add_line_ever :
  add_line WiSunModuleParser_new "EVER 1.2.3"
  = Some (POk (SEvent (Version "1.2.3")), WiSunModuleParser_new).
Proof. reflexivity. Qed.

Example add_line_unknown :
  add_line WiSunModuleParser_new "FOOBAR" = Some (PErr "FOOBAR", WiSunModuleParser_new).
Proof. reflexivity. Qed.

(** Claim C3: with no pending block, the line ["EVER " ++ s] is classified
    as [Ok(Event(Version(s)))] for every string [s], and no block is left
    pending. *)
Theorem add_line_version (s : string) :
  add_line WiSunModuleParser_new (String.append "EVER " s)
  = Some (POk (SEvent (Version s)), WiSunModuleParser_new).
Proof. reflexivity. Qed.

(** Claim C10 (code bug): [parse_event] indexes [parts[1]] and [parts[2]]
    without checking [parts.len()], so the lines ["EVENT"] and ["EVENT 21"]
    make [WiSunEvent::parse], [SerialMessage::parse] and [add_line] panic
    instead of returning a [ParseResult]; [parse_rx_udp] checks its length. *)
Theorem event_line_too_short_panics :
  WiSunEvent_parse "EVENT" = None /\ WiSunEvent_parse "EVENT 21" = None /\
  SerialMessage_parse "EVENT 21" = None /\
  add_line WiSunModuleParser_new "EVENT" = None /\
  add_line WiSunModuleParser_new "EVENT 21" = None /\
  WiSunEvent_parse "ERXUDP 21" = Some (PErr "ERXUDP 21").
Proof. repeat split; reflexivity. Qed.

End ParserFacts.

Module ClientFacts.
Import Echonet Parser Client.

(** A client as [new_client] of the tests builds it, reading [inp]. *)
Definition client_with_input (inp : list (result SerialError string)) : Client :=
  mkClient inp [] [] [] WiSunModuleParser_new [] None None.

Definition set_input (inp : list (result SerialError string)) (st : Client) : Client :=
  mkClient inp (serial_output st) (clock st) (random st) (serial_parser st)
    (message_buffer st) (address st) (property_map st).

Lemma get_message_io_error_kind k rest st :
  get_message (set_input (Err (IoError k) :: rest) st)
  = (Throw (ESerialError (IoError k)), set_input rest st).
Proof. reflexivity. Qed.

Lemma wait_fn_body_io_error_kind pred err_if c k rest st :
  wait_fn_body pred err_if c (set_input (Err (IoError k) :: rest) st)
  = c (set_input rest st).
Proof.
  unfold wait_fn_body. rewrite get_message_io_error_kind.
  destruct (IoErrorKind_eqb k TimedOut); reflexivity.
Qed.

Lemma now_set_input inp st :
  now (set_input inp st) = (fst (now st), set_input inp (snd (now st))).
Proof. destruct st as [? ? c ? ? ? ? ?]. destruct c; reflexivity. Qed.

(** Claim C6 (code bug): [wait_fn] never lets an I/O error of [read_line]
    reach its caller.  An iteration of its loop whose [get_message] fails
    with an [IoError] of any kind, not only [TimedOut], goes on to the next
    iteration with the error line consumed.  So [get_message] reports the broken
    pipe, but [wait_ok] then reads the next line and returns [Ok(())] on a
    following [OK], or retries for ever when nothing follows. *)
Theorem wait_fn_swallows_io_error :
  (forall pred err_if (continue : M SerialMessage) k rest st,
     wait_fn_body pred err_if continue (set_input (Err (IoError k) :: rest) st)
     = continue (set_input rest st)) /\
  get_message (client_with_input [Err (IoError BrokenPipe)])
    = (Throw (ESerialError (IoError BrokenPipe)), client_with_input []) /\
  wait_ok (client_with_input [Err (IoError BrokenPipe); Ok "OK"])
    = (Ret tt, client_with_input []) /\
  wait_ok (client_with_input [Err (IoError BrokenPipe)])
    = (Blocked, client_with_input []).
Proof.
  split; [|repeat split; reflexivity].
  intros. apply wait_fn_body_io_error_kind.
Qed.

(** ** What the client writes *)

Definition keeps_output {A} (m : M A) : Prop :=
  forall st, serial_output (m st).2 = serial_output st.

Lemma keeps_output_bind {A B} (m : M A) (k : A -> M B) :
  keeps_output m -> (forall a, keeps_output (k a)) -> keeps_output (bindM m k).
Proof.
  intros Hm Hk st. unfold bindM. specialize (Hm st).
  destruct (m st) as [[a|e| |] st']; simpl in *; [rewrite Hk|..]; assumption.
Qed.

Lemma keeps_output_ret {A} (a : A) : keeps_output (retM a).
Proof. intros st. reflexivity. Qed.

Lemma keeps_output_throw {A} e : keeps_output (A:=A) (throw e).
Proof. intros st. reflexivity. Qed.

Lemma keeps_output_now : keeps_output now.
Proof. intros [? ? c ? ? ? ? ?]. destruct c; reflexivity. Qed.

Lemma keeps_output_get_message : keeps_output get_message.
Proof.
  intros st. unfold get_message.
  destruct (get_message_go _ _ _) as [o [[inp p] buf]]. reflexivity.
Qed.

Lemma keeps_output_search_on_buffer pred : keeps_output (search_on_buffer pred).
Proof.
  intros st. unfold search_on_buffer.
  destruct (list_find _ _) as [[i m]|]; reflexivity.
Qed.

Lemma keeps_output_wait_fn_body pred err_if c :
  keeps_output c -> keeps_output (wait_fn_body pred err_if c).
Proof.
  intros Hc st. unfold wait_fn_body.
  pose proof (keeps_output_get_message st) as Hg.
  destruct (get_message st) as [o st']. simpl in Hg.
  repeat case_match; simpl; rewrite ?Hc; assumption.
Qed.

Lemma keeps_output_wait_fn_loop fuel pred err_if timeout start :
  keeps_output (wait_fn_loop fuel pred err_if timeout start).
Proof.
  induction fuel as [|f IH]; [intros st; reflexivity|].
  cbn [wait_fn_loop]. destruct timeout as [t|].
  - apply keeps_output_bind; [apply keeps_output_now|].
    intros n. destruct (start + t <? n);
      [apply keeps_output_throw | apply keeps_output_wait_fn_body, IH].
  - apply keeps_output_wait_fn_body, IH.
Qed.

Lemma keeps_output_wait_fn pred err_if timeout :
  keeps_output (wait_fn pred err_if timeout).
Proof.
  unfold wait_fn. apply keeps_output_bind; [apply keeps_output_search_on_buffer|].
  intros [m|]; [apply keeps_output_ret|].
  apply keeps_output_bind; [apply keeps_output_now|].
  intros start st. apply keeps_output_wait_fn_loop.
Qed.

Lemma keeps_output_wait_echonet_packet {P} `{EchonetProperty P} host pred timeout :
  keeps_output (wait_echonet_packet (P:=P) host pred timeout).
Proof.
  unfold wait_echonet_packet. apply keeps_output_bind; [apply keeps_output_wait_fn|].
  intros m. repeat case_match; auto using keeps_output_ret, keeps_output_throw.
Qed.

Lemma bindM_ret {A B} (m : M A) (k : A -> M B) st a st' :
  m st = (Ret a, st') -> bindM m k st = k a st'.
Proof. intros E. unfold bindM. rewrite E. reflexivity. Qed.

Lemma bindM_throw {A B} (m : M A) (k : A -> M B) st e st' :
  m st = (Throw e, st') -> bindM m k st = (Throw e, st').
Proof. intros E. unfold bindM. rewrite E. reflexivity. Qed.

Lemma output_bind_keeps {A B} (m : M A) (k : A -> M B) st :
  (forall a, keeps_output (k a)) -> serial_output (bindM m k st).2 = serial_output (m st).2.
Proof.
  intros Hk. unfold bindM.
  destruct (m st) as [[a|e| |] st']; simpl; [apply Hk|..]; reflexivity.
Qed.

Lemma keeps_output_wait_ok : keeps_output wait_ok.
Proof.
  apply keeps_output_bind; [apply keeps_output_wait_fn|]. intros _. apply keeps_output_ret.
Qed.

(** The line [send_udp] writes for the payload [d] to [a]. *)
Definition send_udp_bytes (a : Ipv6Addr) (d : list Z) : list Z :=
  as_bytes (create_send_udp_base a 1 (length d)) ++ d
  ++ as_bytes (String "013" (String "010" EmptyString)).

(** The request [get_properties] sends for [props] with transaction id [tid]. *)
Definition read_request {P} (tid : Z) (props : list P) : EchonetPacket P :=
  EchonetPacket_new tid (mkEdata HemsController SmartMeter ReadPropertyRequest
                           (map (fun p => mkProperty p []) props)).

(** The request [check_property_exists] lets through without a map: the
    single property [0x9F]. *)
Definition is_property_map_request {P} `{EchonetProperty P} (props : list P) : bool :=
  match props with [p0] => prop_into p0 =? 0x9F | _ => false end.

Definition without_property_map (st : Client) : Client :=
  mkClient (serial_input st) (serial_output st) (clock st) (random st)
    (serial_parser st) (message_buffer st) (address st) None.

Lemma check_property_exists_gate {P} `{EchonetProperty P} (props : list P) st :
  is_property_map_request props = false ->
  check_property_exists props (without_property_map st)
  = (Throw (CommandError "property map is not initialized."), without_property_map st).
Proof.
  intros Hn. unfold check_property_exists.
  destruct props as [|p0 [|p1 ps]]; try reflexivity.
  cbn [length head]. unfold GetPropertyMap_u8.
  cbn in Hn. change (prop_into GetPropertyMap) with 0x9F. rewrite Hn. reflexivity.
Qed.

(** Claim C7: without a property map, [get_properties] fails with a
    [CommandError] before it draws a transaction id or writes anything,
    and the client state is unchanged, unless the request is the single
    property [0x9F] ([is_property_map_request]); so [get_power_consumption] and
    [get_cumulative_electric_energy] fail the same way.  The single
    [GetPropertyMap] request passes the check: it is written to the port
    as [SKSENDTO] with the dumped request packet. *)
Theorem get_properties_needs_property_map :
  (forall P `{EchonetProperty P} host (props : list P) st,
     is_property_map_request props = false ->
     get_properties host props (without_property_map st)
     = (Throw (CommandError "property map is not initialized."), without_property_map st)) /\
  (forall host st,
     get_power_consumption host (without_property_map st)
     = (Throw (CommandError "property map is not initialized."), without_property_map st)) /\
  (forall host st,
     get_cumulative_electric_energy host (without_property_map st)
     = (Throw (CommandError "property map is not initialized."), without_property_map st)) /\
  (forall host st a r rs,
     address st = Some a -> random st = r :: rs ->
     serial_output (get_properties host [GetPropertyMap] (without_property_map st)).2
     = serial_output st
       ++ [WBytes (send_udp_bytes a
                    (EchonetPacket_dump host (read_request (r mod 65536) [GetPropertyMap])))]).
Proof.
  split; [|split; [|split]].
  - intros P HP host props st Hn. unfold get_properties.
    apply bindM_throw. apply check_property_exists_gate. exact Hn.
  - intros host st. unfold get_power_consumption, get_properties.
    erewrite bindM_throw; [reflexivity|]. apply bindM_throw.
    apply check_property_exists_gate. reflexivity.
  - intros host st. unfold get_cumulative_electric_energy, get_properties.
    erewrite bindM_throw; [reflexivity|]. apply bindM_throw.
    apply check_property_exists_gate. reflexivity.
  - intros host st a r rs Ha Hr. unfold get_properties.
    erewrite bindM_ret by reflexivity.
    erewrite bindM_ret by (unfold random_u16; cbn [random without_property_map]; rewrite Hr; reflexivity).
    rewrite output_bind_keeps by (intros; apply keeps_output_wait_echonet_packet).
    unfold send_udp. cbn [address without_property_map]. rewrite Ha.
    erewrite bindM_ret by reflexivity. cbv zeta.
    rewrite output_bind_keeps by (intros; apply keeps_output_wait_ok).
    reflexivity.
Qed.

(** ** The order of the messages [wait_fn] returns *)

(** The messages the parser completes on the lines [inp], in order, and
    the parser state after them; an [Err] of [read_line] consumes no line
    of the parser.  [None] when [add_line] panics. *)
Fixpoint read_messages (inp : list (result SerialError string)) (p : WiSunModuleParser)
  : option (list SerialMessage * WiSunModuleParser) :=
  match inp with
  | [] => Some ([], p)
  | Err _ :: inp' => read_messages inp' p
  | Ok line :: inp' =>
      match add_line p line with
      | None => None
      | Some (r, p1) =>
          match read_messages inp' p1 with
          | None => None
          | Some (ms, p2) =>
              Some (match r with POk m => m :: ms | _ => ms end, p2)
          end
      end
  end.

Lemma read_messages_app c1 c2 p ms1 p1 ms2 p2 :
  read_messages c1 p = Some (ms1, p1) -> read_messages c2 p1 = Some (ms2, p2) ->
  read_messages (c1 ++ c2) p = Some (ms1 ++ ms2, p2).
Proof.
  revert p ms1. induction c1 as [|[line|e] c1 IH]; intros p ms1 E1 E2; simpl in *.
  - injection E1 as <- <-. exact E2.
  - destruct (add_line p line) as [[r q]|]; [|discriminate].
    destruct (read_messages c1 q) as [[ms q']|] eqn:Ec; [|discriminate].
    injection E1 as <- <-. rewrite (IH q ms) by assumption.
    destruct r; reflexivity.
  - apply IH; assumption.
Qed.

Local Ltac read_close :=
  first [reflexivity | rewrite app_nil_r; reflexivity | intros ?; discriminate
        | intros ?; congruence | eauto].

(** What one call of [get_message] consumes and appends to the buffer. *)
Lemma get_message_go_reads inp p buf o inp' p' buf' :
  get_message_go inp p buf = (o, (inp', p', buf')) -> o <> Panicked ->
  exists consumed ms,
    inp = consumed ++ inp' /\ read_messages consumed p = Some (ms, p') /\
    buf' = buf ++ ms /\
    (o = Ret true -> exists x, ms = [x]) /\ (o <> Ret true -> ms = []).
Proof.
  revert p buf. induction inp as [|[line|e] inp IH]; intros p buf E Hp; simpl in E.
  - injection E as <- <- <- <-. exists [], [].
    rewrite app_nil_r. split_and!; read_close.
  - destruct (add_line p line) as [[r q]|] eqn:Ea.
    + destruct r as [m|s| |].
      * injection E as <- <- <- <-. exists [Ok line], [m]. simpl. rewrite Ea.
        split_and!; read_close.
      * destruct (IH q buf E Hp) as (c & ms & Hi & Hr & Hb & Ht & Hf).
        exists (Ok line :: c), ms. simpl. rewrite Ea, Hr, Hi. split_and!; auto.
      * injection E as <- <- <- <-. exists [Ok line], []. simpl. rewrite Ea.
        rewrite app_nil_r. split_and!; read_close.
      * destruct (IH q buf E Hp) as (c & ms & Hi & Hr & Hb & Ht & Hf).
        exists (Ok line :: c), ms. simpl. rewrite Ea, Hr, Hi. split_and!; auto.
    + injection E as <- <- <- <-. congruence.
  - assert (o = Throw (ESerialError e) /\ inp' = inp /\ p' = p /\ buf' = buf)
      as (-> & -> & -> & ->) by (destruct e; injection E; auto).
    exists [Err e], []. rewrite app_nil_r. split_and!; read_close.
Qed.

Lemma get_message_reads st o st1 :
  get_message st = (o, st1) -> o <> Panicked ->
  exists consumed ms,
    serial_input st = consumed ++ serial_input st1 /\
    read_messages consumed (serial_parser st) = Some (ms, serial_parser st1) /\
    message_buffer st1 = message_buffer st ++ ms /\
    (o = Ret true -> exists x, ms = [x]) /\ (o <> Ret true -> ms = []).
Proof.
  unfold get_message. intros E Hp.
  destruct (get_message_go _ _ _) as [o' [[inp p] buf]] eqn:Eg.
  injection E as <- <-. exact (get_message_go_reads _ _ _ _ _ _ _ Eg Hp).
Qed.

(** [wait_fn_loop] returned [m] in [st'] starting from [st]: it read the
    lines [consumed], on which the parser completed [fresh] and then [m];
    [m] satisfies [pred] and each message of [fresh] satisfies neither
    [pred] nor [err_if] and was appended to the buffer. *)
Definition loop_found (pred : SerialMessage -> bool) (err_if : SerialMessage -> option string)
    (st : Client) (m : SerialMessage) (st' : Client) : Prop :=
  exists consumed fresh,
    serial_input st = consumed ++ serial_input st' /\
    read_messages consumed (serial_parser st) = Some (fresh ++ [m], serial_parser st') /\
    message_buffer st' = message_buffer st ++ fresh /\
    Forall (fun x => pred x = false /\ err_if x = None) fresh /\
    pred m = true.

Lemma loop_found_step pred err_if st st1 m st' consumed ms :
  serial_input st = consumed ++ serial_input st1 ->
  read_messages consumed (serial_parser st) = Some (ms, serial_parser st1) ->
  message_buffer st1 = message_buffer st ++ ms ->
  Forall (fun x => pred x = false /\ err_if x = None) ms ->
  loop_found pred err_if st1 m st' -> loop_found pred err_if st m st'.
Proof.
  intros Hi Hr Hb Hms (c & fresh & Hi' & Hr' & Hb' & Hf & Hm).
  exists (consumed ++ c), (ms ++ fresh). split_and!.
  - rewrite Hi, Hi', app_assoc. reflexivity.
  - rewrite <- app_assoc. eapply read_messages_app; eassumption.
  - rewrite Hb', Hb, app_assoc. reflexivity.
  - apply Forall_app; split; assumption.
  - exact Hm.
Qed.

Lemma now_reads_nothing st :
  exists n st1, now st = (Ret n, st1) /\ serial_input st1 = serial_input st /\
    serial_parser st1 = serial_parser st /\ message_buffer st1 = message_buffer st.
Proof.
  destruct st as [? ? c ? ? ? ? ?]. destruct c as [|n ns]; eexists _, _; split_and!; reflexivity.
Qed.

Lemma loop_found_same_reads pred err_if st st1 m st' :
  serial_input st1 = serial_input st -> serial_parser st1 = serial_parser st ->
  message_buffer st1 = message_buffer st ->
  loop_found pred err_if st1 m st' -> loop_found pred err_if st m st'.
Proof.
  intros Hi Hp Hb. apply loop_found_step with (consumed := []) (ms := []).
  - rewrite Hi. reflexivity.
  - rewrite Hp. reflexivity.
  - rewrite Hb, app_nil_r. reflexivity.
  - constructor.
Qed.

Lemma wait_fn_body_found pred err_if c st m st' :
  (forall st1 m1 st1', c st1 = (Ret m1, st1') -> loop_found pred err_if st1 m1 st1') ->
  wait_fn_body pred err_if c st = (Ret m, st') -> loop_found pred err_if st m st'.
Proof.
  intros Hc E. unfold wait_fn_body in E.
  destruct (get_message st) as [o st1] eqn:Eg.
  assert (Hp : o <> Panicked) by (intros ->; discriminate).
  destruct (get_message_reads _ _ _ Eg Hp) as (c0 & ms & Hi & Hr & Hb & Ht & Hf).
  destruct o as [[|]|e| |].
  - destruct (Ht eq_refl) as [x ->]. rewrite Hb, last_snoc in E.
    destruct (pred x) eqn:Hx.
    + injection E as <- <-. exists c0, []. split_and!.
      * exact Hi.
      * exact Hr.
      * cbn [message_buffer set_buffer]. rewrite length_app. cbn [length].
        rewrite Nat.add_sub. rewrite delete_middle. reflexivity.
      * constructor.
      * exact Hx.
    + destruct (err_if x) eqn:He; [discriminate|].
      eapply loop_found_step; eauto.
  - rewrite Hf in Hr, Hb by discriminate.
    eapply loop_found_step; [exact Hi | exact Hr | exact Hb | constructor | eauto].
  - assert (E' : c st1 = (Ret m, st')) by (revert E; repeat case_match; auto).
    rewrite Hf in Hr, Hb by discriminate.
    eapply loop_found_step; [exact Hi | exact Hr | exact Hb | constructor | eauto].
  - discriminate.
  - discriminate.
Qed.

Lemma wait_fn_loop_found fuel pred err_if timeout start st m st' :
  wait_fn_loop fuel pred err_if timeout start st = (Ret m, st') ->
  loop_found pred err_if st m st'.
Proof.
  revert st m st'. induction fuel as [|f IH]; intros st m st' E; [discriminate|].
  cbn [wait_fn_loop] in E. destruct timeout as [t|].
  - destruct (now_reads_nothing st) as (n & st1 & En & Hi & Hp & Hb).
    unfold bindM in E. rewrite En in E.
    destruct (start + t <? n); [discriminate|].
    eapply loop_found_same_reads; [exact Hi | exact Hp | exact Hb|].
    eapply wait_fn_body_found; [|exact E]. exact IH.
  - eapply wait_fn_body_found; [|exact E]. exact IH.
Qed.

(** Claim C8: when [wait_fn] returns a message [m], either (a) [m] is the
    first message of the buffer at entry that satisfies [pred]: it is
    removed, the messages around it stay in order and nothing is read; or
    (b) no buffered message satisfies [pred], and [m] is the first message
    satisfying [pred] among those the parser completed on the lines read:
    the messages completed before it ([fresh]) satisfy neither [pred] nor
    [err_if] and are appended to the buffer in arrival order. *)
Theorem wait_fn_order pred err_if timeout st m st' :
  wait_fn pred err_if timeout st = (Ret m, st') ->
  (exists pre post,
     message_buffer st = pre ++ m :: post /\ pred m = true /\
     Forall (fun x => pred x = false) pre /\
     message_buffer st' = pre ++ post /\ serial_input st' = serial_input st) \/
  (Forall (fun x => pred x = false) (message_buffer st) /\
   exists consumed fresh,
     serial_input st = consumed ++ serial_input st' /\
     read_messages consumed (serial_parser st) = Some (fresh ++ [m], serial_parser st') /\
     message_buffer st' = message_buffer st ++ fresh /\
     Forall (fun x => pred x = false /\ err_if x = None) fresh /\
     pred m = true).
Proof.
  intros E. unfold wait_fn, bindM at 1, search_on_buffer in E.
  destruct (list_find _ (message_buffer st)) as [[i x]|] eqn:Ef.
  - injection E as <- <-. left.
    apply list_find_Some in Ef as (Hl & Hx & Hmin).
    exists (take i (message_buffer st)), (drop (S i) (message_buffer st)). split_and!.
    + symmetry. apply take_drop_middle. exact Hl.
    + exact Hx.
    + apply Forall_lookup_2. intros j y Hj.
      apply lookup_take_Some in Hj as [Hj Hlt].
      specialize (Hmin j y Hj Hlt). simpl in Hmin.
      destruct (pred y); [exfalso; apply Hmin; reflexivity|reflexivity].
    + apply delete_take_drop.
    + reflexivity.
  - right. split.
    + apply list_find_None in Ef. eapply Forall_impl; [exact Ef|].
      intros y Hy. simpl in Hy.
      destruct (pred y); [exfalso; apply Hy; reflexivity|reflexivity].
    + destruct (now_reads_nothing st) as (n & st1 & En & Hi & Hp & Hb).
      unfold bindM in E. rewrite En in E.
      apply wait_fn_loop_found in E.
      apply (loop_found_same_reads _ _ _ _ _ _ Hi Hp Hb) in E. exact E.
Qed.

(** [wait_ok] while an [EVENT 21] (UDP send finished) arrives before the
    [OK]: the event stays in the buffer. *)
Definition wait_demo : Client :=
  client_with_input [Ok "EVENT 21 FE80:0000:0000:0000:021D:1290:1234:5678 00"; Ok "OK"].

Definition wait_demo_state : Client := (wait_fn is_ok_message err_when_fail None wait_demo).2.

Lemma wait_fn_order_witness :
  wait_fn is_ok_message err_when_fail None wait_demo = (Ret SOk, wait_demo_state) /\
  ((exists pre post,
      message_buffer wait_demo = pre ++ SOk :: post /\ is_ok_message SOk = true /\
      Forall (fun x => is_ok_message x = false) pre /\
      message_buffer wait_demo_state = pre ++ post /\
      serial_input wait_demo_state = serial_input wait_demo) \/
   (Forall (fun x => is_ok_message x = false) (message_buffer wait_demo) /\
    exists consumed fresh,
      serial_input wait_demo = consumed ++ serial_input wait_demo_state /\
      read_messages consumed (serial_parser wait_demo)
        = Some (fresh ++ [SOk], serial_parser wait_demo_state) /\
      message_buffer wait_demo_state = message_buffer wait_demo ++ fresh /\
      Forall (fun x => is_ok_message x = false /\ err_when_fail x = None) fresh /\
      is_ok_message SOk = true)).
Proof.
  split; [vm_compute; reflexivity|].
  apply (wait_fn_order is_ok_message err_when_fail None). vm_compute. reflexivity.
Defined.

(** ** The scan *)

Definition scan_line (i : Z) : Written :=
  WLine (String.append "SKSCAN 2 FFFFFFFF " (fmt_decimal i)).

(** Running the passes [ds] of the [scan] loop one after the other, when
    each of them ends without a [PanDesc] and without an error. *)
Fixpoint run_steps_none (ds : list Z) (st : Client) : option Client :=
  match ds with
  | [] => Some st
  | i :: ds' =>
      match scan_step i st with
      | (Ret None, st1) => run_steps_none ds' st1
      | _ => None
      end
  end.

Lemma scan_step_output i st r st' :
  scan_step i st = (Ret r, st') -> serial_output st' = serial_output st ++ [scan_line i].
Proof.
  unfold scan_step. intros E.
  erewrite bindM_ret in E by reflexivity.
  erewrite bindM_ret in E by reflexivity.
  match type of E with bindM ?m ?k ?s = _ =>
    assert (Hk : keeps_output (bindM m k)); [|specialize (Hk s); rewrite E in Hk; exact Hk]
  end.
  apply keeps_output_bind; [apply keeps_output_wait_ok|]. intros _.
  apply keeps_output_bind; [apply keeps_output_wait_fn|]. intros _.
  apply keeps_output_bind; [apply keeps_output_search_on_buffer|]. intros desc.
  repeat case_match; apply keeps_output_ret.
Qed.

Lemma run_steps_none_output ds st st' :
  run_steps_none ds st = Some st' -> serial_output st' = serial_output st ++ map scan_line ds.
Proof.
  revert st. induction ds as [|i ds IH]; intros st E; simpl in E.
  - injection E as <-. rewrite app_nil_r. reflexivity.
  - destruct (scan_step i st) as [[[b|]|e| |] st1] eqn:Es; try discriminate.
    rewrite (IH st1 E), (scan_step_output _ _ _ _ Es), <- app_assoc. reflexivity.
Qed.

Lemma scan_durations_fail ds st st' :
  run_steps_none ds st = Some st' ->
  scan_durations ds st = (Throw (ScanError "pan not found"), st').
Proof.
  revert st. induction ds as [|i ds IH]; intros st E; simpl in E.
  - injection E as <-. reflexivity.
  - cbn [scan_durations]. destruct (scan_step i st) as [[[b|]|e| |] st1] eqn:Es; try discriminate.
    rewrite (bindM_ret _ _ _ _ _ Es). apply IH, E.
Qed.

Lemma scan_durations_ret ds st body st' :
  scan_durations ds st = (Ret body, st') <->
  exists pre i post st1,
    ds = pre ++ i :: post /\ run_steps_none pre st = Some st1 /\
    scan_step i st1 = (Ret (Some body), st').
Proof.
  revert st. induction ds as [|i ds IH]; intros st.
  - split; [discriminate|]. intros (pre & i & post & st1 & Hds & _).
    destruct pre; discriminate.
  - cbn [scan_durations]. unfold bindM at 1.
    destruct (scan_step i st) as [[[b|]|e| |] st1] eqn:Es.
    + split.
      * intros E. injection E as -> ->. exists [], i, ds, st. split_and!; auto.
      * intros (pre & j & post & st2 & Hds & Hr & Hj).
        destruct pre as [|j' pre]; simpl in Hds, Hr; injection Hds as -> ->.
        -- injection Hr as <-. rewrite Es in Hj. injection Hj as -> ->. reflexivity.
        -- rewrite Es in Hr. discriminate.
    + rewrite IH. split.
      * intros (pre & j & post & st2 & Hds & Hr & Hj).
        exists (i :: pre), j, post, st2. simpl. rewrite Es, Hds. auto.
      * intros (pre & j & post & st2 & Hds & Hr & Hj).
        destruct pre as [|j' pre]; simpl in Hds, Hr; injection Hds as -> ->.
        -- injection Hr as <-. congruence.
        -- rewrite Es in Hr. exists pre, j, post, st2. auto.
    + split; [discriminate|]. intros (pre & j & post & st2 & Hds & Hr & Hj).
      destruct pre as [|j' pre]; simpl in Hds, Hr; injection Hds as -> ->.
      -- injection Hr as <-. congruence.
      -- rewrite Es in Hr. discriminate.
    + split; [discriminate|]. intros (pre & j & post & st2 & Hds & Hr & Hj).
      destruct pre as [|j' pre]; simpl in Hds, Hr; injection Hds as -> ->.
      -- injection Hr as <-. congruence.
      -- rewrite Es in Hr. discriminate.
    + split; [discriminate|]. intros (pre & j & post & st2 & Hds & Hr & Hj).
      destruct pre as [|j' pre]; simpl in Hds, Hr; injection Hds as -> ->.
      -- injection Hr as <-. congruence.
      -- rewrite Es in Hr. discriminate.
Qed.

(** The lines of the [scan] test of client.rs: no [EPANDESC] in the pass
    of duration 4; in the pass of duration 5 the [EPANDESC] block comes
    before the [EVENT 22]. *)
Definition scan_test_input : list (result SerialError string) :=
  map Ok ["OK"; "EVENT 22 FE80:0000:0000:0000:1234:5678:90AB:CDEF";
          "OK"; "EPANDESC"; "  Channel:2F"; "  Channel Page:09"; "  Pan ID:3077";
          "  Addr:1234567890ABCDEF"; "  LQI:73"; "  PairID:01234567";
          "EVENT 22 FE80:0000:0000:0000:1234:5678:90AB:CDEF"].

(** Six passes that all end without an [EPANDESC]. *)
Definition scan_all_fail_input : list (result SerialError string) :=
  concat (repeat (map Ok ["OK"; "EVENT 22 FE80:0000:0000:0000:1234:5678:90AB:CDEF"]) 6).

Definition scan_durations_used : list Z := [4; 5; 6; 7; 8; 9].

Definition meter_ip : Ipv6Addr := [0xFE80; 0; 0; 0; 0x021D; 0x1290; 0x1234; 0x5678].

Lemma get_properties_needs_property_map_witness :
  is_property_map_request [InstantaneousElectricPower] = false /\
  get_properties LittleEndian [InstantaneousElectricPower]
    (without_property_map (client_with_input []))
  = (Throw (CommandError "property map is not initialized."),
     without_property_map (client_with_input [])) /\
  serial_output (get_properties LittleEndian [GetPropertyMap]
     (without_property_map (mkClient [Ok "OK"] [] [] [0x1234] WiSunModuleParser_new []
                              (Some meter_ip) None))).2
  = [WBytes (send_udp_bytes meter_ip
       (EchonetPacket_dump LittleEndian (read_request 0x1234 [GetPropertyMap])))].
Proof.
  split; [reflexivity|]. split.
  - apply (proj1 get_properties_needs_property_map). reflexivity.
  - apply (proj2 (proj2 (proj2 get_properties_needs_property_map))
             LittleEndian (mkClient [Ok "OK"] [] [] [0x1234] WiSunModuleParser_new []
                             (Some meter_ip) None) meter_ip 0x1234 []);
      reflexivity.
Defined.

End ClientFacts.

Module SerialFacts.
Import Parser Client Serial.

Lemma Buffer_ok_spec b :
  Buffer_ok b = true <-> (pointer b <= end_ b /\ end_ b <= length (data b))%nat.
Proof. unfold Buffer_ok. rewrite andb_true_iff, !Nat.leb_le. tauto. Qed.

Lemma has_left_spec b : has_left b = true <-> (pointer b < end_ b)%nat.
Proof. unfold has_left. apply Nat.ltb_lt. Qed.

Lemma left_bytes_length b :
  Buffer_ok b = true -> length (left_bytes b) = (end_ b - pointer b)%nat.
Proof.
  intros [? ?]%Buffer_ok_spec. unfold left_bytes. rewrite length_take, length_drop. lia.
Qed.

Lemma left_bytes_nil b : has_left b = false -> left_bytes b = [].
Proof.
  unfold has_left, left_bytes. intros H%Nat.ltb_ge.
  replace (end_ b - pointer b)%nat with 0%nat by lia. reflexivity.
Qed.

Lemma left_bytes_split b :
  Buffer_ok b = true ->
  drop (pointer b) (data b) = left_bytes b ++ drop (end_ b) (data b).
Proof.
  intros [? ?]%Buffer_ok_spec. unfold left_bytes.
  rewrite <- (take_drop (end_ b - pointer b) (drop (pointer b) (data b))) at 1.
  rewrite drop_drop. do 2 f_equal. lia.
Qed.

Lemma take_S_app (l1 r : list Z) x : take (S (length l1)) (l1 ++ x :: r) = l1 ++ [x].
Proof. induction l1; simpl; [reflexivity | now rewrite IHl1]. Qed.

Lemma drop_S_app (l1 r : list Z) x : drop (S (length l1)) (l1 ++ x :: r) = r.
Proof. induction l1; simpl; [reflexivity | exact IHl1]. Qed.

Lemma slice_ok d a c :
  (a <= c)%nat -> (c <= length d)%nat -> slice d a c = Some (take (c - a) (drop a d)).
Proof.
  intros H1 H2. unfold slice.
  rewrite (proj2 (Nat.leb_le _ _) H1), (proj2 (Nat.leb_le _ _) H2). reflexivity.
Qed.

Lemma take_S_drop (d : list Z) p k :
  (p < length d)%nat ->
  exists x, d !! p = Some x /\ take (S k) (drop p d) = x :: take k (drop (S p) d).
Proof.
  intros Hp. destruct (lookup_lt_is_Some_2 d p Hp) as [x Hx].
  exists x. split; [exact Hx|]. rewrite (drop_S d x p Hx). reflexivity.
Qed.

Lemma find_lf_found k : forall p d l1 l2,
  (p + k <= length d)%nat -> take k (drop p d) = l1 ++ 10 :: l2 -> has_lf l1 = false ->
  find_lf d p k = Some (Some (p + length l1)%nat).
Proof.
  unfold has_lf. induction k as [|k IH]; intros p d l1 l2 Hk Ht Hl.
  - rewrite take_0 in Ht. destruct l1; discriminate.
  - destruct (take_S_drop d p k) as (x & Hx & Hd); [lia|].
    rewrite Hd in Ht. cbn [find_lf]. rewrite Hx. cbn [mbind option_bind].
    destruct l1 as [|y l1]; simpl in Ht; injection Ht as Hxy Ht; subst x.
    + rewrite Nat.add_0_r. reflexivity.
    + cbn [existsb] in Hl. apply orb_false_iff in Hl as [Hy Hl].
      rewrite Z.eqb_sym, Hy. rewrite (IH (S p) d l1 l2); [| lia | exact Ht | exact Hl].
      simpl. do 2 f_equal. lia.
Qed.

Lemma find_lf_none k : forall p d,
  (p + k <= length d)%nat -> has_lf (take k (drop p d)) = false -> find_lf d p k = Some None.
Proof.
  unfold has_lf. induction k as [|k IH]; intros p d Hk Hl; [reflexivity|].
  destruct (take_S_drop d p k) as (x & Hx & Hd); [lia|].
  rewrite Hd in Hl. cbn [existsb] in Hl. apply orb_false_iff in Hl as [Hy Hl].
  cbn [find_lf]. rewrite Hx. cbn [mbind option_bind].
  rewrite Z.eqb_sym, Hy. apply IH; [lia | exact Hl].
Qed.

Lemma split_first_lf L :
  has_lf L = true -> exists l1 l2, L = l1 ++ 10 :: l2 /\ has_lf l1 = false.
Proof.
  unfold has_lf. induction L as [|x L IH]; cbn [existsb]; [discriminate|].
  destruct (Z.eqb_spec 10 x) as [<-|Hx]; intros H.
  - exists [], L. split; reflexivity.
  - destruct (IH H) as (l1 & l2 & -> & Hl1). exists (x :: l1), l2. split; [reflexivity|].
    cbn [existsb]. rewrite Hl1. apply orb_false_iff. split; [apply Z.eqb_neq|]; auto.
Qed.

Lemma split_unique l1 l (x y : list Z) :
  has_lf l1 = false -> has_lf l = false -> l1 ++ 10 :: x = l ++ 10 :: y -> l1 = l /\ x = y.
Proof.
  unfold has_lf. revert l. induction l1 as [|a l1 IH]; intros [|b l] H1 H2 Heq; cbn [existsb app] in *.
  - injection Heq as Heq. auto.
  - injection Heq as Ha _. subst b. simpl in H2. discriminate.
  - injection Heq as Ha _. subst a. simpl in H1. discriminate.
  - injection Heq as Ha Heq. subst b.
    apply orb_false_iff in H1 as [_ H1]. apply orb_false_iff in H2 as [_ H2].
    destruct (IH l H1 H2 Heq) as [-> ->]. auto.
Qed.

Lemma split_no_lf L z l (rest : list Z) :
  has_lf L = false -> L ++ z = l ++ 10 :: rest -> exists l', l = L ++ l' /\ z = l' ++ 10 :: rest.
Proof.
  unfold has_lf. revert l. induction L as [|a L IH]; intros l HL Heq; cbn [existsb app] in *.
  - exists l. auto.
  - destruct l as [|b l]; cbn [app] in Heq; injection Heq as Ha Heq.
    + subst a. simpl in HL. discriminate.
    + subst b. apply orb_false_iff in HL as [_ HL].
      destruct (IH l HL Heq) as (l' & -> & ->). exists l'. auto.
Qed.

Lemma read_to_lf_found b l1 l2 :
  Buffer_ok b = true -> left_bytes b = l1 ++ 10 :: l2 -> has_lf l1 = false ->
  read_to_lf b = Some (Some (l1 ++ [10]),
                       mkBuffer (data b) (S (pointer b + length l1)) (end_ b)).
Proof.
  intros Hok Hleft Hl.
  pose proof (left_bytes_length b Hok) as Hlen. rewrite Hleft, length_app in Hlen. simpl in Hlen.
  apply Buffer_ok_spec in Hok as [Hpe Hed].
  assert (Hh : has_left b = true) by (apply has_left_spec; lia).
  unfold read_to_lf. rewrite Hh. cbn [negb].
  rewrite (find_lf_found (end_ b - pointer b) (pointer b) (data b) l1 l2); [| lia | exact Hleft | exact Hl].
  cbn [mbind option_bind].
  rewrite slice_ok by lia.
  replace (S (pointer b + length l1) - pointer b)%nat with (S (length l1)) by lia.
  rewrite left_bytes_split by (apply Buffer_ok_spec; lia).
  rewrite Hleft, <- app_assoc. cbn [app]. rewrite take_S_app. reflexivity.
Qed.

Lemma read_to_lf_found_left b l1 l2 :
  Buffer_ok b = true -> left_bytes b = l1 ++ 10 :: l2 ->
  left_bytes (mkBuffer (data b) (S (pointer b + length l1)) (end_ b)) = l2
  /\ Buffer_ok (mkBuffer (data b) (S (pointer b + length l1)) (end_ b)) = true.
Proof.
  intros Hok Hleft.
  pose proof (left_bytes_length b Hok) as Hlen. rewrite Hleft, length_app in Hlen. simpl in Hlen.
  pose proof (left_bytes_split b Hok) as Hsplit.
  apply Buffer_ok_spec in Hok as [Hpe Hed]. split.
  - unfold left_bytes; cbn [data pointer end_].
    replace (S (pointer b + length l1)) with (pointer b + S (length l1))%nat by lia.
    rewrite <- drop_drop, Hsplit, Hleft, <- app_assoc. cbn [app]. rewrite drop_S_app.
    replace (end_ b - (pointer b + S (length l1)))%nat with (length l2) by lia.
    apply take_app_length.
  - apply Buffer_ok_spec; cbn [data pointer end_]. lia.
Qed.

Lemma read_to_lf_none b :
  Buffer_ok b = true -> has_lf (left_bytes b) = false -> read_to_lf b = Some (None, b).
Proof.
  intros Hok Hl. unfold read_to_lf. destruct (has_left b) eqn:Hh; [|reflexivity]. cbn [negb].
  apply Buffer_ok_spec in Hok as [Hpe Hed].
  rewrite (find_lf_none (end_ b - pointer b) (pointer b) (data b)); [reflexivity | lia | exact Hl].
Qed.

Lemma get_remain_left b :
  Buffer_ok b = true -> has_left b = true ->
  get_remain b = Some (Some (left_bytes b), mkBuffer (data b) (end_ b) (end_ b)).
Proof.
  intros Hok Hh. unfold get_remain. rewrite Hh. cbn [negb].
  apply Buffer_ok_spec in Hok as [Hpe Hed]. rewrite slice_ok by lia. reflexivity.
Qed.

Lemma fill_buf_chunk b ch r :
  has_left b = false -> (length ch <= length (data b))%nat ->
  fill_buf b (Ok ch :: r)
  = Some (Ok (length ch), mkBuffer (ch ++ drop (length ch) (data b)) 0 (length ch), r).
Proof.
  intros Hh Hl. unfold fill_buf. rewrite Hh, (proj2 (Nat.leb_le _ _) Hl). reflexivity.
Qed.

Lemma filled_buffer d ch :
  (length ch <= length d)%nat ->
  let b := mkBuffer (ch ++ drop (length ch) d) 0 (length ch) in
  left_bytes b = ch /\ Buffer_ok b = true /\ length (data b) = length d.
Proof.
  intros Hl b. unfold b, left_bytes; cbn [data pointer end_].
  assert (Hlen : length (ch ++ drop (length ch) d) = length d) by (rewrite length_app, length_drop; lia).
  rewrite Nat.sub_0_r, drop_0, take_app_length. split_and!; [reflexivity | | exact Hlen].
  apply Buffer_ok_spec; cbn [data pointer end_]. lia.
Qed.

Lemma chunks_fit_cons size ch cs :
  chunks_fit size (ch :: cs) = true <-> (length ch <= size)%nat /\ chunks_fit size cs = true.
Proof. unfold chunks_fit. cbn [forallb]. rewrite andb_true_iff, Nat.leb_le. tauto. Qed.

(** [read_line_loop] when the buffer has data left runs the body at once;
    after a successful non-empty read it continues as from the filled buffer. *)
Lemma read_line_loop_fill f r b txt n b' r' :
  has_left b = false -> fill_buf b r = Some (Ok (S n), b', r') -> has_left b' = true ->
  read_line_loop (S f) (mkConnection r b) txt = read_line_loop (S f) (mkConnection r' b') txt.
Proof.
  intros Hh Hf Hh'. cbn [read_line_loop connection read_buffer].
  rewrite Hh, Hf, Hh'. reflexivity.
Qed.

(** The loop invariant: the unread bytes of the buffer and of the answers
    still to come hold a line. *)
Definition line_at (fuel : nat) : Prop :=
  forall cs more b txt l rest,
  Buffer_ok b = true -> chunks_fit (length (data b)) cs = true ->
  left_bytes b ++ concat cs = l ++ 10 :: rest -> has_lf l = false ->
  (2 * length cs + (if has_left b then 2 else 1) <= fuel)%nat ->
  exists cs' b',
    read_line_loop fuel (mkConnection (map Ok cs ++ more) b) txt
    = (Returned (line_result (txt ++ l ++ [10])), mkConnection (map Ok cs' ++ more) b')
    /\ Buffer_ok b' = true /\ length (data b') = length (data b)
    /\ chunks_fit (length (data b')) cs' = true /\ left_bytes b' ++ concat cs' = rest.

Lemma line_body f : line_at f ->
  forall cs more b txt l rest,
  Buffer_ok b = true -> has_left b = true -> chunks_fit (length (data b)) cs = true ->
  left_bytes b ++ concat cs = l ++ 10 :: rest -> has_lf l = false ->
  (2 * length cs + 1 <= f)%nat ->
  exists cs' b',
    read_line_loop (S f) (mkConnection (map Ok cs ++ more) b) txt
    = (Returned (line_result (txt ++ l ++ [10])), mkConnection (map Ok cs' ++ more) b')
    /\ Buffer_ok b' = true /\ length (data b') = length (data b)
    /\ chunks_fit (length (data b')) cs' = true /\ left_bytes b' ++ concat cs' = rest.
Proof.
  intros IH cs more b txt l rest Hok Hh Hfit Hs Hl Hf.
  cbn [read_line_loop connection read_buffer]. rewrite Hh. cbn [negb].
  destruct (has_lf (left_bytes b)) eqn:HL.
  - destruct (split_first_lf _ HL) as (l1 & l2 & Hleft & Hl1).
    rewrite (read_to_lf_found b l1 l2 Hok Hleft Hl1).
    destruct (read_to_lf_found_left b l1 l2 Hok Hleft) as [Hleft' Hok'].
    rewrite Hleft, <- app_assoc in Hs. cbn [app] in Hs.
    destruct (split_unique _ _ _ _ Hl1 Hl Hs) as [-> <-].
    eexists cs, _. split_and!; [reflexivity | exact Hok' | reflexivity | exact Hfit | ].
    rewrite Hleft'. reflexivity.
  - rewrite (read_to_lf_none b Hok HL), (get_remain_left b Hok Hh).
    destruct (split_no_lf _ _ _ _ HL Hs) as (l' & -> & Hc).
    assert (Hok2 : Buffer_ok (mkBuffer (data b) (end_ b) (end_ b)) = true).
    { apply Buffer_ok_spec in Hok. apply Buffer_ok_spec; cbn [data pointer end_]. lia. }
    assert (Hh2 : has_left (mkBuffer (data b) (end_ b) (end_ b)) = false).
    { apply Nat.ltb_irrefl. }
    destruct (IH cs more (mkBuffer (data b) (end_ b) (end_ b)) (txt ++ left_bytes b) l' rest)
      as (cs' & b' & Hrun & Hok' & Hlen & Hfit' & Hrest);
      [exact Hok2 | exact Hfit | rewrite left_bytes_nil by exact Hh2; exact Hc | | rewrite Hh2; lia |].
    { unfold has_lf in Hl |- *. rewrite existsb_app in Hl. apply orb_false_iff in Hl. apply Hl. }
    exists cs', b'. rewrite Hrun, <- !app_assoc. split_and!; auto.
Qed.

Lemma read_line_loop_fill0 f r b txt b' r' :
  has_left b = false -> fill_buf b r = Some (Ok 0%nat, b', r') ->
  read_line_loop (S f) (mkConnection r b) txt = read_line_loop f (mkConnection r' b') txt.
Proof.
  intros Hh Hf. cbn [read_line_loop connection read_buffer]. rewrite Hh, Hf. reflexivity.
Qed.

Lemma line_all fuel : line_at fuel.
Proof.
  induction fuel as [|f IH]; intros cs more b txt l rest Hok Hfit Hs Hl Hf.
  { destruct (has_left b); lia. }
  destruct (has_left b) eqn:Hh.
  { apply (line_body f IH); auto. lia. }
  rewrite (left_bytes_nil b Hh) in Hs. cbn [app] in Hs.
  destruct cs as [|ch cs]; [destruct l; discriminate|].
  apply chunks_fit_cons in Hfit as [Hch Hfit].
  destruct (filled_buffer (data b) ch Hch) as (Hleft1 & Hok1 & Hlen1).
  pose proof (fill_buf_chunk b ch (map Ok cs ++ more) Hh Hch) as Hfill.
  cbn [map app]. cbn [concat] in Hs. cbn [length] in Hf.
  destruct ch as [|x ch'].
  - rewrite (read_line_loop_fill0 _ _ _ _ _ _ Hh Hfill).
    destruct (IH cs more (mkBuffer ([] ++ drop (length (@nil Z)) (data b)) 0 (length (@nil Z))) txt l rest)
      as (cs' & b' & Hrun & Hok' & Hlen & Hfit' & Hrest);
      [exact Hok1 | rewrite Hlen1; exact Hfit | rewrite Hleft1; exact Hs | exact Hl
      | cbn [has_left pointer end_ Nat.ltb]; simpl; lia |].
    exists cs', b'. rewrite Hrun. split_and!; auto; congruence.
  - rewrite (read_line_loop_fill _ _ _ _ _ _ _ Hh Hfill) by (apply has_left_spec; cbn; lia).
    destruct (line_body f IH cs more _ txt l rest Hok1)
      as (cs' & b' & Hrun & Hok' & Hlen & Hfit' & Hrest);
      [apply has_left_spec; cbn; lia | rewrite Hlen1; exact Hfit | rewrite Hleft1; exact Hs
      | exact Hl | lia |].
    exists cs', b'. rewrite Hrun. split_and!; auto; congruence.
Qed.

(** The same loop when an I/O error comes before any line feed. *)
Definition err_at (fuel : nat) : Prop :=
  forall cs k more b txt,
  Buffer_ok b = true -> chunks_fit (length (data b)) cs = true ->
  has_lf (left_bytes b ++ concat cs) = false ->
  (2 * length cs + (if has_left b then 2 else 1) <= fuel)%nat ->
  exists b',
    read_line_loop fuel (mkConnection (map Ok cs ++ Err k :: more) b) txt
    = (Returned (Err (IoError k)), mkConnection more b')
    /\ Buffer_ok b' = true /\ has_left b' = false.

Lemma err_body f : err_at f ->
  forall cs k more b txt,
  Buffer_ok b = true -> has_left b = true -> chunks_fit (length (data b)) cs = true ->
  has_lf (left_bytes b ++ concat cs) = false -> (2 * length cs + 1 <= f)%nat ->
  exists b',
    read_line_loop (S f) (mkConnection (map Ok cs ++ Err k :: more) b) txt
    = (Returned (Err (IoError k)), mkConnection more b')
    /\ Buffer_ok b' = true /\ has_left b' = false.
Proof.
  intros IH cs k more b txt Hok Hh Hfit Hl Hf.
  cbn [read_line_loop connection read_buffer]. rewrite Hh. cbn [negb].
  unfold has_lf in Hl. rewrite existsb_app in Hl. apply orb_false_iff in Hl as [HL Hc].
  rewrite (read_to_lf_none b Hok HL), (get_remain_left b Hok Hh).
  assert (H2 : has_left (mkBuffer (data b) (end_ b) (end_ b)) = false) by apply Nat.ltb_irrefl.
  apply IH; [ | exact Hfit | rewrite left_bytes_nil by exact H2; exact Hc | rewrite H2; lia].
  apply Buffer_ok_spec in Hok. apply Buffer_ok_spec; cbn [data pointer end_]. lia.
Qed.

Lemma err_all fuel : err_at fuel.
Proof.
  induction fuel as [|f IH]; intros cs k more b txt Hok Hfit Hl Hf.
  { destruct (has_left b); lia. }
  destruct (has_left b) eqn:Hh.
  { apply (err_body f IH); auto. lia. }
  rewrite (left_bytes_nil b Hh) in Hl. cbn [app] in Hl.
  destruct cs as [|ch cs].
  - exists b. cbn [read_line_loop connection read_buffer map app]. rewrite Hh. cbn [negb].
    unfold fill_buf. rewrite Hh. split_and!; [reflexivity | exact Hok | reflexivity].
  - apply chunks_fit_cons in Hfit as [Hch Hfit].
    destruct (filled_buffer (data b) ch Hch) as (Hleft1 & Hok1 & Hlen1).
    pose proof (fill_buf_chunk b ch (map Ok cs ++ Err k :: more) Hh Hch) as Hfill.
    cbn [map app]. cbn [concat] in Hl. cbn [length] in Hf.
    destruct ch as [|x ch'].
    + rewrite (read_line_loop_fill0 _ _ _ _ _ _ Hh Hfill).
      apply IH; [exact Hok1 | rewrite Hlen1; exact Hfit | rewrite Hleft1; exact Hl
                | cbn [has_left pointer end_ Nat.ltb]; simpl; lia].
    + rewrite (read_line_loop_fill _ _ _ _ _ _ _ Hh Hfill) by (apply has_left_spec; cbn; lia).
      apply (err_body f IH); [exact Hok1 | apply has_left_spec; cbn; lia
        | rewrite Hlen1; exact Hfit | rewrite Hleft1; exact Hl | lia].
Qed.

Lemma last_end_spec t i : (i <= length t)%nat ->
  (last_end t i <= i)%nat
  /\ (forall j x, (last_end t i <= j < i)%nat -> t !! j = Some x -> x = 13 \/ x = 10)
  /\ (forall j, S j = last_end t i -> exists x, t !! j = Some x /\ x <> 13 /\ x <> 10).
Proof.
  induction i as [|i IH]; intros Hi.
  - cbn [last_end]. split_and!; [lia | intros; lia | intros; lia].
  - destruct (lookup_lt_is_Some_2 t i ltac:(lia)) as [y Hy].
    cbn [last_end]. rewrite Hy.
    destruct ((y =? 13) || (y =? 10)) eqn:E.
    + destruct (IH ltac:(lia)) as (Hle & Hmid & Hlast). split_and!; [lia | | exact Hlast].
      intros j x Hj Hx. destruct (Nat.eq_dec j i) as [->|Hne].
      * rewrite Hy in Hx. injection Hx as <-.
        apply orb_true_iff in E as [E|E]; apply Z.eqb_eq in E; auto.
      * apply (Hmid j x); [lia | exact Hx].
    + split_and!; [lia | intros; lia |].
      intros j Hj. injection Hj as ->. exists y. apply orb_false_iff in E as [E1 E2].
      apply Z.eqb_neq in E1, E2. auto.
Qed.

Lemma find_lf_range k : forall p d, (p + k <= length d)%nat ->
  exists o, find_lf d p k = Some o /\ (forall i, o = Some i -> (p <= i < p + k)%nat).
Proof.
  induction k as [|k IH]; intros p d Hk.
  - exists None. split; [reflexivity | discriminate].
  - destruct (lookup_lt_is_Some_2 d p ltac:(lia)) as [x Hx].
    cbn [find_lf]. rewrite Hx. cbn [mbind option_bind].
    destruct (x =? 10).
    + exists (Some p). split; [reflexivity|]. intros i Hi. injection Hi as <-. lia.
    + destruct (IH (S p) d ltac:(lia)) as (o & Ho & Hr). exists o. split; [exact Ho|].
      intros i Hi. specialize (Hr i Hi). lia.
Qed.

(** ** Properties of the line reader *)

(** [Buffer::fill_buf], [read_to_lf] and [get_remain] keep
    [pointer <= end <= data.len()] and the capacity of the buffer; on such
    a buffer [read_to_lf] and [get_remain] never panic and do not touch
    the data. *)
Theorem buffer_ops_keep_invariant b r :
  Buffer_ok b = true ->
  (forall res b' r', fill_buf b r = Some (res, b', r') ->
     Buffer_ok b' = true /\ length (data b') = length (data b))
  /\ (exists o b', read_to_lf b = Some (o, b') /\ Buffer_ok b' = true /\ data b' = data b)
  /\ (exists o b', get_remain b = Some (o, b') /\ Buffer_ok b' = true /\ data b' = data b).
Proof.
  intros Hok. pose proof Hok as [Hpe Hed]%Buffer_ok_spec. split_and!.
  - intros res b' r' Hf. unfold fill_buf in Hf.
    destruct (has_left b); [injection Hf as <- <- <-; auto|].
    destruct r as [|[ch|k] r].
    + injection Hf as <- <- <-. split; [apply Buffer_ok_spec; cbn; lia | reflexivity].
    + destruct (length ch <=? length (data b))%nat eqn:Hl; [|discriminate].
      injection Hf as <- <- <-. apply Nat.leb_le in Hl.
      destruct (filled_buffer (data b) ch Hl) as (_ & ? & ?). auto.
    + injection Hf as <- <- <-. auto.
  - unfold read_to_lf. destruct (has_left b) eqn:Hh; cbn [negb]; [|eauto].
    destruct (find_lf_range (end_ b - pointer b) (pointer b) (data b) ltac:(lia)) as (o & Ho & Hr).
    rewrite Ho. cbn [mbind option_bind]. destruct o as [i|]; [|eauto].
    specialize (Hr i eq_refl). rewrite slice_ok by lia. cbn [mbind option_bind].
    eexists _, _. split_and!; [reflexivity | apply Buffer_ok_spec; cbn; lia | reflexivity].
  - unfold get_remain. destruct (has_left b) eqn:Hh; cbn [negb]; [|eauto].
    rewrite slice_ok by lia. cbn [mbind option_bind].
    eexists _, _. split_and!; [reflexivity | apply Buffer_ok_spec; cbn; lia | reflexivity].
Qed.

Lemma buffer_ops_keep_invariant_witness :
  Buffer_ok (mkBuffer [49; 10; 50; 0] 1 3) = true /\
  (forall res b' r', fill_buf (mkBuffer [49; 10; 50; 0] 1 3) [] = Some (res, b', r') ->
     Buffer_ok b' = true /\ length (data b') = length (data (mkBuffer [49; 10; 50; 0] 1 3)))
  /\ (exists o b', read_to_lf (mkBuffer [49; 10; 50; 0] 1 3) = Some (o, b')
        /\ Buffer_ok b' = true /\ data b' = data (mkBuffer [49; 10; 50; 0] 1 3))
  /\ (exists o b', get_remain (mkBuffer [49; 10; 50; 0] 1 3) = Some (o, b')
        /\ Buffer_ok b' = true /\ data b' = data (mkBuffer [49; 10; 50; 0] 1 3)).
Proof.
  split; [reflexivity|]. apply buffer_ops_keep_invariant. reflexivity.
Defined.

(** [Buffer::read_to_lf] returns the unread bytes up to and including the
    first line feed and leaves the bytes after it unread; when no line feed
    is unread it returns [None] and leaves the buffer as it is. *)
Theorem read_to_lf_first_line b :
  Buffer_ok b = true ->
  (forall l1 l2, left_bytes b = l1 ++ 10 :: l2 -> has_lf l1 = false ->
     exists b', read_to_lf b = Some (Some (l1 ++ [10]), b')
                /\ left_bytes b' = l2 /\ data b' = data b)
  /\ (has_lf (left_bytes b) = false -> read_to_lf b = Some (None, b)).
Proof.
  intros Hok. split.
  - intros l1 l2 Hleft Hl. eexists. split; [exact (read_to_lf_found b l1 l2 Hok Hleft Hl)|].
    split; [apply (read_to_lf_found_left b l1 l2 Hok Hleft) | reflexivity].
  - apply read_to_lf_none, Hok.
Qed.

Lemma read_to_lf_first_line_witness :
  Buffer_ok (mkBuffer [49; 10; 50; 0] 0 3) = true /\
  ((forall l1 l2, left_bytes (mkBuffer [49; 10; 50; 0] 0 3) = l1 ++ 10 :: l2 -> has_lf l1 = false ->
     exists b', read_to_lf (mkBuffer [49; 10; 50; 0] 0 3) = Some (Some (l1 ++ [10]), b')
                /\ left_bytes b' = l2 /\ data b' = data (mkBuffer [49; 10; 50; 0] 0 3))
  /\ (has_lf (left_bytes (mkBuffer [49; 10; 50; 0] 0 3)) = false ->
       read_to_lf (mkBuffer [49; 10; 50; 0] 0 3) = Some (None, mkBuffer [49; 10; 50; 0] 0 3))).
Proof.
  split; [reflexivity|]. apply read_to_lf_first_line. reflexivity.
Defined.

(** [trim_line_end] drops exactly the trailing run of [\r] and [\n]
    bytes: the input is the result followed by CR/LF bytes only, and the
    result is empty or ends with a byte that is neither. *)
Theorem trim_line_end_spec t :
  exists s, t = trim_line_end t ++ s /\ Forall (fun x => x = 13 \/ x = 10) s
  /\ (forall x, last (trim_line_end t) = Some x -> x <> 13 /\ x <> 10).
Proof.
  destruct (last_end_spec t (length t) (le_n _)) as (Hle & Hmid & Hlast).
  unfold trim_line_end. exists (drop (last_end t (length t)) t). split_and!.
  - symmetry. apply take_drop.
  - apply Forall_lookup_2. intros j x Hj. rewrite lookup_drop in Hj.
    pose proof (lookup_lt_Some _ _ _ Hj). apply (Hmid (last_end t (length t) + j)%nat x); [lia | exact Hj].
  - intros x Hx. rewrite last_lookup, length_take_le in Hx by exact Hle.
    destruct (last_end t (length t)) as [|j] eqn:He; [discriminate|].
    cbn [pred] in Hx. rewrite lookup_take_lt in Hx by lia.
    destruct (Hlast j eq_refl) as (y & Hy & Hy1 & Hy2). rewrite Hy in Hx.
    injection Hx as <-. auto.
Qed.

(** [ConnectionImpl::read_line] returns the first line of the bytes still
    to be read (those left in the buffer, then the reader's answers), up to
    its line feed and without its trailing CR/LF bytes, as long as the reads
    fit the buffer: the same line however the bytes are split into reads.
    It stops reading at that line and leaves the bytes after it unread. *)
Theorem read_line_next_line cs more b l rest :
  Buffer_ok b = true -> chunks_fit (length (data b)) cs = true ->
  left_bytes b ++ concat cs = l ++ 10 :: rest -> has_lf l = false ->
  exists cs' b',
    read_line (mkConnection (map Ok cs ++ more) b)
    = (Returned (line_result (l ++ [10])), mkConnection (map Ok cs' ++ more) b')
    /\ Buffer_ok b' = true /\ length (data b') = length (data b)
    /\ chunks_fit (length (data b')) cs' = true /\ left_bytes b' ++ concat cs' = rest.
Proof.
  intros Hok Hfit Hs Hl. unfold read_line. cbn [connection].
  apply (line_all _ cs more b [] l rest Hok Hfit Hs Hl).
  rewrite length_app, length_map. destruct (has_left b); lia.
Qed.

Lemma read_line_next_line_witness :
  Buffer_ok (Buffer_new 16) = true /\
  chunks_fit (length (data (Buffer_new 16))) [[49; 50]; [51; 13]; [10; 52; 53; 54]; [13; 10]] = true /\
  left_bytes (Buffer_new 16) ++ concat [[49; 50]; [51; 13]; [10; 52; 53; 54]; [13; 10]]
    = [49; 50; 51; 13] ++ 10 :: [52; 53; 54; 13; 10] /\
  has_lf [49; 50; 51; 13] = false /\
  exists cs' b',
    read_line (mkConnection (map Ok [[49; 50]; [51; 13]; [10; 52; 53; 54]; [13; 10]] ++ []) (Buffer_new 16))
    = (Returned (line_result ([49; 50; 51; 13] ++ [10])), mkConnection (map Ok cs' ++ []) b')
    /\ Buffer_ok b' = true /\ length (data b') = length (data (Buffer_new 16))
    /\ chunks_fit (length (data b')) cs' = true /\ left_bytes b' ++ concat cs' = [52; 53; 54; 13; 10].
Proof.
  split_and!; try reflexivity.
  apply (read_line_next_line [[49; 50]; [51; 13]; [10; 52; 53; 54]; [13; 10]] [] (Buffer_new 16)
           [49; 50; 51; 13] [52; 53; 54; 13; 10]); reflexivity.
Defined.

(** When the reader fails before a line feed comes, [read_line] returns
    its I/O error and the part of the line read so far is lost: nothing is
    left in the buffer. *)
Theorem read_line_io_error cs k more b :
  Buffer_ok b = true -> chunks_fit (length (data b)) cs = true ->
  has_lf (left_bytes b ++ concat cs) = false ->
  exists b',
    read_line (mkConnection (map Ok cs ++ Err k :: more) b)
    = (Returned (Err (IoError k)), mkConnection more b')
    /\ Buffer_ok b' = true /\ left_bytes b' = [].
Proof.
  intros Hok Hfit Hl. unfold read_line. cbn [connection].
  destruct (err_all (2 * length (map Ok cs ++ Err k :: more) + 2) cs k more b [] Hok Hfit Hl) as (b' & Hrun & Hok' & Hh');
    [rewrite length_app, length_map; destruct (has_left b); lia|].
  exists b'. split_and!; [exact Hrun | exact Hok' | apply left_bytes_nil, Hh'].
Qed.

Lemma read_line_io_error_witness :
  Buffer_ok (Buffer_new 16) = true /\
  chunks_fit (length (data (Buffer_new 16))) [[49; 50]; [51]] = true /\
  has_lf (left_bytes (Buffer_new 16) ++ concat [[49; 50]; [51]]) = false /\
  exists b',
    read_line (mkConnection (map Ok [[49; 50]; [51]] ++ Err TimedOut :: []) (Buffer_new 16))
    = (Returned (Err (IoError TimedOut)), mkConnection [] b')
    /\ Buffer_ok b' = true /\ left_bytes b' = [].
Proof.
  split_and!; try reflexivity.
  apply (read_line_io_error [[49; 50]; [51]] TimedOut [] (Buffer_new 16)); reflexivity.
Defined.

End SerialFacts.

Module ConnectFacts.
Import Echonet Parser Client ClientFacts.

(** ** What the client keeps: its peer address and property map *)

Definition env (st : Client) : option Ipv6Addr * option PropertyMap :=
  (address st, property_map st).

Definition keeps_env {A} (m : M A) : Prop := forall st, env (m st).2 = env st.

Lemma keeps_env_bind {A B} (m : M A) (k : A -> M B) :
  keeps_env m -> (forall a, keeps_env (k a)) -> keeps_env (bindM m k).
Proof.
  intros Hm Hk st. unfold bindM. specialize (Hm st).
  destruct (m st) as [[a|e| |] st']; simpl in *; [rewrite Hk|..]; assumption.
Qed.

Lemma keeps_env_ret {A} (a : A) : keeps_env (retM a).
Proof. intros st. reflexivity. Qed.

Lemma keeps_env_throw {A} e : keeps_env (A:=A) (throw e).
Proof. intros st. reflexivity. Qed.

Lemma keeps_env_now : keeps_env now.
Proof. intros [? ? c ? ? ? ? ?]. destruct c; reflexivity. Qed.

Lemma keeps_env_random_u16 : keeps_env random_u16.
Proof. intros [? ? ? r ? ? ? ?]. destruct r; reflexivity. Qed.

Lemma keeps_env_write w : keeps_env (write w).
Proof. intros st. reflexivity. Qed.

Lemma keeps_env_write_line l : keeps_env (write_line l).
Proof. intros st. reflexivity. Qed.

Lemma keeps_env_flush_messages : keeps_env flush_messages.
Proof. intros st. reflexivity. Qed.

Lemma keeps_env_get_message : keeps_env get_message.
Proof.
  intros st. unfold get_message.
  destruct (get_message_go _ _ _) as [o [[inp p] buf]]. reflexivity.
Qed.

Lemma keeps_env_search_on_buffer pred : keeps_env (search_on_buffer pred).
Proof.
  intros st. unfold search_on_buffer.
  destruct (list_find _ _) as [[i m]|]; reflexivity.
Qed.

Lemma keeps_env_wait_fn_body pred err_if c :
  keeps_env c -> keeps_env (wait_fn_body pred err_if c).
Proof.
  intros Hc st. unfold wait_fn_body.
  pose proof (keeps_env_get_message st) as Hg.
  destruct (get_message st) as [o st']. simpl in Hg.
  repeat case_match; simpl; rewrite ?Hc; assumption.
Qed.

Lemma keeps_env_wait_fn_loop fuel pred err_if timeout start :
  keeps_env (wait_fn_loop fuel pred err_if timeout start).
Proof.
  induction fuel as [|f IH]; [intros st; reflexivity|].
  cbn [wait_fn_loop]. destruct timeout as [t|].
  - apply keeps_env_bind; [apply keeps_env_now|].
    intros n. destruct (start + t <? n);
      [apply keeps_env_throw | apply keeps_env_wait_fn_body, IH].
  - apply keeps_env_wait_fn_body, IH.
Qed.

Lemma keeps_env_wait_fn pred err_if timeout : keeps_env (wait_fn pred err_if timeout).
Proof.
  unfold wait_fn. apply keeps_env_bind; [apply keeps_env_search_on_buffer|].
  intros [m|]; [apply keeps_env_ret|].
  apply keeps_env_bind; [apply keeps_env_now|].
  intros start st. apply keeps_env_wait_fn_loop.
Qed.

Lemma keeps_env_wait_ok : keeps_env wait_ok.
Proof. apply keeps_env_bind; [apply keeps_env_wait_fn | intros; apply keeps_env_ret]. Qed.

Create HintDb client_env.
#[local] Hint Resolve keeps_env_ret keeps_env_throw keeps_env_now keeps_env_random_u16
  keeps_env_write keeps_env_write_line keeps_env_flush_messages keeps_env_get_message
  keeps_env_search_on_buffer keeps_env_wait_fn keeps_env_wait_ok : client_env.

Local Ltac env_chain :=
  repeat (apply keeps_env_bind; [auto with client_env | intros]);
  repeat case_match; auto with client_env.

Lemma keeps_env_send_udp d : keeps_env (send_udp d).
Proof. intros st. unfold send_udp. destruct (address st); [|reflexivity]. revert st. env_chain. Qed.

Lemma keeps_env_check_property_exists {P} `{EchonetProperty P} (props : list P) :
  keeps_env (check_property_exists props).
Proof. intros st. unfold check_property_exists. repeat case_match; reflexivity. Qed.

Lemma keeps_env_wait_echonet_packet {P} `{EchonetProperty P} host pred timeout :
  keeps_env (wait_echonet_packet (P:=P) host pred timeout).
Proof. unfold wait_echonet_packet. env_chain. Qed.

#[local] Hint Resolve keeps_env_send_udp keeps_env_check_property_exists
  keeps_env_wait_echonet_packet : client_env.

Lemma keeps_env_get_properties {P} `{EchonetProperty P} host (props : list P) :
  keeps_env (get_properties host props).
Proof. unfold get_properties. env_chain. Qed.

Lemma keeps_env_scan_durations ds : keeps_env (scan_durations ds).
Proof.
  induction ds as [|i ds IH]; cbn [scan_durations]; [apply keeps_env_throw|].
  apply keeps_env_bind; [unfold scan_step; env_chain|]. intros [body|]; auto with client_env.
Qed.

#[local] Hint Resolve keeps_env_get_properties keeps_env_scan_durations : client_env.

Lemma keeps_env_set_password pw : keeps_env (set_password pw).
Proof. unfold set_password. env_chain. Qed.

Lemma keeps_env_set_bid bid : keeps_env (set_bid bid).
Proof. unfold set_bid. env_chain. Qed.

Lemma keeps_env_set_register r v : keeps_env (set_register r v).
Proof. unfold set_register. env_chain. Qed.

Lemma keeps_env_join a : keeps_env (join a).
Proof. unfold join. env_chain. Qed.

Lemma keeps_env_scan : keeps_env scan.
Proof. apply keeps_env_scan_durations. Qed.

Lemma bindM_Ret_inv {A B} (m : M A) (k : A -> M B) st b st' :
  bindM m k st = (Ret b, st') -> exists a st1, m st = (Ret a, st1) /\ k a st1 = (Ret b, st').
Proof.
  unfold bindM. destruct (m st) as [[a|e| |] st1]; intros E; try discriminate. eauto.
Qed.

Lemma env_eq st st' :
  env st' = env st -> address st' = address st /\ property_map st' = property_map st.
Proof. unfold env. intros E. injection E. auto. Qed.

(** How [get_property_map] ends: it stores the map parsed from the reply,
    or it fails and keeps the map it had. *)
Lemma get_property_map_cases host st o st' :
  get_property_map host st = (o, st') ->
  address st' = address st /\
  ((exists pkt st1 p m,
      get_properties host [GetPropertyMap] st = (Ret pkt, st1) /\
      get_property pkt GetPropertyMap = Some p /\ PropertyMap_parse (pdata p) = Ok m /\
      o = Ret tt /\ property_map st' = Some m)
   \/ (o <> Ret tt /\ property_map st' = property_map st)).
Proof.
  intros E. unfold get_property_map, bindM in E.
  pose proof (keeps_env_get_properties host [GetPropertyMap] st) as Henv.
  destruct (get_properties host [GetPropertyMap] st) as [[pkt|e| |] st1] eqn:Eg;
    cbn [snd] in Henv; apply env_eq in Henv as [Ha Hm].
  - destruct (get_property pkt GetPropertyMap) as [p|] eqn:Ep.
    + destruct (PropertyMap_parse (pdata p)) as [m|e] eqn:Eparse.
      * unfold set_property_map in E. injection E as <- <-. cbn [address property_map].
        split; [exact Ha|]. left. exists pkt, st1, p, m. auto.
      * injection E as <- <-. split; [exact Ha|]. right. split; [discriminate | exact Hm].
    + injection E as <- <-. split; [exact Ha|]. right. split; [discriminate | exact Hm].
  - injection E as <- <-. split; [exact Ha|]. right. split; [discriminate | exact Hm].
  - injection E as <- <-. split; [exact Ha|]. right. split; [discriminate | exact Hm].
  - injection E as <- <-. split; [exact Ha|]. right. split; [discriminate | exact Hm].
Qed.

(** [wait_fn] only returns a message that satisfies its predicate. *)
Lemma wait_fn_pred pred err_if timeout st m st' :
  wait_fn pred err_if timeout st = (Ret m, st') -> pred m = true.
Proof.
  intros E. unfold wait_fn, bindM at 1, search_on_buffer in E.
  destruct (list_find _ (message_buffer st)) as [[i x]|] eqn:Ef.
  - injection E as <- <-. apply list_find_Some in Ef as (_ & Hx & _). exact Hx.
  - destruct (now_reads_nothing st) as (n & st1 & En & _ & _ & _).
    unfold bindM in E. rewrite En in E.
    apply wait_fn_loop_found in E as (c & fresh & _ & _ & _ & _ & Hm). exact Hm.
Qed.

Lemma wait_echonet_packet_pred {P} `{EchonetProperty P} host pred timeout st e st' :
  wait_echonet_packet (P:=P) host pred timeout st = (Ret e, st') -> pred e = true.
Proof.
  intros E. unfold wait_echonet_packet in E.
  apply bindM_Ret_inv in E as (m & st1 & Ew & Ek).
  apply wait_fn_pred in Ew.
  destruct m as [| |[|[s d sp dp body]| |]]; try discriminate.
  cbn [udp_data] in *. destruct (EchonetPacket_parse host body) as [e'|]; [|discriminate].
  injection Ek as <- <-. exact Ew.
Qed.

Lemma check_property_exists_state {P} `{EchonetProperty P} (props : list P) st o st' :
  check_property_exists props st = (o, st') -> st' = st.
Proof. unfold check_property_exists. repeat case_match; intros E; injection E; auto. Qed.

Lemma EchonetObject_eqb_true a b : EchonetObject_eqb a b = true -> a = b.
Proof. destruct a, b; cbn; congruence. Qed.

(** A session of [connect]: the [OK]s of [SKSETPWD] and [SKSETRBID], a
    first scan that finds nothing and a second one that finds a PAN, the
    [OK]s of the two [SKSREG], the [OK] of [SKJOIN] and [EVENT 25] (PANA
    connection established), then the [OK] of [SKSENDTO] and the meter's
    reply to the property map request (transaction id 0x1234; the map lists
    0xE7 only). *)
Definition connect_input : list (result SerialError string) :=
  map Ok ["OK"; "OK"; "OK"; "EVENT 22 FE80:0000:0000:0000:1234:5678:90AB:CDEF";
          "OK"; "EPANDESC"; "  Channel:2F"; "  Channel Page:09"; "  Pan ID:3077";
          "  Addr:1234567890ABCDEF"; "  LQI:73"; "  PairID:01234567";
          "EVENT 22 FE80:0000:0000:0000:1234:5678:90AB:CDEF";
          "OK"; "OK"; "OK"; "EVENT 25 FE80:0000:0000:0000:1034:5678:90AB:CDEF"; "OK";
          "ERXUDP FE80:0000:0000:0000:1034:5678:90AB:CDEF FE80:0000:0000:0000:021D:1290:1234:5678 0E1A 0E1A 1234567890ABCDEF 1 0010 1081341202880105FF0172019F0201E7"].

Definition connect_client : Client :=
  mkClient connect_input [] [] [0x1234] WiSunModuleParser_new [] None None.

Definition connect_final : Client :=
  (connect LittleEndian "0123456789AB" "PASSWORD" connect_client).2.

(** A client connected to [meter_ip] that knows the meter has 0xE7, and
    the meter's answer to a read of 0xE7: 300 W (transaction id 0x1234). *)
Definition power_client : Client :=
  mkClient (map Ok ["OK";
    "ERXUDP FE80:0000:0000:0000:021D:1290:1234:5678 FE80:0000:0000:0000:021D:1290:1234:5678 0E1A 0E1A 001D129012345678 1 0012 1081341202880105FF017201E7040000012C"])
    [] [] [0x1234] WiSunModuleParser_new [] (Some meter_ip) (Some (mkPropertyMap {[0xE7]})).

Definition power_reply : EchonetPacket EchonetSmartMeterProperty :=
  mkEchonetPacket 0x10 0x81 0x1234
    (mkEdata SmartMeter HemsController ReadPropertyResponse
       [mkProperty InstantaneousElectricPower [0; 0; 1; 0x2C]]).

Definition power_final : Client :=
  (get_properties LittleEndian [InstantaneousElectricPower] power_client).2.

(** [i32::to_be_bytes] (and [u32::to_be_bytes]): the low 32 bits, most
    significant byte first. *)
Definition to_be_bytes32 (v : Z) : list Z :=
  [Z.land (Z.shiftr v 24) 255; Z.land (Z.shiftr v 16) 255;
   Z.land (Z.shiftr v 8) 255; Z.land v 255].

(** An [[u8; 8]] MAC address. *)
Definition is_mac (a : list Z) : bool :=
  (length a =? 8)%nat && forallb (fun x => (0 <=? x) && (x <? 256)) a.

(** A client that knows the meter has 0xE0, 0xE1 and 0xD3, and a reply to
    their read whose unit property 0xE1 has no data. *)
Definition energy_client : Client :=
  mkClient (map Ok ["OK";
    "ERXUDP FE80:0000:0000:0000:021D:1290:1234:5678 FE80:0000:0000:0000:021D:1290:1234:5678 0E1A 0E1A 001D129012345678 1 001A 1081341202880105FF017203E00400001234E100D30400000001"])
    [] [] [0x1234] WiSunModuleParser_new [] (Some meter_ip)
    (Some (mkPropertyMap {[0xE0; 0xE1; 0xD3]})).

Definition energy_reply : EchonetPacket EchonetSmartMeterProperty :=
  mkEchonetPacket 0x10 0x81 0x1234
    (mkEdata SmartMeter HemsController ReadPropertyResponse
       [mkProperty NormalDirectionCumulativeElectricEnergy [0; 0; 0x12; 0x34];
        mkProperty UnitForCumulativeElectricEnergy [];
        mkProperty Coefficient [0; 0; 0; 1]]).

Definition energy_final : Client :=
  (get_properties LittleEndian
     [NormalDirectionCumulativeElectricEnergy; UnitForCumulativeElectricEnergy; Coefficient]
     energy_client).2.

(** ** Properties of the client's commands *)

(** [WiSunClient::get_property_map] changes the stored property map only
    when it succeeds, and then stores the map parsed from the data of the
    0x9F property of the meter's reply; it never changes the peer address. *)
Theorem get_property_map_stores_map host st o st' :
  get_property_map host st = (o, st') ->
  address st' = address st /\
  ((exists pkt st1 p m,
      get_properties host [GetPropertyMap] st = (Ret pkt, st1) /\
      get_property pkt GetPropertyMap = Some p /\ PropertyMap_parse (pdata p) = Ok m /\
      o = Ret tt /\ property_map st' = Some m)
   \/ (o <> Ret tt /\ property_map st' = property_map st)).
Proof. apply get_property_map_cases. Qed.

Lemma get_property_map_stores_map_witness :
  get_property_map LittleEndian connect_client
    = (Throw (CommandError "address is not set"), (get_property_map LittleEndian connect_client).2) /\
  (address (get_property_map LittleEndian connect_client).2 = address connect_client /\
  ((exists pkt st1 p m,
      get_properties LittleEndian [GetPropertyMap] connect_client = (Ret pkt, st1) /\
      get_property pkt GetPropertyMap = Some p /\ PropertyMap_parse (pdata p) = Ok m /\
      Throw (CommandError "address is not set") = Ret tt /\
      property_map (get_property_map LittleEndian connect_client).2 = Some m)
   \/ (Throw (CommandError "address is not set") <> Ret tt /\
       property_map (get_property_map LittleEndian connect_client).2 = property_map connect_client))).
Proof.
  split; [vm_compute; reflexivity|].
  apply (get_property_map_stores_map LittleEndian connect_client
           (Throw (CommandError "address is not set")) (get_property_map LittleEndian connect_client).2).
  vm_compute. reflexivity.
Defined.

(** When [WiSunClient::connect] succeeds, the client talks to
    [get_ip(&pan.addr)] for the PAN that [scan] found after [set_password]
    and [set_bid], and it holds a property map. *)
Theorem connect_sets_address_and_map host bid pw st st' :
  connect host bid pw st = (Ret tt, st') ->
  exists s1 pan s2 m,
    bindM (set_password pw) (fun _ => set_bid bid) st = (Ret tt, s1) /\
    scan s1 = (Ret pan, s2) /\
    address st' = Some (get_ip (addr pan)) /\ property_map st' = Some m.
Proof.
  intros E. unfold connect in E.
  apply bindM_Ret_inv in E as ([] & s0 & E1 & E).
  apply bindM_Ret_inv in E as ([] & s1 & E2 & E).
  apply bindM_Ret_inv in E as (pan & s2 & E3 & E).
  apply bindM_Ret_inv in E as ([] & s3 & E4 & E).
  apply bindM_Ret_inv in E as ([] & s4 & E5 & E).
  apply bindM_Ret_inv in E as ([] & s5 & E6 & E).
  apply bindM_Ret_inv in E as ([] & s6 & E7 & E).
  apply bindM_Ret_inv in E as ([] & s7 & E8 & E).
  unfold retM in E. injection E as <-.
  unfold set_address in E7. injection E7 as <-.
  destruct (get_property_map_cases _ _ _ _ E8)
    as [Ha [(pkt & st1 & p & m & _ & _ & _ & _ & Hm) | [Hne _]]]; [|congruence].
  exists s1, pan, s2, m. split_and!.
  - rewrite (bindM_ret _ _ _ _ _ E1). exact E2.
  - exact E3.
  - rewrite Ha. reflexivity.
  - exact Hm.
Qed.

Lemma connect_sets_address_and_map_witness :
  connect LittleEndian "0123456789AB" "PASSWORD" connect_client = (Ret tt, connect_final) /\
  exists s1 pan s2 m,
    bindM (set_password "PASSWORD") (fun _ => set_bid "0123456789AB") connect_client = (Ret tt, s1) /\
    scan s1 = (Ret pan, s2) /\
    address connect_final = Some (get_ip (addr pan)) /\ property_map connect_final = Some m.
Proof.
  split; [vm_compute; reflexivity|].
  apply (connect_sets_address_and_map LittleEndian "0123456789AB" "PASSWORD" connect_client connect_final).
  vm_compute. reflexivity.
Defined.

(** [WiSunClient::get_properties] only returns a reply that carries the
    transaction id it drew with [rand::random] and goes from the smart
    meter to the HEMS controller. *)
Theorem get_properties_reply_matches {P} `{EchonetProperty P} host (props : list P) st pkt st' :
  get_properties host props st = (Ret pkt, st') ->
  transaction_id pkt = match random st with r :: _ => r mod 65536 | [] => 0 end /\
  source_object (data pkt) = SmartMeter /\ destination_object (data pkt) = HemsController.
Proof.
  intros E. unfold get_properties in E.
  apply bindM_Ret_inv in E as ([] & s0 & E1 & E).
  apply check_property_exists_state in E1 as ->.
  apply bindM_Ret_inv in E as (tid & s1 & E2 & E).
  apply bindM_Ret_inv in E as ([] & s2 & E3 & E).
  apply wait_echonet_packet_pred in E.
  apply andb_true_iff in E as [E Hs]. apply andb_true_iff in E as [Ht Hd].
  apply Z.eqb_eq in Ht. apply EchonetObject_eqb_true in Hs, Hd.
  split_and!; [|exact Hs | exact Hd]. rewrite Ht.
  unfold random_u16 in E2. destruct (random st); injection E2; auto.
Qed.

Lemma get_properties_reply_matches_witness :
  get_properties LittleEndian [InstantaneousElectricPower] power_client = (Ret power_reply, power_final) /\
  (transaction_id power_reply = match random power_client with r :: _ => r mod 65536 | [] => 0 end /\
   source_object (data power_reply) = SmartMeter /\ destination_object (data power_reply) = HemsController).
Proof.
  split; [vm_compute; reflexivity|].
  apply (get_properties_reply_matches LittleEndian [InstantaneousElectricPower] power_client
           power_reply power_final).
  vm_compute. reflexivity.
Defined.

Lemma be32_decode v :
  Z.shiftl (Z.land (Z.shiftr v 24) 255) 24 + Z.shiftl (Z.land (Z.shiftr v 16) 255) 16
  + Z.shiftl (Z.land (Z.shiftr v 8) 255) 8 + Z.land v 255 = v mod 2 ^ 32.
Proof.
  rewrite !Z.shiftl_mul_pow2, !Z.shiftr_div_pow2 by lia.
  change 255 with (Z.ones 8). rewrite !Z.land_ones by lia.
  change (2 ^ 8) with 256. change (2 ^ 16) with 65536. change (2 ^ 24) with 16777216.
  change (2 ^ 32) with 4294967296.
  pose proof (Z.div_mod v 256 ltac:(lia)) as H1.
  pose proof (Z.div_mod (v / 256) 256 ltac:(lia)) as H2.
  rewrite Z.div_div in H2 by lia.
  pose proof (Z.div_mod (v / 65536) 256 ltac:(lia)) as H3.
  rewrite Z.div_div in H3 by lia.
  pose proof (Z.div_mod (v / 16777216) 256 ltac:(lia)) as H4.
  rewrite Z.div_div in H4 by lia.
  pose proof (Z.mod_pos_bound v 256 ltac:(lia)).
  pose proof (Z.mod_pos_bound (v / 256) 256 ltac:(lia)).
  pose proof (Z.mod_pos_bound (v / 65536) 256 ltac:(lia)).
  pose proof (Z.mod_pos_bound (v / 16777216) 256 ltac:(lia)).
  apply (Z.mod_unique v 4294967296 (v / 4294967296)); [lia|].
  change (256 * 256) with 65536 in H2. change (65536 * 256) with 16777216 in H3.
  change (16777216 * 256) with 4294967296 in H4. lia.
Qed.

Lemma be32_get_i32_u32 {P} (e : P) v :
  -2 ^ 31 <= v < 2 ^ 31 ->
  get_i32 (mkProperty e (to_be_bytes32 v)) = Some v /\
  get_u32 (mkProperty e (to_be_bytes32 v)) = Some (v mod 2 ^ 32).
Proof.
  intros Hv.
  assert (Hu : get_u32 (mkProperty e (to_be_bytes32 v)) = Some (v mod 2 ^ 32)).
  { unfold get_u32, to_be_bytes32. cbn [pdata]. rewrite be32_decode. reflexivity. }
  split; [|exact Hu]. unfold get_i32. rewrite Hu. cbn [mbind option_bind]. f_equal.
  destruct (Z.le_gt_cases 0 v) as [Hp|Hn].
  - rewrite Z.mod_small by lia. destruct (Z.ltb_spec v (2 ^ 31)); lia.
  - rewrite <- (Z.mod_unique v (2 ^ 32) (-1) (v + 2 ^ 32)) by lia.
    destruct (Z.ltb_spec (v + 2 ^ 32) (2 ^ 31)); lia.
Qed.

(** [Property::get_u32] and [Property::get_i32] read back the four bytes
    of [to_be_bytes]: [get_u32] the value mod 2^32, [get_i32] every [i32]
    value, negative ones included (two's complement). *)
Theorem get_i32_to_be_bytes {P} (e : P) v :
  -2 ^ 31 <= v < 2 ^ 31 ->
  get_i32 (mkProperty e (to_be_bytes32 v)) = Some v /\
  get_u32 (mkProperty e (to_be_bytes32 v)) = Some (v mod 2 ^ 32).
Proof. exact (be32_get_i32_u32 e v). Qed.

Lemma get_i32_to_be_bytes_witness :
  -2 ^ 31 <= -1234 < 2 ^ 31 /\
  get_i32 (mkProperty InstantaneousElectricPower (to_be_bytes32 (-1234))) = Some (-1234) /\
  get_u32 (mkProperty InstantaneousElectricPower (to_be_bytes32 (-1234))) = Some ((-1234) mod 2 ^ 32).
Proof.
  split; [lia|]. apply (get_i32_to_be_bytes InstantaneousElectricPower (-1234)). lia.
Defined.

(** [WiSunClient::get_power_consumption] returns the signed big-endian
    value of the 0xE7 property of the meter's reply to its read request. *)
Theorem get_power_consumption_value host st pkt st1 pr v :
  get_properties host [InstantaneousElectricPower] st = (Ret pkt, st1) ->
  get_property pkt InstantaneousElectricPower = Some pr ->
  pdata pr = to_be_bytes32 v -> -2 ^ 31 <= v < 2 ^ 31 ->
  get_power_consumption host st = (Ret v, st1).
Proof.
  intros Eg Ep Ed Hv. unfold get_power_consumption. rewrite (bindM_ret _ _ _ _ _ Eg), Ep.
  destruct pr as [e d]. cbn [pdata] in Ed. subst d.
  rewrite (proj1 (be32_get_i32_u32 e v Hv)). reflexivity.
Qed.

Lemma get_power_consumption_value_witness :
  get_properties LittleEndian [InstantaneousElectricPower] power_client = (Ret power_reply, power_final) /\
  get_property power_reply InstantaneousElectricPower
    = Some (mkProperty InstantaneousElectricPower [0; 0; 1; 0x2C]) /\
  pdata (mkProperty InstantaneousElectricPower [0; 0; 1; 0x2C]) = to_be_bytes32 300 /\
  -2 ^ 31 <= 300 < 2 ^ 31 /\
  get_power_consumption LittleEndian power_client = (Ret 300, power_final).
Proof.
  split_and!; [vm_compute; reflexivity | reflexivity | reflexivity | lia | lia |].
  apply (get_power_consumption_value LittleEndian power_client power_reply power_final
           (mkProperty InstantaneousElectricPower [0; 0; 1; 0x2C]) 300);
    [vm_compute; reflexivity | reflexivity | reflexivity | lia].
Defined.

(** [WiSunClient::get_cumulative_electric_energy] panics (at
    [p.data[0]]) when the meter answers with a unit property 0xE1 that has
    no data, instead of returning an error. *)
Theorem get_cumulative_energy_empty_unit_panics host st pkt st1 pb base pu :
  get_properties host
    [NormalDirectionCumulativeElectricEnergy; UnitForCumulativeElectricEnergy; Coefficient] st
  = (Ret pkt, st1) ->
  get_property pkt NormalDirectionCumulativeElectricEnergy = Some pb -> get_u32 pb = Some base ->
  get_property pkt UnitForCumulativeElectricEnergy = Some pu -> pdata pu = [] ->
  get_cumulative_electric_energy host st = (Panicked, st1).
Proof.
  intros Eg Eb Hb Eu Hd. unfold get_cumulative_electric_energy.
  rewrite (bindM_ret _ _ _ _ _ Eg), Eb. cbn [option_map]. rewrite Hb, Eu, Hd. reflexivity.
Qed.

Lemma get_cumulative_energy_empty_unit_panics_witness :
  get_properties LittleEndian
    [NormalDirectionCumulativeElectricEnergy; UnitForCumulativeElectricEnergy; Coefficient]
    energy_client = (Ret energy_reply, energy_final) /\
  get_cumulative_electric_energy LittleEndian energy_client = (Panicked, energy_final).
Proof.
  split; [vm_compute; reflexivity|].
  apply (get_cumulative_energy_empty_unit_panics LittleEndian energy_client energy_reply energy_final
           (mkProperty NormalDirectionCumulativeElectricEnergy [0; 0; 0x12; 0x34]) 0x1234
           (mkProperty UnitForCumulativeElectricEnergy []));
    [vm_compute; reflexivity | reflexivity | reflexivity | reflexivity | reflexivity].
Defined.

(** [WiSunClient::get_ip] gives a link-local address ([fe80::/64]) and
    different MAC addresses give different IPv6 addresses. *)
Theorem get_ip_link_local a a' :
  is_mac a = true -> is_mac a' = true ->
  length (get_ip a) = 8%nat /\ take 4 (get_ip a) = [0xFE80; 0; 0; 0] /\
  (get_ip a = get_ip a' -> a = a').
Proof.
  intros Ha Ha'.
  destruct a as [|x0 [|x1 [|x2 [|x3 [|x4 [|x5 [|x6 [|x7 [|? ?]]]]]]]]]; try discriminate.
  destruct a' as [|y0 [|y1 [|y2 [|y3 [|y4 [|y5 [|y6 [|y7 [|? ?]]]]]]]]]; try discriminate.
  unfold is_mac in Ha, Ha'. cbn [forallb length Nat.eqb andb] in Ha, Ha'.
  repeat match goal with
         | H : (_ && _) = true |- _ => apply andb_true_iff in H as [? ?]
         | H : (_ <=? _) = true |- _ => apply Z.leb_le in H
         | H : (_ <? _) = true |- _ => apply Z.ltb_lt in H
         end.
  split_and!; [reflexivity | reflexivity |].
  unfold get_ip. cbn. rewrite !Z.shiftl_mul_pow2 by lia. intros E.
  injection E as E0 E1 E2 E3. change (2 ^ 8) with 256 in *.
  assert (Hx : Z.lxor x0 2 = Z.lxor y0 2) by lia.
  apply (f_equal (fun z => Z.lxor z 2)) in Hx.
  rewrite !Z.lxor_assoc, Z.lxor_nilpotent, !Z.lxor_0_r in Hx. subst y0.
  repeat f_equal; lia.
Qed.

Lemma get_ip_link_local_witness :
  is_mac [0x12; 0x34; 0x56; 0x78; 0x90; 0xAB; 0xCD; 0xEF] = true /\
  is_mac [0x10; 0x34; 0x56; 0x78; 0x90; 0xAB; 0xCD; 0xEF] = true /\
  length (get_ip [0x12; 0x34; 0x56; 0x78; 0x90; 0xAB; 0xCD; 0xEF]) = 8%nat /\
  take 4 (get_ip [0x12; 0x34; 0x56; 0x78; 0x90; 0xAB; 0xCD; 0xEF]) = [0xFE80; 0; 0; 0] /\
  (get_ip [0x12; 0x34; 0x56; 0x78; 0x90; 0xAB; 0xCD; 0xEF]
   = get_ip [0x10; 0x34; 0x56; 0x78; 0x90; 0xAB; 0xCD; 0xEF] ->
   [0x12; 0x34; 0x56; 0x78; 0x90; 0xAB; 0xCD; 0xEF] = [0x10; 0x34; 0x56; 0x78; 0x90; 0xAB; 0xCD; 0xEF]).
Proof.
  split; [reflexivity|]. split; [reflexivity|].
  apply get_ip_link_local; reflexivity.
Defined.

End ConnectFacts.

(** ** ECHONET Lite packet parsing: trailing bytes and headers *)
Module PacketFacts.
Import Echonet.

Section Parse.
Context {P : Type} `{EchonetProperty P}.

Lemma Property_parse_app bin extra n p :
  Property_parse bin = Ok (n, p) -> Property_parse (bin ++ extra) = Ok (n, p).
Proof.
  unfold Property_parse. destruct bin as [|b [|pdc rest]]; try discriminate.
  cbn [app]. destruct (prop_try_from_primitive b) as [e|]; [|discriminate].
  cbn [length]. rewrite length_app.
  destruct (Nat.ltb_spec (S (S (length rest))) (2 + Z.to_nat pdc)); [discriminate|].
  intros E. injection E as <- <-.
  destruct (Nat.ltb_spec (S (S (length rest + length extra))) (2 + Z.to_nat pdc)); [lia|].
  rewrite firstn_app. replace (Z.to_nat pdc - length rest)%nat with 0%nat by lia.
  rewrite firstn_O, app_nil_r. reflexivity.
Qed.

Lemma Property_parse_length bin n p :
  Property_parse bin = Ok (n, p) -> (2 <= n <= length bin)%nat.
Proof.
  unfold Property_parse. destruct bin as [|b [|pdc rest]]; try discriminate.
  destruct (prop_try_from_primitive b) as [e|]; [|discriminate].
  destruct (Nat.ltb_spec (length (b :: pdc :: rest)) (2 + Z.to_nat pdc)); [discriminate|].
  intros E. injection E as <- <-. lia.
Qed.

Lemma Edata_parse_properties_app n bin extra pos ps :
  Edata_parse_properties n bin pos = Ok ps ->
  Edata_parse_properties n (bin ++ extra) pos = Ok ps.
Proof.
  revert pos ps. induction n as [|n IH]; intros pos ps; cbn [Edata_parse_properties]; [auto|].
  destruct (Nat.leb_spec (length bin) pos); [discriminate|].
  rewrite length_app.
  destruct (Nat.leb_spec (length bin + length extra) pos); [lia|].
  rewrite drop_app_le by lia.
  destruct (Property_parse (drop pos bin)) as [[num prop]|e] eqn:Ep; [|discriminate].
  cbn [mbind result_bind]. rewrite (Property_parse_app _ _ _ _ Ep).
  destruct (Edata_parse_properties n bin (pos + num)) as [rest|e] eqn:Er; [|discriminate].
  cbn [mbind result_bind]. rewrite (IH _ _ Er). auto.
Qed.

Lemma Edata_parse_properties_count n bin pos ps :
  Edata_parse_properties n bin pos = Ok ps -> length ps = n.
Proof.
  revert pos ps. induction n as [|n IH]; intros pos ps; cbn [Edata_parse_properties].
  - intros E. injection E as <-. reflexivity.
  - destruct (length bin <=? pos)%nat; [discriminate|].
    destruct (Property_parse (drop pos bin)) as [[num prop]|e]; [|discriminate].
    cbn [mbind result_bind].
    destruct (Edata_parse_properties n bin (pos + num)) as [rest|e] eqn:Er; [|discriminate].
    intros E. injection E as <-. cbn [length]. rewrite (IH _ _ Er). reflexivity.
Qed.

Lemma Edata_parse_app bin extra d :
  Edata_parse bin = Ok d -> Edata_parse (bin ++ extra) = Ok d.
Proof.
  unfold Edata_parse.
  destruct bin as [|s0 [|s1 [|s2 [|d0 [|d1 [|d2 [|esv [|opc tl]]]]]]]]; try discriminate.
  cbn [app].
  destruct (EchonetObject_try_from s0 s1 s2); [|discriminate]. cbn [mbind result_bind].
  destruct (EchonetObject_try_from d0 d1 d2); [|discriminate]. cbn [mbind result_bind].
  destruct (EchonetService_try_from esv); [|discriminate]. cbn [mbind result_bind].
  destruct (Edata_parse_properties (Z.to_nat opc) (s0 :: s1 :: s2 :: d0 :: d1 :: d2 :: esv :: opc :: tl) 8)
    as [ps|err] eqn:Ep; [|discriminate].
  apply (Edata_parse_properties_app _ _ extra) in Ep. cbn [app] in Ep. rewrite Ep. auto.
Qed.

(** [EchonetPacket::parse] reads only the bytes its header and property
    counts ask for: bytes appended after a packet that parses are ignored
    and the same packet comes back. *)
Theorem EchonetPacket_parse_trailing host bin extra (p : EchonetPacket P) :
  EchonetPacket_parse host bin = Ok p -> EchonetPacket_parse host (bin ++ extra) = Ok p.
Proof.
  unfold EchonetPacket_parse. destruct bin as [|e1 [|e2 [|t0 [|t1 rest]]]]; try discriminate.
  cbn [app]. destruct (negb (e1 =? ECHONET_LITE_EHD1)); [discriminate|].
  destruct (negb (e2 =? ECHONET_FORMAT_1)); [discriminate|].
  destruct (Edata_parse rest) as [d|err] eqn:Ed; [|discriminate].
  rewrite (Edata_parse_app _ extra _ Ed). auto.
Qed.

(** A packet accepted by [EchonetPacket::parse] starts with EHD1 0x10 and
    EHD2 0x81, came from at least 12 bytes (the 4-byte header and the
    8-byte Edata header), and holds exactly OPC (byte 11) properties. *)
Theorem EchonetPacket_parse_header host bin (p : EchonetPacket P) :
  EchonetPacket_parse host bin = Ok p ->
  ehd1 p = 0x10 /\ ehd2 p = 0x81 /\ (12 <= length bin)%nat /\
  length (properties (data p)) = Z.to_nat (nth 11 bin 0).
Proof.
  unfold EchonetPacket_parse. destruct bin as [|e1 [|e2 [|t0 [|t1 rest]]]]; try discriminate.
  destruct (Z.eqb_spec e1 ECHONET_LITE_EHD1); [|discriminate].
  destruct (Z.eqb_spec e2 ECHONET_FORMAT_1); [|discriminate]. cbn [negb].
  destruct (Edata_parse rest) as [d|err] eqn:Ed; [|discriminate].
  intros E. injection E as <-. cbn [ehd1 ehd2 data]. subst e1 e2.
  unfold Edata_parse in Ed.
  destruct rest as [|s0 [|s1 [|s2 [|d0 [|d1 [|d2 [|esv [|opc tl]]]]]]]]; try discriminate.
  destruct (EchonetObject_try_from s0 s1 s2); [|discriminate]. cbn [mbind result_bind] in Ed.
  destruct (EchonetObject_try_from d0 d1 d2); [|discriminate]. cbn [mbind result_bind] in Ed.
  destruct (EchonetService_try_from esv); [|discriminate]. cbn [mbind result_bind] in Ed.
  destruct (Edata_parse_properties _ _ 8) as [ps|err] eqn:Ep; [|discriminate].
  injection Ed as <-. cbn [properties length nth].
  split_and!; [reflexivity | reflexivity | lia |].
  exact (Edata_parse_properties_count _ _ _ _ Ep).
Qed.

End Parse.

(** The reply of [power_client]'s session, then a stray byte. *)
Definition power_reply_bytes : list Z :=
  [0x10; 0x81; 0x34; 0x12; 0x02; 0x88; 0x01; 0x05; 0xFF; 0x01; 0x72; 0x01;
   0xE7; 0x04; 0; 0; 1; 0x2C].

Lemma EchonetPacket_parse_trailing_witness :
  EchonetPacket_parse (P := EchonetSmartMeterProperty) LittleEndian power_reply_bytes
    = Ok ConnectFacts.power_reply /\
  EchonetPacket_parse (P := EchonetSmartMeterProperty) LittleEndian (power_reply_bytes ++ [0xAA])
    = Ok ConnectFacts.power_reply.
Proof.
  split; [reflexivity|]. apply EchonetPacket_parse_trailing. reflexivity.
Defined.

Lemma EchonetPacket_parse_header_witness :
  EchonetPacket_parse (P := EchonetSmartMeterProperty) LittleEndian power_reply_bytes
    = Ok ConnectFacts.power_reply /\
  (ehd1 ConnectFacts.power_reply = 0x10 /\ ehd2 ConnectFacts.power_reply = 0x81 /\
   (12 <= length power_reply_bytes)%nat /\
   length (properties (data ConnectFacts.power_reply)) = Z.to_nat (nth 11 power_reply_bytes 0)).
Proof.
  split; [reflexivity|]. apply (EchonetPacket_parse_header LittleEndian). reflexivity.
Defined.

End PacketFacts.

(** ** The line parser on an EPANDESC block *)
Module PanDescFacts.
Import Parser Client ClientFacts.

#[local] Arguments String.append : simpl nomatch.

(** The number of occurrences of the character [c] in [s]. *)
Fixpoint count_char (c : Ascii.ascii) (s : string) : nat :=
  match s with
  | EmptyString => 0
  | String d s' => ((if Ascii.eqb c d then 1 else 0) + count_char c s')%nat
  end.

(** The text [add_line] has accumulated after the line ["EPANDESC"] and
    the continuation lines [ls]: [format!("{}\n{}", l, line)] per line. *)
Definition pan_desc_text (ls : list string) : string :=
  fold_left (fun acc l => String.append acc (String "010"%char l)) ls "EPANDESC".

Lemma str_app_assoc a b c :
  String.append (String.append a b) c = String.append a (String.append b c).
Proof. induction a as [|x a IH]; cbn; [reflexivity | now rewrite IH]. Qed.

Lemma str_app_nil_r a : String.append a EmptyString = a.
Proof. induction a as [|x a IH]; cbn; [reflexivity | now rewrite IH]. Qed.

Lemma rev_str_acc s acc : Str.rev_str s acc = String.append (Str.rev_str s EmptyString) acc.
Proof.
  revert acc. induction s as [|x s IH]; intros acc; cbn; [reflexivity|].
  rewrite IH, (IH (String x EmptyString)), str_app_assoc. reflexivity.
Qed.

Lemma rev_str_app a b :
  Str.rev_str (String.append a b) EmptyString
  = String.append (Str.rev_str b EmptyString) (Str.rev_str a EmptyString).
Proof.
  induction a as [|x a IH]; cbn.
  - now rewrite str_app_nil_r.
  - rewrite rev_str_acc, IH, str_app_assoc, <- (rev_str_acc a). reflexivity.
Qed.

Lemma rev_str_involutive s : Str.rev_str (Str.rev_str s EmptyString) EmptyString = s.
Proof.
  induction s as [|x s IH]; cbn; [reflexivity|].
  rewrite (rev_str_acc s (String x EmptyString)), rev_str_app, IH. reflexivity.
Qed.

Lemma trim_start_suffix s : exists w, s = String.append w (Str.trim_start s).
Proof.
  induction s as [|x s IH]; cbn; [now exists EmptyString|].
  destruct (Str.is_whitespace x).
  - destruct IH as [w Hw]. exists (String x w). cbn. now rewrite <- Hw.
  - now exists EmptyString.
Qed.

Lemma trim_start_app x y :
  Str.trim_start (String.append x y)
  = match Str.trim_start x with
    | EmptyString => Str.trim_start y
    | s => String.append s y
    end.
Proof.
  induction x as [|c x IH]; cbn; [reflexivity|].
  destruct (Str.is_whitespace c); [exact IH | reflexivity].
Qed.

Lemma trim_end_prefix t : exists v, t = String.append (Str.trim_end t) v.
Proof.
  destruct (trim_start_suffix (Str.rev_str t EmptyString)) as [w Hw].
  exists (Str.rev_str w EmptyString). unfold Str.trim_end.
  rewrite <- rev_str_app, <- Hw, rev_str_involutive. reflexivity.
Qed.

Lemma trim_end_epandesc t :
  Str.trim_end (String.append "EPANDESC" t) = String.append "EPANDESC" (Str.trim_end t).
Proof.
  unfold Str.trim_end. rewrite rev_str_app, trim_start_app.
  destruct (Str.trim_start (Str.rev_str t EmptyString)) as [|a s]; [reflexivity|].
  rewrite rev_str_app. reflexivity.
Qed.

Lemma fold_text_init ls a :
  fold_left (fun acc l => String.append acc (String "010"%char l)) ls a
  = String.append a (fold_left (fun acc l => String.append acc (String "010"%char l)) ls EmptyString).
Proof.
  revert a. induction ls as [|l ls IH]; intros a; cbn [fold_left].
  - now rewrite str_app_nil_r.
  - rewrite IH, (IH (String.append EmptyString _)), str_app_assoc. reflexivity.
Qed.

Lemma pan_desc_text_shape ls :
  exists T, pan_desc_text ls = String.append "EPANDESC" T /\
            (T = EmptyString \/ exists u, T = String "010"%char u).
Proof.
  unfold pan_desc_text. rewrite fold_text_init. eexists; split; [reflexivity|].
  destruct ls as [|l ls]; [now left|]. right. cbn [fold_left].
  rewrite fold_text_init. eexists. reflexivity.
Qed.

Lemma split_go_length c s cur :
  length (Str.split_go (Str.is_char c) s cur) = S (count_char c s).
Proof.
  revert cur. induction s as [|d s IH]; intros cur; cbn; [reflexivity|].
  unfold Str.is_char. destruct (Ascii.eqb c d); cbn; rewrite IH; reflexivity.
Qed.

Lemma count_char_app c a b :
  count_char c (String.append a b) = (count_char c a + count_char c b)%nat.
Proof. induction a as [|d a IH]; cbn; [reflexivity | rewrite IH; lia]. Qed.

Lemma count_text ls a :
  Forall (fun l => count_char "010" l = 0%nat) ls ->
  count_char "010" (fold_left (fun acc l => String.append acc (String "010"%char l)) ls a)
  = (count_char "010" a + length ls)%nat.
Proof.
  revert a. induction ls as [|l ls IH]; intros a Hls; cbn [fold_left length]; [lia|].
  apply Forall_cons in Hls as [Hl Hls]. rewrite IH by exact Hls.
  rewrite count_char_app. cbn [count_char]. rewrite Hl. cbn. lia.
Qed.

Lemma pan_desc_pieces ls :
  Forall (fun l => count_char "010" l = 0%nat) ls ->
  length (Str.split (Str.is_char "010") (pan_desc_text ls)) = S (length ls).
Proof.
  intros Hls. unfold Str.split. rewrite split_go_length. unfold pan_desc_text.
  rewrite count_text by exact Hls. reflexivity.
Qed.

Lemma pan_desc_text_snoc done l :
  String.append (pan_desc_text done) (String "010"%char l) = pan_desc_text (done ++ [l]).
Proof. unfold pan_desc_text. rewrite fold_left_app. reflexivity. Qed.

Lemma event_parse_pan_desc ls :
  WiSunEvent_parse (pan_desc_text ls) = Some (parse_pan_desc (pan_desc_text ls)).
Proof.
  destruct (pan_desc_text_shape ls) as [T [Hd HT]].
  assert (Htrim : Str.trim (pan_desc_text ls) = String.append "EPANDESC" (Str.trim_end T)).
  { rewrite Hd. unfold Str.trim.
    change (Str.trim_start (String.append "EPANDESC" T)) with (String.append "EPANDESC" T).
    apply trim_end_epandesc. }
  assert (Hparts : exists rest,
    map Str.trim (Str.split is_space_or_lf (Str.trim (pan_desc_text ls))) = "EPANDESC" :: rest).
  { rewrite Htrim. destruct (trim_end_prefix T) as [v Hv].
    destruct (Str.trim_end T) as [|c u] eqn:Ete.
    - exists []. reflexivity.
    - assert (c = "010"%char) as ->.
      { destruct HT as [->|[u' ->]]; cbn in Hv; [discriminate | congruence]. }
      eexists. reflexivity. }
  destruct Hparts as [rest Hp].
  unfold WiSunEvent_parse. rewrite Hp, Hd. reflexivity.
Qed.

Lemma serial_parse_pan_desc ls :
  SerialMessage_parse (pan_desc_text ls)
  = Some (match parse_pan_desc (pan_desc_text ls) with
          | POk ev => POk (SEvent ev)
          | PErr _ => PErr (pan_desc_text ls)
          | PMore => PMore
          | PEmpty => PEmpty
          end).
Proof.
  destruct (pan_desc_text_shape ls) as [T [Hd _]].
  assert (Hok : String.eqb (pan_desc_text ls) "OK" = false) by (rewrite Hd; reflexivity).
  assert (Hfail : Str.strip_prefix "FAIL " (pan_desc_text ls) = None) by (rewrite Hd; reflexivity).
  unfold SerialMessage_parse. rewrite Hok, Hfail, event_parse_pan_desc. reflexivity.
Qed.

Lemma add_line_pending acc l :
  add_line (mkParser (Some acc)) l
  = (r ← SerialMessage_parse (String.append acc (String "010"%char l));
     Some (match r with
           | PMore => (PMore, mkParser (Some (String.append acc (String "010"%char l))))
           | r => (r, mkParser None)
           end)).
Proof. reflexivity. Qed.

Lemma pan_desc_more d :
  length (Str.split (Str.is_char "010") d) <> 7%nat -> parse_pan_desc d = PMore.
Proof.
  unfold parse_pan_desc.
  destruct (Str.split (Str.is_char "010") d) as [|? [|? [|? [|? [|? [|? [|? [|? ?]]]]]]]];
    cbn [length]; intros Hn; [reflexivity .. | lia | reflexivity].
Qed.

Lemma pan_desc_seven d :
  length (Str.split (Str.is_char "010") d) = 7%nat -> parse_pan_desc d <> PMore.
Proof.
  unfold parse_pan_desc.
  destruct (Str.split (Str.is_char "010") d) as [|? [|? [|? [|? [|? [|? [|? [|? ?]]]]]]]];
    cbn [length]; intros Hn; try lia.
  repeat case_match; discriminate.
Qed.

Lemma block_prefix rest done :
  Forall (fun l => count_char "010" l = 0%nat) (done ++ rest) ->
  (length (done ++ rest) < 6)%nat ->
  read_messages (map Ok rest) (mkParser (Some (pan_desc_text done)))
  = Some ([], mkParser (Some (pan_desc_text (done ++ rest)))).
Proof.
  revert done. induction rest as [|l rest IH]; intros done HF Hlen.
  - cbn. rewrite app_nil_r. reflexivity.
  - cbn [map read_messages]. rewrite add_line_pending, pan_desc_text_snoc.
    assert (HF' : Forall (fun l => count_char "010" l = 0%nat) ((done ++ [l]) ++ rest))
      by (rewrite <- app_assoc; exact HF).
    apply Forall_app in HF' as HF2. destruct HF2 as [HF1 _].
    rewrite serial_parse_pan_desc, pan_desc_more.
    2: { rewrite pan_desc_pieces by exact HF1. rewrite length_app in *. cbn [length] in *. lia. }
    cbn [mbind option_bind].
    rewrite (IH (done ++ [l])) by (exact HF' || (rewrite <- app_assoc; exact Hlen)).
    rewrite <- app_assoc. reflexivity.
Qed.

Lemma block_last done l :
  Forall (fun l => count_char "010" l = 0%nat) (done ++ [l]) ->
  length (done ++ [l]) = 6%nat ->
  read_messages (map Ok [l]) (mkParser (Some (pan_desc_text done)))
  = Some (match parse_pan_desc (pan_desc_text (done ++ [l])) with
          | POk ev => [SEvent ev]
          | _ => []
          end, WiSunModuleParser_new).
Proof.
  intros HF Hlen. cbn [map read_messages].
  rewrite add_line_pending, pan_desc_text_snoc, serial_parse_pan_desc.
  assert (H7 : parse_pan_desc (pan_desc_text (done ++ [l])) <> PMore).
  { apply pan_desc_seven. rewrite pan_desc_pieces by exact HF. lia. }
  destruct (parse_pan_desc (pan_desc_text (done ++ [l]))); [reflexivity | reflexivity | reflexivity | congruence].
Qed.

Lemma read_epandesc :
  read_messages (map Ok ["EPANDESC"]) WiSunModuleParser_new
  = Some ([], mkParser (Some (pan_desc_text []))).
Proof. reflexivity. Qed.

(** [WiSunModuleParser::add_line] keeps an EPANDESC block pending until
    its six continuation lines have arrived: after ["EPANDESC"] and fewer
    than six lines (none holding a line feed) no message is complete and
    the lines joined by line feeds are pending; the sixth line completes
    the block, which is classified once by [parse_pan_desc], leaving no
    pending text. *)
Theorem add_line_pan_desc_block ls :
  length ls = 6%nat -> Forall (fun l => count_char "010" l = 0%nat) ls ->
  (forall k, (k < 6)%nat ->
     read_messages (map Ok ("EPANDESC" :: take k ls)) WiSunModuleParser_new
     = Some ([], mkParser (Some (pan_desc_text (take k ls))))) /\
  read_messages (map Ok ("EPANDESC" :: ls)) WiSunModuleParser_new
  = Some (match parse_pan_desc (pan_desc_text ls) with
          | POk ev => [SEvent ev]
          | _ => []
          end, WiSunModuleParser_new).
Proof.
  intros Hlen HF. split.
  - intros k Hk. change ("EPANDESC" :: take k ls) with (["EPANDESC"] ++ take k ls).
    rewrite map_app.
    rewrite (read_messages_app _ _ _ [] _ [] _ read_epandesc
               (block_prefix (take k ls) [] (Forall_take _ _ _ HF)
                  ltac:(cbn [app]; rewrite length_take; lia))).
    reflexivity.
  - destruct ls as [|l1 [|l2 [|l3 [|l4 [|l5 [|l6 [|? ?]]]]]]]; cbn in Hlen; try lia.
    change [l1; l2; l3; l4; l5; l6] with ([l1; l2; l3; l4; l5] ++ [l6]) in HF.
    pose proof HF as HF5. apply Forall_app in HF5 as [HF5 _].
    change ("EPANDESC" :: [l1; l2; l3; l4; l5; l6])
      with (["EPANDESC"] ++ [l1; l2; l3; l4; l5] ++ [l6]).
    rewrite !map_app.
    rewrite (read_messages_app _ _ _ [] _ _ WiSunModuleParser_new read_epandesc
               (read_messages_app _ _ _ [] _ _ WiSunModuleParser_new
                  (block_prefix [l1; l2; l3; l4; l5] [] HF5 ltac:(cbn; lia))
                  (block_last [l1; l2; l3; l4; l5] l6 HF eq_refl))).
    reflexivity.
Qed.

(** The continuation lines of the EPANDESC block of the repository's tests. *)
Definition pan_desc_lines : list string :=
  ["  Channel:20"; "  Channel Page:09"; "  Pan ID:3077"; "  Addr:1234567890ABCDEF";
   "  LQI:73"; "  PairID:01234567"].

Lemma add_line_pan_desc_block_witness :
  length pan_desc_lines = 6%nat /\
  Forall (fun l => count_char "010" l = 0%nat) pan_desc_lines /\
  ((forall k, (k < 6)%nat ->
     read_messages (map Ok ("EPANDESC" :: take k pan_desc_lines)) WiSunModuleParser_new
     = Some ([], mkParser (Some (pan_desc_text (take k pan_desc_lines))))) /\
   read_messages (map Ok ("EPANDESC" :: pan_desc_lines)) WiSunModuleParser_new
   = Some (match parse_pan_desc (pan_desc_text pan_desc_lines) with
           | POk ev => [SEvent ev]
           | _ => []
           end, WiSunModuleParser_new)).
Proof.
  split; [reflexivity|]. split; [repeat constructor|].
  apply add_line_pan_desc_block; [reflexivity | repeat constructor].
Defined.

End PanDescFacts.

(** ** The client's IPv6 text and the IPv6 parser *)
Module Ipv6Facts.
Import Parser Client ClientFacts PanDescFacts.

#[local] Arguments String.append : simpl nomatch.

(** The digit [fmt_radix_go] writes for [d] in base 16. *)
Definition hex_char (d : Z) : Ascii.ascii :=
  Ascii.ascii_of_nat (Z.to_nat (if d <? 10 then 48 + d else 55 + d)).

Lemma hex_char_spec d :
  0 <= d < 16 -> Str.hex_digit (hex_char d) = Some d /\ Ascii.eqb ":" (hex_char d) = false.
Proof.
  intros Hd. assert (Hk : exists k, d = Z.of_nat k /\ (k < 16)%nat) by (exists (Z.to_nat d); lia).
  destruct Hk as [k [-> Hk]].
  do 16 (destruct k as [|k]; [split; reflexivity|]). lia.
Qed.

Lemma str_length_app a b :
  String.length (String.append a b) = (String.length a + String.length b)%nat.
Proof. induction a as [|c a IH]; cbn; [reflexivity | now rewrite IH]. Qed.

Lemma fmt_go_spec fuel : forall n acc,
  (1 <= fuel)%nat -> 0 <= n < 16 ^ Z.of_nat fuel ->
  exists ds, fmt_radix_go fuel 16 n acc = String.append ds acc /\
    (1 <= String.length ds)%nat /\
    (forall k, n < 16 ^ Z.of_nat k -> (String.length ds <= Nat.max 1 k)%nat) /\
    count_char ":" ds = 0%nat /\
    (forall t v, Str.hex_value_go (String.append ds t) v
                 = Str.hex_value_go t (v * 16 ^ Z.of_nat (String.length ds) + n)).
Proof.
  induction fuel as [|f IH]; intros n acc Hf Hn; [lia|].
  cbn [fmt_radix_go]. fold (hex_char (n mod 16)).
  pose proof (Z.mod_pos_bound n 16 ltac:(lia)) as Hm.
  destruct (hex_char_spec (n mod 16) Hm) as [Hdig Hcol].
  destruct (Z.ltb_spec n 16) as [Hlt|Hge].
  - exists (String (hex_char (n mod 16)) EmptyString). split_and!.
    + reflexivity.
    + cbn. lia.
    + intros k _. cbn. lia.
    + cbn [count_char]. rewrite Hcol. reflexivity.
    + intros t v. cbn [String.append String.length Str.hex_value_go]. rewrite Hdig.
      cbn [mbind option_bind]. rewrite Z.mod_small by lia. f_equal; lia.
  - assert (Hf' : (1 <= f)%nat).
    { destruct f; [cbn in Hn; lia | lia]. }
    assert (Hq : 0 <= n / 16 < 16 ^ Z.of_nat f).
    { split; [apply Z.div_pos; lia|]. apply Z.div_lt_upper_bound; [lia|].
      rewrite Nat2Z.inj_succ, Z.pow_succ_r in Hn by lia. lia. }
    destruct (IH (n / 16) (String (hex_char (n mod 16)) acc) Hf' Hq)
      as [ds [Hds [Hlen [Hmin [Hcnt Hval]]]]].
    exists (String.append ds (String (hex_char (n mod 16)) EmptyString)). split_and!.
    + rewrite Hds, str_app_assoc. reflexivity.
    + rewrite str_length_app. lia.
    + intros k Hk. rewrite str_length_app. cbn [String.length].
      destruct k as [|[|k]]; [cbn in Hk; lia | cbn in Hk; lia |].
      assert (Hk' : n / 16 < 16 ^ Z.of_nat (S k)).
      { apply Z.div_lt_upper_bound; [lia|].
        rewrite (Nat2Z.inj_succ (S k)), Z.pow_succ_r in Hk by lia. lia. }
      specialize (Hmin _ Hk'). lia.
    + rewrite count_char_app, Hcnt. cbn [count_char]. rewrite Hcol. reflexivity.
    + intros t v. rewrite str_app_assoc.
      change (String.append (String (hex_char (n mod 16)) EmptyString) t)
        with (String (hex_char (n mod 16)) t).
      rewrite Hval. cbn [Str.hex_value_go]. rewrite Hdig. cbn [mbind option_bind].
      f_equal. rewrite str_length_app. cbn [String.length].
      rewrite Nat2Z.inj_add, Z.pow_add_r by lia. cbn [Z.of_nat Z.pow].
      pose proof (Z.div_mod n 16 ltac:(lia)). lia.
Qed.

Lemma pad_zeros_value k s v :
  v = 0 -> Str.hex_value_go (pad_zeros k s) v = Str.hex_value_go s v.
Proof. intros ->. induction k as [|k IH]; [reflexivity|]. exact IH. Qed.

Lemma pad_zeros_length k s : String.length (pad_zeros k s) = (k + String.length s)%nat.
Proof. induction k as [|k IH]; cbn; [reflexivity | now rewrite IH]. Qed.

Lemma pad_zeros_count k s : count_char ":" (pad_zeros k s) = count_char ":" s.
Proof. induction k as [|k IH]; [reflexivity|]. exact IH. Qed.

(** [format!("{:04X}", g)] of a 16-bit segment: four hex digits, no
    colon, reading back as [g]. *)
Lemma fmt_hex_segment g :
  0 <= g < 65536 ->
  String.length (fmt_hex_upper 4 g) = 4%nat /\ count_char ":" (fmt_hex_upper 4 g) = 0%nat /\
  Str.hex_value_go (fmt_hex_upper 4 g) 0 = Some g.
Proof.
  intros Hg. destruct (fmt_go_spec 64 g EmptyString ltac:(lia) ltac:(split; [lia|]; cbn; lia))
    as [ds [Hds [Hlen [Hmin [Hcnt Hval]]]]].
  assert (H4 : (String.length ds <= 4)%nat) by (specialize (Hmin 4%nat ltac:(cbn; lia)); lia).
  unfold fmt_hex_upper. rewrite Hds, str_app_nil_r. split_and!.
  - rewrite pad_zeros_length. lia.
  - rewrite pad_zeros_count. exact Hcnt.
  - rewrite pad_zeros_value by reflexivity. rewrite <- (str_app_nil_r ds), Hval. cbn. f_equal; lia.
Qed.

Lemma count_cons_colon c s :
  count_char ":" (String c s) = 0%nat -> Ascii.eqb ":" c = false /\ count_char ":" s = 0%nat.
Proof. cbn [count_char]. destruct (Ascii.eqb ":" c); cbn; lia. Qed.

Lemma split_go_no_colon x s cur :
  count_char ":" x = 0%nat ->
  Str.split_go (Str.is_char ":") (String.append x s) cur
  = Str.split_go (Str.is_char ":") s (Str.rev_str x cur).
Proof.
  revert cur. induction x as [|c x IH]; intros cur Hx; [reflexivity|].
  apply count_cons_colon in Hx as [Hc Hx].
  cbn [String.append Str.split_go]. unfold Str.is_char at 1. rewrite Hc. apply IH, Hx.
Qed.

Lemma split_join_colon rest x :
  Forall (fun p => count_char ":" p = 0%nat) (x :: rest) ->
  Str.split (Str.is_char ":") (join_colon (x :: rest)) = x :: rest.
Proof.
  unfold Str.split. revert x. induction rest as [|y rest IH]; intros x HF;
    apply Forall_cons in HF as [Hx HF].
  - change (join_colon [x]) with x. rewrite <- (str_app_nil_r x) at 1.
    rewrite split_go_no_colon by exact Hx. cbn. rewrite rev_str_involutive. reflexivity.
  - change (join_colon (x :: y :: rest)) with (String.append x (String ":" (join_colon (y :: rest)))).
    rewrite split_go_no_colon by exact Hx. cbn [Str.split_go]. unfold Str.is_char at 1.
    cbn [Ascii.eqb Bool.eqb]. rewrite rev_str_involutive, IH by exact HF. reflexivity.
Qed.

Lemma find_double_colon_cons c s b :
  Ascii.eqb ":" c = false -> find_double_colon (String c s) b = find_double_colon s (String c b).
Proof.
  intros Hc. destruct c as [[] [] [] [] [] [] [] []]; try reflexivity; discriminate.
Qed.

Lemma find_double_colon_colon c s b :
  Ascii.eqb ":" c = false ->
  find_double_colon (String ":" (String c s)) b = find_double_colon (String c s) (String ":" b).
Proof.
  intros Hc. destruct c as [[] [] [] [] [] [] [] []]; try reflexivity; discriminate.
Qed.

Lemma find_double_colon_skip x s b :
  count_char ":" x = 0%nat ->
  exists b', find_double_colon (String.append x s) b = find_double_colon s b'.
Proof.
  revert b. induction x as [|c x IH]; intros b Hx; [now exists b|].
  apply count_cons_colon in Hx as [Hc Hx].
  cbn [String.append]. rewrite find_double_colon_cons by exact Hc. apply IH, Hx.
Qed.

Lemma join_colon_head x rest : exists tl, join_colon (x :: rest) = String.append x tl.
Proof.
  destruct rest as [|y rest].
  - exists EmptyString. cbn [join_colon]. now rewrite str_app_nil_r.
  - eexists. reflexivity.
Qed.

Lemma find_double_colon_join rest x b :
  Forall (fun p => p <> EmptyString /\ count_char ":" p = 0%nat) (x :: rest) ->
  find_double_colon (join_colon (x :: rest)) b = None.
Proof.
  revert x b. induction rest as [|y rest IH]; intros x b HF;
    apply Forall_cons in HF as [[_ Hx] HF].
  - change (join_colon [x]) with x. rewrite <- (str_app_nil_r x).
    destruct (find_double_colon_skip x EmptyString b Hx) as [b' ->]. reflexivity.
  - change (join_colon (x :: y :: rest)) with (String.append x (String ":" (join_colon (y :: rest)))).
    destruct (find_double_colon_skip x (String ":" (join_colon (y :: rest))) b Hx) as [b' ->].
    pose proof (Forall_inv HF) as [Hy Hyc].
    destruct (join_colon_head y rest) as [tl Htl]. rewrite Htl.
    destruct y as [|c y]; [congruence|].
    apply count_cons_colon in Hyc as [Hc _]. cbn [String.append].
    rewrite find_double_colon_colon by exact Hc.
    change (String c (String.append y tl)) with (String.append (String c y) tl).
    rewrite <- Htl. apply IH, HF.
Qed.

Lemma groups_of_segments ip :
  Forall (fun g => 0 <= g < 65536) ip ->
  mapM (fun g => if (1 <=? String.length g)%nat && (String.length g <=? 4)%nat
                 then Str.hex_value_go g 0 else None)
       (map (fmt_hex_upper 4) ip) = Some ip.
Proof.
  induction ip as [|g ip IH]; intros HF; [reflexivity|].
  apply Forall_cons in HF as [Hg HF].
  destruct (fmt_hex_segment g Hg) as [Hlen [_ Hval]].
  cbn [map mapM]. rewrite Hlen, Hval, IH by exact HF. reflexivity.
Qed.

(** [<Ipv6Addr as FromStr>::from_str] reads back the address the client
    writes with [ipv6_addr_full_string] (eight [{:04X}] segments joined by
    colons), as in the SKSENDTO and SKJOIN commands. *)
Theorem ipv6_addr_full_string_parse ip :
  length ip = 8%nat -> Forall (fun g => 0 <= g < 65536) ip ->
  Ipv6Addr_from_str (ipv6_addr_full_string ip) = Some ip.
Proof.
  intros Hlen HF.
  assert (Hseg : Forall (fun p => p <> EmptyString /\ count_char ":" p = 0%nat)
                        (map (fmt_hex_upper 4) ip)).
  { apply Forall_map. eapply Forall_impl; [exact HF|]. intros g Hg.
    destruct (fmt_hex_segment g Hg) as [Hl [Hc _]]. split; [|exact Hc].
    intros E. rewrite E in Hl. discriminate. }
  destruct ip as [|g ip]; [discriminate|].
  unfold Ipv6Addr_from_str, ipv6_addr_full_string. cbn [map] in Hseg |- *.
  rewrite find_double_colon_join by exact Hseg.
  assert (Hsplit := split_join_colon (map (fmt_hex_upper 4) ip) (fmt_hex_upper 4 g)
                      (Forall_impl _ _ _ Hseg (fun p Hp => proj2 Hp))).
  destruct (join_colon_head (fmt_hex_upper 4 g) (map (fmt_hex_upper 4) ip)) as [tl Htl].
  pose proof (Forall_inv Hseg) as [Hne _].
  cbn [map]. cbn [map] in Hsplit. rewrite Htl in Hsplit |- *.
  destruct (fmt_hex_upper 4 g) as [|c s] eqn:Eg; [congruence|].
  cbn [String.append]. unfold ipv6_groups.
  change (String c (String.append s tl)) with (String.append (String c s) tl).
  rewrite Hsplit, <- Eg.
  change (fmt_hex_upper 4 g :: map (fmt_hex_upper 4) ip) with (map (fmt_hex_upper 4) (g :: ip)).
  rewrite groups_of_segments by exact HF. cbn [mbind option_bind]. rewrite Hlen. reflexivity.
Qed.

Lemma ipv6_addr_full_string_parse_witness :
  length meter_ip = 8%nat /\ Forall (fun g => 0 <= g < 65536) meter_ip /\
  Ipv6Addr_from_str (ipv6_addr_full_string meter_ip) = Some meter_ip.
Proof.
  split; [reflexivity|]. split; [repeat constructor; lia|].
  apply ipv6_addr_full_string_parse; [reflexivity | repeat constructor; lia].
Defined.

End Ipv6Facts.

(** ** [wait_ok] on a FAIL response *)
Module WaitFacts.
Import Parser Client ClientFacts.

Lemma add_line_fail s :
  add_line WiSunModuleParser_new (String.append "FAIL " s)
  = Some (POk (SFail (Str.trim s)), WiSunModuleParser_new).
Proof. reflexivity. Qed.

Lemma wait_fn_body_fail cont inp out clk rnd p buf a pm line rest code p' :
  inp = Ok line :: rest ->
  add_line p line = Some (POk (SFail code), p') ->
  wait_fn_body is_ok_message err_when_fail cont (mkClient inp out clk rnd p buf a pm)
  = (Throw (CommandError code), mkClient rest out clk rnd p' (buf ++ [SFail code]) a pm).
Proof.
  intros -> Hadd. unfold wait_fn_body, get_message.
  cbn [get_message_go serial_input serial_parser message_buffer]. rewrite Hadd.
  cbn [message_buffer]. rewrite last_snoc. reflexivity.
Qed.

(** [WiSunClient::wait_ok] fails with the module's [FAIL] code: when no
    buffered message is [OK] and the next line read is ["FAIL " ++ s], it
    returns [CommandError(s.trim())] and leaves the [FAIL] message at the
    end of [message_buffer]. *)
Theorem wait_ok_fail (st : Client) s rest :
  serial_parser st = WiSunModuleParser_new ->
  Forall (fun m => is_ok_message m = false) (message_buffer st) ->
  serial_input st = Ok (String.append "FAIL " s) :: rest ->
  exists st', wait_ok st = (Throw (CommandError (Str.trim s)), st') /\
    serial_input st' = rest /\
    message_buffer st' = message_buffer st ++ [SFail (Str.trim s)].
Proof.
  destruct st as [inp out clk rnd p buf a pm]. cbn [serial_parser message_buffer serial_input].
  intros -> Hbuf ->.
  assert (Hfind : list_find (fun m => is_ok_message m = true) buf = None).
  { apply list_find_None. eapply Forall_impl; [exact Hbuf|]. intros m Hm. congruence. }
  pose proof (add_line_fail s) as Hadd. remember (String.append "FAIL " s) as line eqn:Hl.
  clear Hl. remember (Str.trim s) as code eqn:Hc. clear Hc.
  destruct clk as [|t ts]; eexists; unfold wait_ok, wait_fn, bindM, search_on_buffer;
    cbn [message_buffer]; rewrite Hfind; cbn -[add_line WiSunModuleParser_new];
    (rewrite (wait_fn_body_fail _ _ _ _ _ _ _ _ _ line rest code _ eq_refl Hadd);
     split_and!; reflexivity).
Qed.

Lemma wait_ok_fail_witness :
  serial_parser (client_with_input [Ok "FAIL ER04"]) = WiSunModuleParser_new /\
  Forall (fun m => is_ok_message m = false) (message_buffer (client_with_input [Ok "FAIL ER04"])) /\
  serial_input (client_with_input [Ok "FAIL ER04"]) = Ok (String.append "FAIL " "ER04") :: [] /\
  exists st', wait_ok (client_with_input [Ok "FAIL ER04"]) = (Throw (CommandError (Str.trim "ER04")), st') /\
    serial_input st' = [] /\
    message_buffer st' = message_buffer (client_with_input [Ok "FAIL ER04"]) ++ [SFail (Str.trim "ER04")].
Proof.
  split_and!; [reflexivity | constructor | reflexivity |].
  apply wait_ok_fail; [reflexivity | constructor | reflexivity].
Defined.

End WaitFacts.

(** ** The passes of the scan *)
Module ScanFacts.
Import Echonet Parser Client ClientFacts PanDescFacts.

#[local] Arguments String.append : simpl nomatch.

(** The body of the first [PanDesc] of [ms]. *)
Fixpoint first_pan_desc (ms : list SerialMessage) : option PanDescBody :=
  match ms with
  | [] => None
  | SEvent (PanDesc b) :: _ => Some b
  | _ :: ms' => first_pan_desc ms'
  end.

(** No line of [ls] holds a line feed. *)
Definition lf_free (ls : list string) : Prop := Forall (fun l => count_char "010" l = 0%nat) ls.

(** The six continuation lines of the EPANDESC block and the [EVENT 22]
    line of the repository's [scan] test. *)
Definition scan_pan_lines : list string :=
  ["  Channel:2F"; "  Channel Page:09"; "  Pan ID:3077"; "  Addr:1234567890ABCDEF";
   "  LQI:73"; "  PairID:01234567"].

Definition scan_event_line : string := "EVENT 22 FE80:0000:0000:0000:1234:5678:90AB:CDEF".

Definition scan_event_message : SerialMessage :=
  SEvent (Event (mkEventBody FinishedActiveScan [0xFE80; 0; 0; 0; 0x1234; 0x5678; 0x90AB; 0xCDEF])).

Definition scan_test_body : PanDescBody :=
  mkPanDescBody 0x2F 0x3077 [0x12; 0x34; 0x56; 0x78; 0x90; 0xAB; 0xCD; 0xEF].

(** A pass in which the EPANDESC block arrives between the [OK] and the
    [EVENT 22]. *)
Definition scan_pass_client : Client :=
  client_with_input (map Ok ("OK" :: "EPANDESC" :: scan_pan_lines) ++ [Ok scan_event_line]).

Definition scan_pass_final (i : Z) : Client :=
  mkClient [] [scan_line i] [] [] WiSunModuleParser_new [] None None.

Definition scan_first_pass_state : Client := (scan_step 4 (client_with_input scan_test_input)).2.

Lemma first_pan_desc_app l1 l2 :
  first_pan_desc (l1 ++ l2)
  = match first_pan_desc l1 with Some b => Some b | None => first_pan_desc l2 end.
Proof.
  induction l1 as [|x l1 IH]; [reflexivity|].
  destruct x as [| |[]]; cbn; auto.
Qed.

Lemma first_pan_desc_skip x l :
  is_pan_desc x = false -> first_pan_desc (x :: l) = first_pan_desc l.
Proof. destruct x as [| |[]]; cbn; congruence. Qed.

Lemma finished_not_pan_desc x : is_finished_active_scan x = true -> is_pan_desc x = false.
Proof. destruct x as [| |[]]; cbn; congruence. Qed.

Lemma search_pan_desc_result st desc st' :
  search_on_buffer is_pan_desc st = (Ret desc, st') ->
  match desc with Some (SEvent (PanDesc body)) => Some body | _ => None end
  = first_pan_desc (message_buffer st).
Proof.
  unfold search_on_buffer. intros E.
  assert (H : forall l, match list_find (fun m => is_pan_desc m = true) l with
                        | Some (_, m) => match m with SEvent (PanDesc body) => Some body | _ => None end
                        | None => None end = first_pan_desc l).
  { induction l as [|x l IH]; [reflexivity|].
    cbn [list_find]. destruct x as [| |[]]; cbn; rewrite <- ?IH;
      destruct (list_find _ l) as [[]|]; reflexivity. }
  rewrite <- H. destruct (list_find _ _) as [[j m]|]; injection E as <- <-; reflexivity.
Qed.

Lemma search_pan_desc_reads st desc st' :
  search_on_buffer is_pan_desc st = (Ret desc, st') ->
  serial_input st' = serial_input st /\ serial_parser st' = serial_parser st.
Proof.
  unfold search_on_buffer. intros E.
  destruct (list_find _ _) as [[j m]|]; injection E as <- <-; split; reflexivity.
Qed.

Lemma wait_fn_reads pred err_if timeout st m st' :
  wait_fn pred err_if timeout st = (Ret m, st') ->
  (exists j, message_buffer st !! j = Some m /\ pred m = true /\
     message_buffer st' = delete j (message_buffer st) /\
     serial_input st' = serial_input st /\ serial_parser st' = serial_parser st) \/
  (Forall (fun x => pred x = false) (message_buffer st) /\ loop_found pred err_if st m st').
Proof.
  intros E. unfold wait_fn, bindM at 1, search_on_buffer in E.
  destruct (list_find _ (message_buffer st)) as [[j x]|] eqn:Ef.
  - injection E as <- <-. left.
    apply list_find_Some in Ef as (Hl & Hx & _).
    exists j. split_and!; auto.
  - right. split.
    + apply list_find_None in Ef. eapply Forall_impl; [exact Ef|].
      intros y Hy. simpl in Hy. destruct (pred y); [exfalso; apply Hy; reflexivity|reflexivity].
    + destruct (now_reads_nothing st) as (n & st1 & En & Hi & Hp & Hb).
      unfold bindM in E. rewrite En in E.
      apply wait_fn_loop_found in E.
      exact (loop_found_same_reads _ _ _ _ _ _ Hi Hp Hb E).
Qed.

Lemma first_pan_desc_delete l j x :
  l !! j = Some x -> is_pan_desc x = false ->
  first_pan_desc (delete j l) = first_pan_desc l.
Proof.
  intros Hj Hx. rewrite delete_take_drop.
  assert (Hl : first_pan_desc l = first_pan_desc (take j l ++ x :: drop (S j) l))
    by (rewrite take_drop_middle by exact Hj; reflexivity).
  rewrite Hl, !first_pan_desc_app, first_pan_desc_skip by exact Hx. reflexivity.
Qed.

(** A pass of the [scan] loop that returns [r]: after its [SKSCAN] line it
    read the lines [c1], on which the parser completed [ms1] and then the
    [OK]; then the lines [c2], completing [ms2]; the [EVENT 22] is either
    among [ms1] (and [c2] is empty) or the last message of [ms2]; [r] is
    the first [PanDesc] among [ms1 ++ ms2]. *)
Lemma scan_step_reads i st r st' :
  scan_step i st = (Ret r, st') ->
  exists c1 ms1 p1 c2 ms2,
    serial_input st = c1 ++ c2 ++ serial_input st' /\
    serial_output st' = serial_output st ++ [scan_line i] /\
    read_messages c1 (serial_parser st) = Some (ms1 ++ [SOk], p1) /\
    Forall (fun x => is_ok_message x = false /\ err_when_fail x = None) ms1 /\
    read_messages c2 p1 = Some (ms2, serial_parser st') /\
    ((c2 = [] /\ ms2 = [] /\ Exists (fun x => is_finished_active_scan x = true) ms1) \/
     (exists ms2' ev, ms2 = ms2' ++ [ev] /\ is_finished_active_scan ev = true /\
        Forall (fun x => is_finished_active_scan x = false) ms1 /\
        Forall (fun x => is_finished_active_scan x = false /\ err_when_fail x = None) ms2')) /\
    r = first_pan_desc (ms1 ++ ms2).
Proof.
  intros E. pose proof (scan_step_output _ _ _ _ E) as Hout.
  unfold scan_step in E.
  erewrite bindM_ret in E by reflexivity.
  erewrite bindM_ret in E by reflexivity.
  set (st2 := mkClient _ _ _ _ _ _ _ _) in E.
  unfold bindM at 1 in E. destruct (wait_ok st2) as [[u| | |] st3] eqn:Eok; try discriminate.
  unfold wait_ok, bindM at 1 in Eok.
  destruct (wait_fn is_ok_message err_when_fail None st2) as [[mo| | |] st3'] eqn:Eok';
    try discriminate. injection Eok as Eok. subst st3'.
  destruct (wait_fn_reads _ _ _ _ _ _ Eok') as [(j & Hj & _)|(_ & Hok)];
    [cbn in Hj; rewrite lookup_nil in Hj; discriminate|].
  destruct Hok as (c1 & ms1 & Hi1 & Hr1 & Hb1 & Hf1 & Hm1).
  change (serial_input st2) with (serial_input st) in Hi1.
  change (serial_parser st2) with (serial_parser st) in Hr1.
  destruct mo; try discriminate.
  unfold bindM at 1 in E.
  destruct (wait_fn is_finished_active_scan err_when_fail None st3) as [[ev| | |] st4] eqn:Eev;
    try discriminate.
  unfold bindM at 1 in E.
  destruct (search_on_buffer is_pan_desc st4) as [[desc| | |] st5] eqn:Es; try discriminate.
  assert (Hr : r = match desc with Some (SEvent (PanDesc body)) => Some body | _ => None end)
    by (destruct desc as [[| |[]]|]; cbn in E; injection E; intros; subst; reflexivity).
  assert (Hst5 : st5 = st') by (destruct desc as [[| |[]]|]; cbn in E; injection E; intros; subst; reflexivity).
  subst st5. rewrite (search_pan_desc_result _ _ _ Es) in Hr.
  destruct (search_pan_desc_reads _ _ _ Es) as [Hi5 Hp5].
  unfold st2 in Hb1. cbn [message_buffer set_buffer app] in Hb1.
  destruct (wait_fn_reads _ _ _ _ _ _ Eev) as [(j & Hj & Hev & Hb4 & Hi4 & Hp4)|(Hnf & Hev)].
  - exists c1, ms1, (serial_parser st3), [], []. split_and!.
    + rewrite Hi5, Hi4. exact Hi1.
    + exact Hout.
    + exact Hr1.
    + exact Hf1.
    + rewrite Hp5, Hp4. reflexivity.
    + left. split_and!; [reflexivity | reflexivity|].
      rewrite Hb1 in Hj. apply Exists_exists. exists ev. split; [|exact Hev].
      eapply list_elem_of_lookup_2. exact Hj.
    + rewrite Hr, Hb4, Hb1, app_nil_r. apply first_pan_desc_delete with ev.
      * rewrite <- Hb1. exact Hj.
      * apply finished_not_pan_desc, Hev.
  - destruct Hev as (c2 & ms2 & Hi2 & Hr2 & Hb2 & Hf2 & Hm2).
    exists c1, ms1, (serial_parser st3), c2, (ms2 ++ [ev]). split_and!.
    + rewrite Hi1, Hi2, Hi5. reflexivity.
    + exact Hout.
    + exact Hr1.
    + exact Hf1.
    + rewrite Hp5. exact Hr2.
    + right. exists ms2, ev. split_and!; auto. rewrite <- Hb1. exact Hnf.
    + rewrite Hr, Hb2, Hb1, app_assoc, (first_pan_desc_app (ms1 ++ ms2) [ev]).
      rewrite first_pan_desc_skip by (apply finished_not_pan_desc, Hm2).
      cbn. destruct (first_pan_desc (ms1 ++ ms2)); reflexivity.
Qed.

Lemma add_line_block_more done l :
  lf_free (done ++ [l]) -> (length (done ++ [l]) < 6)%nat ->
  add_line (mkParser (Some (pan_desc_text done))) l
  = Some (PMore, mkParser (Some (pan_desc_text (done ++ [l])))).
Proof.
  intros HF Hlen. rewrite add_line_pending, pan_desc_text_snoc, serial_parse_pan_desc, pan_desc_more.
  - reflexivity.
  - rewrite pan_desc_pieces by exact HF. lia.
Qed.

Lemma add_line_block_last done l ev :
  lf_free (done ++ [l]) -> length (done ++ [l]) = 6%nat ->
  parse_pan_desc (pan_desc_text (done ++ [l])) = POk ev ->
  add_line (mkParser (Some (pan_desc_text done))) l = Some (POk (SEvent ev), WiSunModuleParser_new).
Proof.
  intros HF Hlen Hp. rewrite add_line_pending, pan_desc_text_snoc, serial_parse_pan_desc, Hp.
  reflexivity.
Qed.

Lemma get_message_go_block ls ev rest buf :
  length ls = 6%nat -> lf_free ls -> parse_pan_desc (pan_desc_text ls) = POk ev ->
  get_message_go (map Ok ("EPANDESC" :: ls) ++ rest) WiSunModuleParser_new buf
  = (Ret true, (rest, WiSunModuleParser_new, buf ++ [SEvent ev])).
Proof.
  intros Hlen HF Hp.
  destruct ls as [|l1 [|l2 [|l3 [|l4 [|l5 [|l6 [|? ?]]]]]]]; cbn in Hlen; try lia.
  assert (HF' := HF). unfold lf_free in HF'.
  repeat (apply Forall_cons in HF' as [? HF']).
  cbn [map app get_message_go].
  change (add_line WiSunModuleParser_new "EPANDESC")
    with (Some (@PMore SerialMessage, mkParser (Some (pan_desc_text [])))).
  cbn [get_message_go].
  rewrite (add_line_block_more [] l1) by (unfold lf_free; cbn; repeat constructor; auto).
  cbn [app get_message_go].
  rewrite (add_line_block_more [l1] l2) by (unfold lf_free; cbn; repeat constructor; auto).
  cbn [app get_message_go].
  rewrite (add_line_block_more [l1; l2] l3) by (unfold lf_free; cbn; repeat constructor; auto).
  cbn [app get_message_go].
  rewrite (add_line_block_more [l1; l2; l3] l4) by (unfold lf_free; cbn; repeat constructor; auto).
  cbn [app get_message_go].
  rewrite (add_line_block_more [l1; l2; l3; l4] l5) by (unfold lf_free; cbn; repeat constructor; auto).
  cbn [app get_message_go].
  rewrite (add_line_block_last [l1; l2; l3; l4; l5] l6 ev) by (exact HF || reflexivity || exact Hp).
  reflexivity.
Qed.

Lemma wait_ok_first_line inp out clk rnd a pm :
  wait_ok (mkClient (Ok "OK" :: inp) out clk rnd WiSunModuleParser_new [] a pm)
  = (Ret tt, mkClient inp out (drop 1 clk) rnd WiSunModuleParser_new [] a pm).
Proof. destruct clk; reflexivity. Qed.

Lemma wait_finished_after_block ls b e m rest out clk rnd a pm :
  length ls = 6%nat -> lf_free ls -> parse_pan_desc (pan_desc_text ls) = POk (PanDesc b) ->
  add_line WiSunModuleParser_new e = Some (POk m, WiSunModuleParser_new) ->
  is_finished_active_scan m = true ->
  wait_fn is_finished_active_scan err_when_fail None
    (mkClient (map Ok ("EPANDESC" :: ls) ++ Ok e :: rest) out clk rnd WiSunModuleParser_new [] a pm)
  = (Ret m, mkClient rest out (drop 1 clk) rnd WiSunModuleParser_new [SEvent (PanDesc b)] a pm).
Proof.
  intros Hlen HF Hp He Hm.
  assert (Hlen' : length (map Ok ("EPANDESC" :: ls) ++ Ok e :: rest)
                  = S (S (length (map Ok ls ++ rest)))).
  { rewrite !length_app, !length_map. cbn [length]. lia. }
  unfold wait_fn, bindM, search_on_buffer. cbn [message_buffer list_find].
  assert (Hnow : exists st1, now (mkClient (map Ok ("EPANDESC" :: ls) ++ Ok e :: rest) out clk rnd
                                   WiSunModuleParser_new [] a pm)
                   = (Ret (hd 0 clk), st1) /\
                 st1 = mkClient (map Ok ("EPANDESC" :: ls) ++ Ok e :: rest) out (drop 1 clk) rnd
                         WiSunModuleParser_new [] a pm).
  { destruct clk; eexists; split; reflexivity. }
  destruct Hnow as (st1 & -> & ->). cbn [serial_input]. rewrite Hlen'.
  cbn [wait_fn_loop]. unfold wait_fn_body at 1, get_message.
  cbn [serial_input serial_parser message_buffer].
  rewrite (get_message_go_block ls (PanDesc b) (Ok e :: rest) [] Hlen HF Hp).
  cbn [message_buffer app last]. cbn [is_finished_active_scan err_when_fail].
  unfold wait_fn_body, get_message. cbn [serial_input serial_parser message_buffer get_message_go].
  rewrite He. cbn [message_buffer app last]. rewrite Hm. reflexivity.
Qed.

(** A pass reading [OK], an EPANDESC block and then an [EVENT 22]
    returns the block's [PanDesc]. *)
Lemma scan_step_block_before_event i ls b e m rest st :
  serial_parser st = WiSunModuleParser_new ->
  serial_input st = map Ok ("OK" :: "EPANDESC" :: ls) ++ Ok e :: rest ->
  length ls = 6%nat -> lf_free ls -> parse_pan_desc (pan_desc_text ls) = POk (PanDesc b) ->
  add_line WiSunModuleParser_new e = Some (POk m, WiSunModuleParser_new) ->
  is_finished_active_scan m = true ->
  scan_step i st
  = (Ret (Some b), mkClient rest (serial_output st ++ [scan_line i]) (drop 2 (clock st))
                     (random st) WiSunModuleParser_new [] (address st) (property_map st)).
Proof.
  destruct st as [inp out clk rnd p buf a pm]. cbn [serial_parser serial_input serial_output
    clock random address property_map].
  intros -> -> Hlen HF Hp He Hm. unfold scan_step.
  erewrite bindM_ret by reflexivity.
  erewrite bindM_ret by reflexivity.
  erewrite bindM_ret by (cbn [set_buffer serial_input serial_output clock random serial_parser
                          message_buffer address property_map map app];
                         apply wait_ok_first_line).
  erewrite bindM_ret by (apply (wait_finished_after_block ls b e m rest); assumption).
  erewrite bindM_ret by reflexivity.
  cbn. rewrite drop_drop. reflexivity.
Qed.

(** Claim C9: [scan] runs the passes of durations 4, 5, 6, 7, 8, 9 in this
    order.  A pass that returns [r] has written exactly its
    [SKSCAN 2 FFFFFFFF <i>] line; it then read input up to the completion
    of an [OK] (messages completed before it, none [OK] or [FAIL], are
    kept), then up to the completion of an [EVENT 22] (unless one was
    already kept), and nothing more; [r] is the first [PanDesc] among all
    messages completed after the [SKSCAN] line, those completed before the
    [EVENT 22] included.  So a pass reading [OK], an EPANDESC block and
    then the [EVENT 22] returns that [PanDesc], and so does [scan] when
    its first pass reads them.  [scan] returns [body] exactly when some
    pass yields [body] after all earlier passes yielded none; when the six
    passes all yield none, it fails with [ScanError].  On the input of the
    repository's [scan] test it returns the [PanDesc] after writing the
    lines for 4 and 5. *)
Theorem scan_order :
  scan = scan_durations scan_durations_used /\
  (forall st body st',
     scan st = (Ret body, st') <->
     exists pre i post st1,
       scan_durations_used = pre ++ i :: post /\ run_steps_none pre st = Some st1 /\
       scan_step i st1 = (Ret (Some body), st')) /\
  (forall st st',
     run_steps_none scan_durations_used st = Some st' ->
     scan st = (Throw (ScanError "pan not found"), st') /\
     serial_output st' = serial_output st ++ map scan_line scan_durations_used) /\
  (forall i st r st',
     scan_step i st = (Ret r, st') ->
     exists c1 ms1 p1 c2 ms2,
       serial_input st = c1 ++ c2 ++ serial_input st' /\
       serial_output st' = serial_output st ++ [scan_line i] /\
       read_messages c1 (serial_parser st) = Some (ms1 ++ [SOk], p1) /\
       Forall (fun x => is_ok_message x = false /\ err_when_fail x = None) ms1 /\
       read_messages c2 p1 = Some (ms2, serial_parser st') /\
       ((c2 = [] /\ ms2 = [] /\ Exists (fun x => is_finished_active_scan x = true) ms1) \/
        (exists ms2' ev, ms2 = ms2' ++ [ev] /\ is_finished_active_scan ev = true /\
           Forall (fun x => is_finished_active_scan x = false) ms1 /\
           Forall (fun x => is_finished_active_scan x = false /\ err_when_fail x = None) ms2')) /\
       r = first_pan_desc (ms1 ++ ms2)) /\
  (forall i ls b e m rest st,
     serial_parser st = WiSunModuleParser_new ->
     serial_input st = map Ok ("OK" :: "EPANDESC" :: ls) ++ Ok e :: rest ->
     length ls = 6%nat -> lf_free ls -> parse_pan_desc (pan_desc_text ls) = POk (PanDesc b) ->
     add_line WiSunModuleParser_new e = Some (POk m, WiSunModuleParser_new) ->
     is_finished_active_scan m = true ->
     scan_step i st
     = (Ret (Some b), mkClient rest (serial_output st ++ [scan_line i]) (drop 2 (clock st))
                        (random st) WiSunModuleParser_new [] (address st) (property_map st)) /\
     scan st
     = (Ret b, mkClient rest (serial_output st ++ [scan_line 4]) (drop 2 (clock st))
                 (random st) WiSunModuleParser_new [] (address st) (property_map st))) /\
  scan (client_with_input scan_test_input)
  = (Ret scan_test_body, mkClient [] [scan_line 4; scan_line 5] [] [] WiSunModuleParser_new [] None None).
Proof.
  split_and!.
  - reflexivity.
  - intros st body st'. apply scan_durations_ret.
  - intros st st' E. split.
    + apply scan_durations_fail, E.
    + apply run_steps_none_output, E.
  - apply scan_step_reads.
  - intros i ls b e m rest st Hp Hi Hlen HF Hb He Hm. split.
    + eapply scan_step_block_before_event; eassumption.
    + change scan with (scan_durations (4 :: [5; 6; 7; 8; 9])). cbn [scan_durations].
      erewrite bindM_ret by (eapply scan_step_block_before_event; eassumption).
      reflexivity.
  - vm_compute. reflexivity.
Qed.

Lemma scan_order_witness :
  run_steps_none scan_durations_used (client_with_input scan_all_fail_input)
    = Some (mkClient [] (map scan_line scan_durations_used) [] [] WiSunModuleParser_new []
              None None) /\
  scan (client_with_input scan_all_fail_input)
    = (Throw (ScanError "pan not found"),
       mkClient [] (map scan_line scan_durations_used) [] [] WiSunModuleParser_new [] None None) /\
  (exists pre i post st1,
     scan_durations_used = pre ++ i :: post /\
     run_steps_none pre (client_with_input scan_test_input) = Some st1 /\
     scan_step i st1
     = (Ret (Some scan_test_body),
        mkClient [] [scan_line 4; scan_line 5] [] [] WiSunModuleParser_new [] None None)) /\
  scan_step 4 (client_with_input scan_test_input) = (Ret None, scan_first_pass_state) /\
  (exists c1 ms1 p1 c2 ms2,
     serial_input (client_with_input scan_test_input) = c1 ++ c2 ++ serial_input scan_first_pass_state /\
     serial_output scan_first_pass_state
       = serial_output (client_with_input scan_test_input) ++ [scan_line 4] /\
     read_messages c1 (serial_parser (client_with_input scan_test_input)) = Some (ms1 ++ [SOk], p1) /\
     Forall (fun x => is_ok_message x = false /\ err_when_fail x = None) ms1 /\
     read_messages c2 p1 = Some (ms2, serial_parser scan_first_pass_state) /\
     ((c2 = [] /\ ms2 = [] /\ Exists (fun x => is_finished_active_scan x = true) ms1) \/
      (exists ms2' ev, ms2 = ms2' ++ [ev] /\ is_finished_active_scan ev = true /\
         Forall (fun x => is_finished_active_scan x = false) ms1 /\
         Forall (fun x => is_finished_active_scan x = false /\ err_when_fail x = None) ms2')) /\
     None = first_pan_desc (ms1 ++ ms2)) /\
  scan_step 5 scan_pass_client = (Ret (Some scan_test_body), scan_pass_final 5) /\
  scan scan_pass_client = (Ret scan_test_body, scan_pass_final 4).
Proof.
  split; [vm_compute; reflexivity|]. split.
  - refine (proj1 (proj1 (proj2 (proj2 scan_order))
                   (client_with_input scan_all_fail_input)
                   (mkClient [] (map scan_line scan_durations_used) [] []
                      WiSunModuleParser_new [] None None) _)).
    vm_compute. reflexivity.
  - split; [|split; [|split; [|split]]].
    + apply (proj1 (proj1 (proj2 scan_order) (client_with_input scan_test_input)
                     scan_test_body
                     (mkClient [] [scan_line 4; scan_line 5] [] [] WiSunModuleParser_new []
                        None None))).
      vm_compute. reflexivity.
    + vm_compute. reflexivity.
    + apply (proj1 (proj2 (proj2 (proj2 scan_order))) 4 (client_with_input scan_test_input) None).
      vm_compute. reflexivity.
    + refine (proj1 (proj1 (proj2 (proj2 (proj2 (proj2 scan_order))))
                      5 scan_pan_lines scan_test_body scan_event_line scan_event_message []
                      scan_pass_client _ _ _ _ _ _ _));
        first [reflexivity | repeat constructor | vm_compute; reflexivity].
    + refine (proj2 (proj1 (proj2 (proj2 (proj2 (proj2 scan_order))))
                      5 scan_pan_lines scan_test_body scan_event_line scan_event_message []
                      scan_pass_client _ _ _ _ _ _ _));
        first [reflexivity | repeat constructor | vm_compute; reflexivity].
Defined.

End ScanFacts.
